(** * The dynamic translation cache of the multicore backend

    A shallow embedding of
    [ocelot/executive/implementation/DynamicTranslationCache.cpp]:
    the layout passes that assign byte offsets to the memory regions of
    a subkernel, the call-target pass, and the cache of translations
    with its registration and specialization operations.

    Conventions.
    - [unsigned int] values are numbers of type [N]; every addition the
      source performs on them is followed by [wrap32].
    - The [offset] of an operand is kept as its 32-bit pattern, so that
      [operand.offset += x] is addition modulo [2^32] whatever the
      signedness of the field.
    - A [std::unordered_map<std::string, unsigned>] is a [gmap string N];
      [insert] on such a map keeps an entry that is already present.
    - Containers the source only iterates over ([globals()], [locals],
      [kernels()], the blocks of the control flow graph) are lists in
      iteration order.
    - [assert] is taken as enabled: a failing assertion ends the
      computation with the fault [AssertionFailed].  A division by zero
      in [pad] ends it with [DivisionByZero]. *)

From Stdlib Require Import NArith ZArith Lia Bool.
From stdpp Require Import gmap strings list fin_maps pretty.

Set Warnings "-register-all".

Local Open Scope string_scope.
Local Open Scope N_scope.
Local Open Scope list_scope.

(** ** Faults and results *)

Inductive fault : Type :=
| AssertionFailed (what : string)
| DivisionByZero
| NullDereference (what : string)
| Exception (message : string).

Inductive result (A : Type) : Type :=
| Ok (a : A)
| Fault (f : fault).

Arguments Ok {A} a.
Arguments Fault {A} f.

#[global] Instance result_ret : MRet result := @Ok.

#[global] Instance result_bind : MBind result :=
  fun A B (k : A -> result B) (r : result A) =>
    match r with
    | Ok a => k a
    | Fault f => Fault f
    end.

Definition assert (cond : bool) (what : string) : result unit :=
  if cond then Ok tt else Fault (AssertionFailed what).

Definition is_ok {A : Type} (r : result A) : bool :=
  match r with Ok _ => true | Fault _ => false end.

(** ** Machine arithmetic *)

Definition wrap32 (n : N) : N := n mod 2 ^ 32.

Definition sizeof_int : N := 4.

(** ** The intermediate representation *)

Inductive Opcode : Type :=
| Mov | Ld | St | Cvta | Call | Tex | Atom | Bra | Add | Bar | Ret | Exit.

Inductive AddressMode : Type :=
| Register | Indirect | Immediate | Address | Label | Special
| BitBucket | FunctionName | ArgumentList | Invalid.

Inductive AddressSpace : Type :=
| AddressSpace_Invalid | Const | Global | Local | Param | Shared
| Texture | Generic.

Inductive DataType : Type :=
| TypeSpecifier_invalid
| s8 | s16 | s32 | s64
| u8 | u16 | u32 | u64
| f16 | f32 | f64
| b8 | b16 | b32 | b64
| pred.

Inductive Directive : Type :=
| Directive_Const | Directive_Global | Directive_Local
| Directive_Param | Directive_Shared | Directive_Tex | Directive_Other.

Inductive Attribute : Type :=
| NoAttribute | Visible | Extern | Weak.

#[global] Instance Opcode_eq_dec : EqDecision Opcode.
Proof. solve_decision. Defined.
#[global] Instance AddressMode_eq_dec : EqDecision AddressMode.
Proof. solve_decision. Defined.
#[global] Instance AddressSpace_eq_dec : EqDecision AddressSpace.
Proof. solve_decision. Defined.
#[global] Instance DataType_eq_dec : EqDecision DataType.
Proof. solve_decision. Defined.
#[global] Instance Directive_eq_dec : EqDecision Directive.
Proof. solve_decision. Defined.
#[global] Instance Attribute_eq_dec : EqDecision Attribute.
Proof. solve_decision. Defined.

(** [ir::PTXOperand].  [array] holds the operands of an argument list. *)
Inductive PTXOperand : Type := mkOperand {
  addressMode : AddressMode;
  identifier : string;
  offset : N;
  isArgument : bool;
  type : DataType;
  reg : N;
  array : list PTXOperand
}.

(** [ir::PTXInstruction] *)
Record PTXInstruction : Type := mkInstruction {
  opcode : Opcode;
  d : PTXOperand;
  a : PTXOperand;
  b : PTXOperand;
  c : PTXOperand;
  addressSpace : AddressSpace;
  tailCall : bool
}.

(** [ir::Parameter], with the values [getAlignment()] and [getSize()]
    return. *)
Module Parameter_.
Record t : Type := mk {
  name : string;
  getAlignment : N;
  getSize : N
}.
End Parameter_.

(** [ir::PTXStatement] of a module level variable, with the value
    [bytes()] returns. *)
Module PTXStatement.
Record t : Type := mk {
  name : string;
  directive : Directive;
  attribute : Attribute;
  alignment : N;
  type : DataType;
  bytes : N
}.
End PTXStatement.

(** [ir::Local], with the value [getSize()] returns. *)
Module Local_.
Record t : Type := mk {
  name : string;
  space : AddressSpace;
  attribute : Attribute;
  alignment : N;
  type : DataType;
  getSize : N
}.
End Local_.

(** An entry of [ir::Module::kernels()]: what the parameter pass reads of
    each kernel of the module. *)
Module ModuleKernel.
Record t : Type := mk {
  name : string;
  function : bool;
  arguments : list Parameter_.t
}.
End ModuleKernel.

(** [ir::Module]: [globals()] maps a name to a global whose [statement]
    is kept here. *)
Module Module_.
Record t : Type := mk {
  name : string;
  path : string;
  globals : list (string * PTXStatement.t);
  kernels : list ModuleKernel.t
}.
End Module_.

(** [ir::PTXKernel]: [locals] maps a name to a local, [cfg] is the list of
    blocks, each the list of its instructions. *)
Module PTXKernel.
Record t : Type := mk {
  name : string;
  module : Module_.t;
  arguments : list Parameter_.t;
  locals : list (string * Local_.t);
  cfg : list (list PTXInstruction)
}.
End PTXKernel.

Definition set_cfg (kernel : PTXKernel.t) (cfg : list (list PTXInstruction))
  : PTXKernel.t :=
  PTXKernel.mk (PTXKernel.name kernel) (PTXKernel.module kernel)
    (PTXKernel.arguments kernel) (PTXKernel.locals kernel) cfg.

(** [Metadata] of a subkernel; a texture is named by the handle the device
    returned for it. *)
Module Metadata.
Record t : Type := mk {
  kernel : string;
  warpSize : Z;
  argumentSize : N;
  parameterSize : N;
  sharedSize : N;
  constantSize : N;
  localSize : N;
  textures : list N
}.
End Metadata.

(** ** Offset maps *)

(** [offsets.insert(std::make_pair(key, value))] *)
Definition map_insert (key : string) (value : N) (offsets : gmap string N)
  : gmap string N :=
  match offsets !! key with
  | Some _ => offsets
  | None => <[key := value]> offsets
  end.

(** ** [pad] *)

(** [pad(size, alignment)] updates [size] and returns the padding; here it
    returns the new size and the padding. *)
Definition pad (size alignment : N) : result (N * N) :=
  if alignment =? 0 then Fault DivisionByZero
  else
    let padding := alignment - size mod alignment in
    let padding := if alignment =? padding then 0 else padding in
    Ok (wrap32 (size + padding), padding).

(** [executive::Device], through the two queries the cache makes: the
    texture bound to a symbol of a module and the address of the allocation
    of a global of a module, each absent when the device returns 0. *)
Module Device.
Record t : Type := mk {
  getTextureReference : string -> string -> option N;
  getGlobalAllocation : string -> string -> option N
}.
End Device.

(** ** Loops *)

(** A loop over a container whose body may fail. *)
Fixpoint foldM {A S : Type} (body : A -> S -> result S) (l : list A) (s : S)
  : result S :=
  match l with
  | [] => Ok s
  | x :: rest => s ← body x s; foldM body rest s
  end.

(** A loop that rewrites the elements of a container and carries a state. *)
Fixpoint mapAccumM {A B S : Type} (body : A -> S -> result (B * S))
    (l : list A) (s : S) : result (list B * S) :=
  match l with
  | [] => Ok ([], s)
  | x :: rest =>
      '(y, s) ← body x s;
      '(ys, s) ← mapAccumM body rest s;
      Ok (y :: ys, s)
  end.

(** [map.find(key)] on a map kept as the list of its entries. *)
Definition map_find {V : Type} (key : string) (m : list (string * V))
  : option V :=
  snd <$> find (fun entry => bool_decide (entry.1 = key)) m.

(** ** Argument memory *)

(** The first loop of [setupArgumentMemoryReferences]: the running offset
    and the offset of every argument. *)
Fixpoint layoutArguments (arguments : list Parameter_.t) (offset : N)
    (offsets : gmap string N) : result (N * gmap string N) :=
  match arguments with
  | [] => Ok (offset, offsets)
  | argument :: rest =>
      '(offset, _) ← pad offset (Parameter_.getAlignment argument);
      let offsets := map_insert (Parameter_.name argument) offset offsets in
      layoutArguments rest (wrap32 (offset + Parameter_.getSize argument))
        offsets
  end.

Definition set_offset (operand : PTXOperand) (offset : N) : PTXOperand :=
  mkOperand (addressMode operand) (identifier operand) offset
    (isArgument operand) (type operand) (reg operand) (array operand).

Definition set_isArgument (operand : PTXOperand) (flag : bool) : PTXOperand :=
  mkOperand (addressMode operand) (identifier operand) (offset operand)
    flag (type operand) (reg operand) (array operand).

(** The body of the loop over [operands[i]] in the argument pass. *)
Definition mapArgumentOperand (offsets : gmap string N) (operand : PTXOperand)
  : PTXOperand :=
  if decide (addressMode operand = Address) then
    match offsets !! identifier operand with
    | Some argument =>
        set_isArgument
          (set_offset operand (wrap32 (offset operand + argument))) true
    | None => operand
    end
  else operand.

Definition isMovLdSt (ptx : PTXInstruction) : bool :=
  bool_decide (opcode ptx = Mov) || bool_decide (opcode ptx = Ld)
  || bool_decide (opcode ptx = St).

(** [operands[] = {&ptx.d, &ptx.a, &ptx.b, &ptx.c}] *)
Definition get_operand (i : nat) (ptx : PTXInstruction) : PTXOperand :=
  match i with
  | 0%nat => d ptx
  | 1%nat => a ptx
  | 2%nat => b ptx
  | _ => c ptx
  end.

Definition set_operand (i : nat) (operand : PTXOperand) (ptx : PTXInstruction)
  : PTXInstruction :=
  match i with
  | 0%nat => mkInstruction (opcode ptx) operand (a ptx) (b ptx) (c ptx)
               (addressSpace ptx) (tailCall ptx)
  | 1%nat => mkInstruction (opcode ptx) (d ptx) operand (b ptx) (c ptx)
               (addressSpace ptx) (tailCall ptx)
  | 2%nat => mkInstruction (opcode ptx) (d ptx) (a ptx) operand (c ptx)
               (addressSpace ptx) (tailCall ptx)
  | _ => mkInstruction (opcode ptx) (d ptx) (a ptx) (b ptx) operand
               (addressSpace ptx) (tailCall ptx)
  end.

Definition set_reg (operand : PTXOperand) (reg : N) : PTXOperand :=
  mkOperand (addressMode operand) (identifier operand) (offset operand)
    (isArgument operand) (type operand) reg (array operand).

Definition set_addressSpace (ptx : PTXInstruction) (space : AddressSpace)
  : PTXInstruction :=
  mkInstruction (opcode ptx) (d ptx) (a ptx) (b ptx) (c ptx) space
    (tailCall ptx).

(** [for (unsigned int i = 0; i != 4; ++i)] with a body that updates
    [operands[i]] alone. *)
Definition map_operands (f : PTXOperand -> PTXOperand) (ptx : PTXInstruction)
  : PTXInstruction :=
  foldl (fun ptx i => set_operand i (f (get_operand i ptx)) ptx) ptx
    [0; 1; 2; 3]%nat.

Definition mapArgumentInstruction (offsets : gmap string N)
    (ptx : PTXInstruction) : PTXInstruction :=
  if isMovLdSt ptx then map_operands (mapArgumentOperand offsets) ptx
  else ptx.

(** Both loops over the blocks and their instructions. *)
Definition map_cfg (f : PTXInstruction -> PTXInstruction)
    (cfg : list (list PTXInstruction)) : list (list PTXInstruction) :=
  map (map f) cfg.

Definition set_argumentSize (metadata : Metadata.t) (size : N) : Metadata.t :=
  Metadata.mk (Metadata.kernel metadata) (Metadata.warpSize metadata)
    size (Metadata.parameterSize metadata) (Metadata.sharedSize metadata)
    (Metadata.constantSize metadata) (Metadata.localSize metadata)
    (Metadata.textures metadata).

Definition setupArgumentMemoryReferences (kernel : PTXKernel.t)
    (metadata : Metadata.t) : result (PTXKernel.t * Metadata.t) :=
  '(offset, offsets) ← layoutArguments (PTXKernel.arguments kernel) 0 ∅;
  let cfg := map_cfg (mapArgumentInstruction offsets) (PTXKernel.cfg kernel) in
  Ok (set_cfg kernel cfg, set_argumentSize metadata offset).

(** ** Global memory *)

Definition mapGlobalInstruction (module : Module_.t) (ptx : PTXInstruction)
  : PTXInstruction :=
  if bool_decide (opcode ptx = Mov)
     && (bool_decide (addressMode (a ptx) = Address)
         || bool_decide (addressMode (a ptx) = Indirect))
  then
    match map_find (identifier (a ptx)) (Module_.globals module) with
    | Some statement =>
        if bool_decide (PTXStatement.directive statement = Directive_Global)
        then set_addressSpace ptx Global
        else ptx
    | None => ptx
    end
  else ptx.

Definition setupGlobalMemoryReferences (kernel : PTXKernel.t) : PTXKernel.t :=
  set_cfg kernel
    (map (map (mapGlobalInstruction (PTXKernel.module kernel)))
       (PTXKernel.cfg kernel)).

Section Layout.

(** [ir::PTXOperand::bytes], declared in a header that is not part of the
    sources: the byte width of a scalar type. *)
Variable PTXOperand_bytes : DataType -> N.

(** ** Parameter memory *)

Definition DIVERGENT : string := "ptx.warp.divergent".

(** The loop over one argument array of a call. *)
Fixpoint layoutCallArguments (arguments : list PTXOperand) (offset : N)
    (offsets : gmap string N) : result (N * gmap string N) :=
  match arguments with
  | [] => Ok (offset, offsets)
  | argument :: rest =>
      '(offset, _) ← pad offset (PTXOperand_bytes (type argument));
      _ ← assert (bool_decide (offsets !! identifier argument = None))
            "offsets.count(argument->identifier) == 0";
      let offsets := map_insert (identifier argument) offset offsets in
      layoutCallArguments rest
        (wrap32 (offset + PTXOperand_bytes (type argument))) offsets
  end.

(** The body of the first instruction loop of the parameter pass; the state
    is [metadata->parameterSize] and [offsets]. *)
Definition layoutCall (ptx : PTXInstruction) (st : N * gmap string N)
  : result (N * gmap string N) :=
  let '(parameterSize, offsets) := st in
  if negb (bool_decide (opcode ptx = Call)) then Ok st
  else if bool_decide (identifier (a ptx) = DIVERGENT) then Ok st
  else
    '(offset, offsets) ← layoutCallArguments (array (d ptx)) 0 offsets;
    '(offset, offsets) ← layoutCallArguments (array (b ptx)) offset offsets;
    Ok (N.max offset parameterSize, offsets).

Definition mapParameterOperand (offsets : gmap string N)
    (operand : PTXOperand) : PTXOperand :=
  if decide (addressMode operand = Address) then
    match offsets !! identifier operand with
    | Some parameter =>
        set_isArgument
          (set_offset operand (wrap32 (offset operand + parameter))) false
    | None => operand
    end
  else operand.

Definition mapParameterInstruction (offsets : gmap string N)
    (ptx : PTXInstruction) : PTXInstruction :=
  if isMovLdSt ptx then map_operands (mapParameterOperand offsets) ptx
  else ptx.

(** The loop over the declared arguments of one function of the module. *)
Fixpoint layoutFunctionArguments (arguments : list Parameter_.t) (bytes : N)
  : result N :=
  match arguments with
  | [] => Ok bytes
  | argument :: rest =>
      '(bytes, _) ← pad bytes (Parameter_.getSize argument);
      layoutFunctionArguments rest
        (wrap32 (bytes + Parameter_.getSize argument))
  end.

(** The body of the loop over [kernel.module->kernels()]. *)
Definition layoutFunction (function : ModuleKernel.t) (parameterSize : N)
  : result N :=
  if negb (ModuleKernel.function function) then Ok parameterSize
  else
    bytes ← layoutFunctionArguments (ModuleKernel.arguments function) 0;
    Ok (N.max bytes parameterSize).

Definition set_parameterSize (metadata : Metadata.t) (size : N) : Metadata.t :=
  Metadata.mk (Metadata.kernel metadata) (Metadata.warpSize metadata)
    (Metadata.argumentSize metadata) size (Metadata.sharedSize metadata)
    (Metadata.constantSize metadata) (Metadata.localSize metadata)
    (Metadata.textures metadata).

Definition setupParameterMemoryReferences (kernel : PTXKernel.t)
    (metadata : Metadata.t) : result (PTXKernel.t * Metadata.t) :=
  '(parameterSize, offsets) ←
    foldM (fun block st => foldM layoutCall block st)
      (PTXKernel.cfg kernel) (0, ∅);
  let cfg := map_cfg (mapParameterInstruction offsets) (PTXKernel.cfg kernel) in
  parameterSize ←
    foldM layoutFunction (Module_.kernels (PTXKernel.module kernel))
      parameterSize;
  Ok (set_cfg kernel cfg, set_parameterSize metadata parameterSize).

(** ** Shared memory *)

(** The local state of the shared pass while it reads the declarations. *)
Record SharedLayout : Type := mkSharedLayout {
  shared_offsets : gmap string N;
  shared_external : gset string;
  shared_externalAlignment : N;
  shared_sharedSize : N
}.

(** The body of the loop over [kernel.module->globals()]. *)
Definition layoutSharedGlobal (global : string * PTXStatement.t)
    (st : SharedLayout) : result SharedLayout :=
  let statement := global.2 in
  if bool_decide (PTXStatement.directive statement = Directive_Shared) then
    if bool_decide (PTXStatement.attribute statement = Extern) then
      _ ← assert (bool_decide (PTXStatement.name statement
                                 ∉ shared_external st))
            "External global more than once.";
      let external := {[PTXStatement.name statement]} ∪ shared_external st in
      let externalAlignment :=
        N.max (shared_externalAlignment st)
          (PTXStatement.alignment statement) in
      let externalAlignment :=
        N.max externalAlignment
          (PTXOperand_bytes (PTXStatement.type statement)) in
      Ok (mkSharedLayout (shared_offsets st) external externalAlignment
            (shared_sharedSize st))
    else
      '(sharedSize, _) ← pad (shared_sharedSize st)
                            (PTXStatement.alignment statement);
      let offsets :=
        map_insert (PTXStatement.name statement) sharedSize
          (shared_offsets st) in
      Ok (mkSharedLayout offsets (shared_external st)
            (shared_externalAlignment st)
            (wrap32 (sharedSize + PTXStatement.bytes statement)))
  else Ok st.

(** The body of the loop over [kernel.locals]. *)
Definition layoutSharedLocal (local : string * Local_.t)
    (st : SharedLayout) : result SharedLayout :=
  let local := local.2 in
  if bool_decide (Local_.space local = Shared) then
    if bool_decide (Local_.attribute local = Extern) then
      _ ← assert (bool_decide (Local_.name local ∉ shared_external st))
            "external.count(local->second.name) == 0";
      let external := {[Local_.name local]} ∪ shared_external st in
      let externalAlignment :=
        N.max (shared_externalAlignment st) (Local_.alignment local) in
      let externalAlignment :=
        N.max externalAlignment (PTXOperand_bytes (Local_.type local)) in
      Ok (mkSharedLayout (shared_offsets st) external externalAlignment
            (shared_sharedSize st))
    else
      '(sharedSize, _) ← pad (shared_sharedSize st) (Local_.alignment local);
      let offsets :=
        map_insert (Local_.name local) sharedSize (shared_offsets st) in
      Ok (mkSharedLayout offsets (shared_external st)
            (shared_externalAlignment st)
            (wrap32 (sharedSize + Local_.getSize local)))
  else Ok st.

Definition isMovLdStCvta (ptx : PTXInstruction) : bool :=
  isMovLdSt ptx || bool_decide (opcode ptx = Cvta).

(** The body of the loop over [operands[i]] in the shared pass.  An operand
    that names an external variable is left as it is and remembered: the
    source pushes its address on [externalOperands]; here the index [i] is
    added to the indices remembered for this instruction. *)
Definition mapSharedOperand (offsets : gmap string N) (external : gset string)
    (st : PTXInstruction * list nat) (i : nat) : PTXInstruction * list nat :=
  let '(ptx, externalOperands) := st in
  let operand := get_operand i ptx in
  if decide (addressMode operand = Address) then
    if decide (identifier operand ∈ external) then
      (ptx, externalOperands ++ [i])
    else
      match offsets !! identifier operand with
      | Some offset_ =>
          (set_operand i
             (set_offset operand (wrap32 (offset operand + offset_)))
             (set_addressSpace ptx Shared),
           externalOperands)
      | None => st
      end
  else st.

Definition mapSharedInstruction (offsets : gmap string N)
    (external : gset string) (ptx : PTXInstruction)
  : PTXInstruction * list nat :=
  if isMovLdStCvta ptx then
    foldl (mapSharedOperand offsets external) (ptx, []) [0; 1; 2; 3]%nat
  else (ptx, []).

(** The address of an operand inside a control flow graph: the index of its
    block, of its instruction in the block, and of the operand in
    [operands]. *)
Definition OperandRef : Type := nat * nat * nat.

(** The loop over the instructions of block [bi], from instruction [ii]
    on. *)
Fixpoint mapSharedBlock (offsets : gmap string N) (external : gset string)
    (bi ii : nat) (block : list PTXInstruction)
  : list PTXInstruction * list OperandRef :=
  match block with
  | [] => ([], [])
  | ptx :: rest =>
      let '(ptx, slots) := mapSharedInstruction offsets external ptx in
      let '(rest, externalOperands) :=
        mapSharedBlock offsets external bi (S ii) rest in
      (ptx :: rest, ((fun i => (bi, ii, i)) <$> slots) ++ externalOperands)
  end.

(** The loop over the blocks, from block [bi] on. *)
Fixpoint mapSharedCfg (offsets : gmap string N) (external : gset string)
    (bi : nat) (cfg : list (list PTXInstruction))
  : list (list PTXInstruction) * list OperandRef :=
  match cfg with
  | [] => ([], [])
  | block :: rest =>
      let '(block, refs) := mapSharedBlock offsets external bi 0 block in
      let '(rest, externalOperands) :=
        mapSharedCfg offsets external (S bi) rest in
      (block :: rest, refs ++ externalOperands)
  end.

(** The body of the loop over [externalOperands]: [sharedSize] is added to
    the offset of the operand at the address [operand]. *)
Definition addExternalOffset (sharedSize : N)
    (cfg : list (list PTXInstruction)) (operand : OperandRef)
  : list (list PTXInstruction) :=
  let '(bi, ii, i) := operand in
  alter
    (alter
       (fun ptx =>
          let o := get_operand i ptx in
          set_operand i (set_offset o (wrap32 (offset o + sharedSize))) ptx)
       ii)
    bi cfg.

Definition set_sharedSize (metadata : Metadata.t) (size : N) : Metadata.t :=
  Metadata.mk (Metadata.kernel metadata) (Metadata.warpSize metadata)
    (Metadata.argumentSize metadata) (Metadata.parameterSize metadata) size
    (Metadata.constantSize metadata) (Metadata.localSize metadata)
    (Metadata.textures metadata).

(** The declarations part of the shared pass. *)
Definition layoutShared (kernel : PTXKernel.t) : result SharedLayout :=
  st ← foldM layoutSharedGlobal (Module_.globals (PTXKernel.module kernel))
         (mkSharedLayout ∅ ∅ 1 0);
  foldM layoutSharedLocal (PTXKernel.locals kernel) st.

Definition setupSharedMemoryReferences (kernel : PTXKernel.t)
    (metadata : Metadata.t) : result (PTXKernel.t * Metadata.t) :=
  st ← layoutShared kernel;
  let '(cfg, externalOperands) :=
    mapSharedCfg (shared_offsets st) (shared_external st) 0
      (PTXKernel.cfg kernel) in
  '(sharedSize, _) ← pad (shared_sharedSize st) (shared_externalAlignment st);
  let cfg := foldl (addExternalOffset sharedSize) cfg externalOperands in
  Ok (set_cfg kernel cfg, set_sharedSize metadata sharedSize).

(** ** Constant memory *)

Definition layoutConstantGlobal (global : string * PTXStatement.t)
    (st : N * gmap string N) : result (N * gmap string N) :=
  let '(constantSize, constants) := st in
  let statement := global.2 in
  if bool_decide (PTXStatement.directive statement = Directive_Const) then
    '(constantSize, _) ← pad constantSize (PTXStatement.alignment statement);
    let constants :=
      map_insert (PTXStatement.name statement) constantSize constants in
    Ok (wrap32 (constantSize + PTXStatement.bytes statement), constants)
  else Ok st.

(** The body of the loop over [operands[i]] shared by the constant and the
    local pass: the operand gets its offset and the instruction the address
    space of the pass. *)
Definition mapSpaceOperand (space : AddressSpace) (offsets : gmap string N)
    (ptx : PTXInstruction) (i : nat) : PTXInstruction :=
  let operand := get_operand i ptx in
  if decide (addressMode operand = Address) then
    match offsets !! identifier operand with
    | Some mapping =>
        set_operand i
          (set_offset operand (wrap32 (offset operand + mapping)))
          (set_addressSpace ptx space)
    | None => ptx
    end
  else ptx.

Definition mapSpaceInstruction (space : AddressSpace)
    (offsets : gmap string N) (ptx : PTXInstruction) : PTXInstruction :=
  if isMovLdSt ptx then
    foldl (mapSpaceOperand space offsets) ptx [0; 1; 2; 3]%nat
  else ptx.

Definition set_constantSize (metadata : Metadata.t) (size : N) : Metadata.t :=
  Metadata.mk (Metadata.kernel metadata) (Metadata.warpSize metadata)
    (Metadata.argumentSize metadata) (Metadata.parameterSize metadata)
    (Metadata.sharedSize metadata) size (Metadata.localSize metadata)
    (Metadata.textures metadata).

Definition setupConstantMemoryReferences (kernel : PTXKernel.t)
    (metadata : Metadata.t) : result (PTXKernel.t * Metadata.t) :=
  '(constantSize, constants) ←
    foldM layoutConstantGlobal (Module_.globals (PTXKernel.module kernel))
      (0, ∅);
  let cfg := map_cfg (mapSpaceInstruction Const constants)
               (PTXKernel.cfg kernel) in
  Ok (set_cfg kernel cfg, set_constantSize metadata constantSize).

(** ** Texture memory *)

Definition set_textures (metadata : Metadata.t) (textures : list N)
  : Metadata.t :=
  Metadata.mk (Metadata.kernel metadata) (Metadata.warpSize metadata)
    (Metadata.argumentSize metadata) (Metadata.parameterSize metadata)
    (Metadata.sharedSize metadata) (Metadata.constantSize metadata)
    (Metadata.localSize metadata) textures.

(** The body of the instruction loop of the texture pass; the state is
    [textures] and [metadata->textures]. *)
Definition mapTextureInstruction (device : option Device.t) (path : string)
    (ptx : PTXInstruction) (st : gmap string N * list N)
  : result (PTXInstruction * (gmap string N * list N)) :=
  let '(textures, metadata_textures) := st in
  if bool_decide (opcode ptx = Tex) then
    '(ptx, st) ←
      match textures !! identifier (a ptx) with
      | Some reference =>
          Ok (set_operand 1 (set_reg (a ptx) reference) ptx, st)
      | None =>
          let slot := wrap32 (N.of_nat (size textures)) in
          let ptx := set_operand 1 (set_reg (a ptx) slot) ptx in
          let textures := map_insert (identifier (a ptx)) slot textures in
          match device with
          | None => Fault (NullDereference "device")
          | Some device =>
              match Device.getTextureReference device path
                      (identifier (a ptx)) with
              | None => Fault (AssertionFailed "texture != 0")
              | Some texture =>
                  Ok (ptx, (textures, metadata_textures ++ [texture]))
              end
          end
      end;
    _ ← assert (negb (bool_decide (st.2 = [])))
          "metadata->textures.size()";
    Ok (ptx, st)
  else Ok (ptx, st).

Definition setupTextureMemoryReferences (kernel : PTXKernel.t)
    (metadata : Metadata.t) (device : option Device.t)
  : result (PTXKernel.t * Metadata.t) :=
  '(cfg, st) ←
    mapAccumM
      (mapAccumM
         (mapTextureInstruction device
            (Module_.path (PTXKernel.module kernel))))
      (PTXKernel.cfg kernel) (∅, Metadata.textures metadata);
  Ok (set_cfg kernel cfg, set_textures metadata st.2).

(** ** Local memory *)

Definition BARRIER_NEXT_KERNEL : string := "_Zocelot_barrier_next_kernel".
Definition SPILL_AREA : string := "_Zocelot_spill_area".
Definition RESUME_POINT : string := "_Zocelot_resume_point".
Definition RESUME_STATUS : string := "_Zocelot_resume_status".

(** The three statements the local pass repeats for a variable it places:
    pad to the alignment, record the offset, add the size. *)
Definition placeLocal (local : Local_.t) (st : N * gmap string N)
  : result (N * gmap string N) :=
  let '(localSize, offsets) := st in
  '(localSize, _) ← pad localSize (Local_.alignment local);
  let offsets := map_insert (Local_.name local) localSize offsets in
  Ok (wrap32 (localSize + Local_.getSize local), offsets).

(** [kernel.locals.find(name)] followed by the placement when the variable
    is found in the local space. *)
Definition placeNamedLocal (name : string) (locals : list (string * Local_.t))
    (st : N * gmap string N) : result (N * gmap string N) :=
  match map_find name locals with
  | Some local =>
      if bool_decide (Local_.space local = Local) then placeLocal local st
      else Ok st
  | None => Ok st
  end.

(** The reserved word of the given name. *)
Definition placeReserved (name : string) (st : N * gmap string N)
  : result (N * gmap string N) :=
  let '(localSize, offsets) := st in
  '(localSize, _) ← pad localSize sizeof_int;
  let offsets := map_insert name localSize offsets in
  Ok (wrap32 (localSize + sizeof_int), offsets).

(** The body of the loop over [kernel.locals]. *)
Definition placeOrdinaryLocal (local : string * Local_.t)
    (st : N * gmap string N) : result (N * gmap string N) :=
  if bool_decide (local.1 = BARRIER_NEXT_KERNEL) then Ok st
  else if bool_decide (local.1 = SPILL_AREA) then Ok st
  else if bool_decide (local.1 = RESUME_POINT) then Ok st
  else if bool_decide (local.1 = RESUME_STATUS) then Ok st
  else if bool_decide (Local_.space local.2 = Local)
  then placeLocal local.2 st
  else Ok st.

(** The declarations part of the local pass. *)
Definition layoutLocals (locals : list (string * Local_.t))
  : result (N * gmap string N) :=
  st ← placeNamedLocal BARRIER_NEXT_KERNEL locals (0, ∅);
  st ← placeReserved RESUME_STATUS st;
  st ← placeReserved RESUME_POINT st;
  st ← foldM placeOrdinaryLocal locals st;
  placeNamedLocal SPILL_AREA locals st.

Definition set_localSize (metadata : Metadata.t) (size : N) : Metadata.t :=
  Metadata.mk (Metadata.kernel metadata) (Metadata.warpSize metadata)
    (Metadata.argumentSize metadata) (Metadata.parameterSize metadata)
    (Metadata.sharedSize metadata) (Metadata.constantSize metadata) size
    (Metadata.textures metadata).

Definition setupLocalMemoryReferences (kernel : PTXKernel.t)
    (metadata : Metadata.t) : result (PTXKernel.t * Metadata.t) :=
  '(localSize, offsets) ← layoutLocals (PTXKernel.locals kernel);
  let cfg := map_cfg (mapSpaceInstruction Local offsets)
               (PTXKernel.cfg kernel) in
  Ok (set_cfg kernel cfg, set_localSize metadata localSize).

(** ** All regions *)

Definition setupPTXMemoryReferences (kernel : PTXKernel.t)
    (metadata : Metadata.t) (device : option Device.t)
  : result (PTXKernel.t * Metadata.t) :=
  let kernel := setupGlobalMemoryReferences kernel in
  '(kernel, metadata) ← setupArgumentMemoryReferences kernel metadata;
  '(kernel, metadata) ← setupParameterMemoryReferences kernel metadata;
  '(kernel, metadata) ← setupSharedMemoryReferences kernel metadata;
  '(kernel, metadata) ← setupConstantMemoryReferences kernel metadata;
  '(kernel, metadata) ← setupTextureMemoryReferences kernel metadata device;
  setupLocalMemoryReferences kernel metadata.

(** ** Call targets *)

(** The body of the instruction loop of [setupCallTargets]; the statement
    that would record the target is commented out in the source, so no
    instruction is changed. *)
Definition checkCallTarget (ptx : PTXInstruction) (_ : unit) : result unit :=
  if negb (bool_decide (opcode ptx = Call))
     && negb (bool_decide (opcode ptx = Mov)) then Ok tt
  else if tailCall ptx then Ok tt
  else if bool_decide (addressMode (a ptx) = FunctionName) then
    if bool_decide (identifier (a ptx) = DIVERGENT) then Ok tt
    else Fault (AssertionFailed "arbitrary function calls not yet supported")
  else Ok tt.

Definition setupCallTargets {Cache : Type} (kernel : PTXKernel.t)
    (translationCache : Cache) : result PTXKernel.t :=
  _ ← foldM (fun block u => foldM checkCallTarget block u)
        (PTXKernel.cfg kernel) tt;
  Ok kernel.

End Layout.

(** * The translation cache *)

Inductive OptimizationLevel : Type :=
| NoOptimization | ReportOptimization | DebugOptimization
| InstrumentOptimization | MemoryCheckOptimization | BasicOptimization
| AggressiveOptimization | SpaceOptimization | FullOptimization.

#[global] Instance OptimizationLevel_eq_dec : EqDecision OptimizationLevel.
Proof. solve_decision. Defined.

(** The passes [cloneAndOptimizeTranslation] adds to its pass manager. *)
Inductive Pass : Type :=
| TargetData | InstructionCombining | Reassociate | GVN | CFGSimplification
| SimplifyLibCalls | JumpThreading | ScalarReplAggregates
| TailCallElimination | LoopRotate | LICM | LoopUnswitch (optimizeForSize : bool)
| IndVarSimplify | LoopDeletion | LoopUnroll | MemCpyOpt | SCCP
| DeadStoreElimination | AggressiveDCE.

(** Addresses of heap objects, subkernel identifiers and handles of LLVM
    objects. *)
Definition ptr : Type := N.
Definition SubkernelId : Type := N.
Definition ModuleRef : Type := N.
Definition FunctionRef : Type := N.
Definition ValueRef : Type := N.

(** ** The outcome of an operation on a state *)

(** An operation returns, leaves by a C++ exception, or ends the process
    (a failed assertion, a null pointer that is followed). *)
Inductive outcome (S A : Type) : Type :=
| Return (a : A) (s : S)
| Throw (message : string) (s : S)
| Abort (f : fault).

Arguments Return {S A} a s.
Arguments Throw {S A} message s.
Arguments Abort {S A} f.

(** ** The code generation backend *)

(** The operations of LLVM and of the PTX analyses and translator that the
    cache calls.  None of them is defined in the sources; each is a
    function of the state [LLVM] of the library (its modules and functions
    and the JIT) that returns or throws. *)
Record Backend (LLVM : Type) : Type := mkBackend {
  (* [kernel.dfg()], the predication pass and [kernel.dfg()->toSsa()] *)
  ConvertPredicationToSelectPass : PTXKernel.t -> PTXKernel.t;
  toSsa : PTXKernel.t -> PTXKernel.t;
  fromSsa : PTXKernel.t -> PTXKernel.t;
  (* [new llvm::Module(name, context)] *)
  newModule : string -> LLVM -> outcome LLVM ModuleRef;
  (* [PTXToLLVMTranslator::translate] and [LLVMKernel::assemble] *)
  translate : PTXKernel.t -> OptimizationLevel -> LLVM -> outcome LLVM unit;
  (* [llvm::ParseAssemblyString]: the module, or the diagnostic *)
  ParseAssemblyString :
    string -> option ModuleRef -> LLVM -> outcome LLVM (string + ModuleRef);
  getFunction : ModuleRef -> string -> LLVM -> option FunctionRef;
  getNameStr : FunctionRef -> LLVM -> string;
  CloneFunction : FunctionRef -> LLVM -> outcome LLVM FunctionRef;
  (* [setName], [setLinkage] and the insertion in the function list *)
  addFunction : ModuleRef -> FunctionRef -> string -> LLVM -> outcome LLVM unit;
  (* [FunctionPassManager::run] with the passes added *)
  runPasses : ModuleRef -> list Pass -> FunctionRef -> LLVM -> outcome LLVM unit;
  (* [llvm::verifyModule]: the errors when the module is broken *)
  verifyModule : ModuleRef -> LLVM -> outcome LLVM (option string);
  deleteModule : ModuleRef -> LLVM -> LLVM;
  addModule : option ModuleRef -> LLVM -> outcome LLVM unit;
  removeModule : option ModuleRef -> LLVM -> LLVM;
  getNamedValue : ModuleRef -> string -> LLVM -> option ValueRef;
  addGlobalMapping : ValueRef -> N -> LLVM -> outcome LLVM unit;
  getPointerToFunction : FunctionRef -> LLVM -> outcome LLVM (option N)
}.

Arguments mkBackend {LLVM}.
Arguments ConvertPredicationToSelectPass {LLVM}.
Arguments toSsa {LLVM}.
Arguments fromSsa {LLVM}.
Arguments newModule {LLVM}.
Arguments translate {LLVM}.
Arguments ParseAssemblyString {LLVM}.
Arguments getFunction {LLVM}.
Arguments getNameStr {LLVM}.
Arguments CloneFunction {LLVM}.
Arguments addFunction {LLVM}.
Arguments runPasses {LLVM}.
Arguments verifyModule {LLVM}.
Arguments deleteModule {LLVM}.
Arguments addModule {LLVM}.
Arguments removeModule {LLVM}.
Arguments getNamedValue {LLVM}.
Arguments addGlobalMapping {LLVM}.
Arguments getPointerToFunction {LLVM}.

(** ** The objects of the cache *)

(** [DynamicTranslationCache::Translation] *)
Module Translation.
Record t : Type := mk {
  llvmFunction : option FunctionRef;
  function : option N;
  metadata : option ptr;
  warpSize : Z
}.
End Translation.

(** [DynamicTranslationCache::TranslatedSubkernel] *)
Module TranslatedSubkernel.
Record t : Type := mk {
  llvmFunction : option FunctionRef;
  metadata : option ptr;
  subkernel : option PTXKernel.t;
  translations : gmap Z ptr
}.
End TranslatedSubkernel.

(** [DynamicTranslationCache::TranslatedKernel] *)
Module TranslatedKernel.
Record t : Type := mk {
  llvmModule : option ModuleRef;
  kernel : ptr;
  metadata : option ptr;
  localMemorySize : N;
  sharedMemorySize : N;
  llvmFunction : option FunctionRef;
  scalarTranslation : option FunctionRef;
  subkernels : gmap SubkernelId TranslatedSubkernel.t
}.
End TranslatedKernel.

(** [DynamicTranslationCache::ModuleMetadata] *)
Module ModuleMetadata.
Record t : Type := mk {
  ptxModule : Module_.t;
  device : option Device.t;
  kernels : gmap string ptr
}.
End ModuleMetadata.

(** [DynamicMulticoreKernel]: its name, its module and the subkernels of its
    kernel graph, each with the PTX kernel it points to. *)
Module DynamicMulticoreKernel.
Record t : Type := mk {
  name : string;
  module : Module_.t;
  subkernels : list (SubkernelId * PTXKernel.t)
}.
End DynamicMulticoreKernel.

(** The objects allocated with [new], by address, and the kernels of the
    executive.  [next] is the next free address; [indeterminate] is the
    value read from an [int] that was never written. *)
Module Heap.
Record t : Type := mk {
  next : ptr;
  indeterminate : Z;
  TranslatedKernels : gmap ptr TranslatedKernel.t;
  Translations : gmap ptr Translation.t;
  Metadatas : gmap ptr Metadata.t;
  Kernels : gmap ptr DynamicMulticoreKernel.t
}.
End Heap.

(** The names the member functions use that are neither their parameters
    nor their locals.  They are resolved in the class, whose declaration
    ([DynamicTranslationCache.h]) is not part of the sources, so each is a
    data member here. *)
Module Members.
Record t : Type := mk {
  optimizationLevel : OptimizationLevel;
  optimization : OptimizationLevel;
  warpSize : Z;
  device : option Device.t;
  subkernelId : SubkernelId;
  subkernelid : SubkernelId;
  kernel : PTXKernel.t;
  module : option ModuleRef;
  llvmAssembly : string
}.
End Members.

(** [DynamicTranslationCache] with the heap and LLVM. *)
Module Cache.
Record t (LLVM : Type) : Type := mk {
  modules : gmap string ModuleMetadata.t;
  kernels : gmap ptr ptr;
  subkernelsToKernel : gmap SubkernelId ptr;
  translationCache : gmap SubkernelId (gmap Z ptr);
  members : Members.t;
  heap : Heap.t;
  llvm : LLVM
}.
Arguments mk {LLVM}.
Arguments modules {LLVM}.
Arguments kernels {LLVM}.
Arguments subkernelsToKernel {LLVM}.
Arguments translationCache {LLVM}.
Arguments members {LLVM}.
Arguments heap {LLVM}.
Arguments llvm {LLVM}.
End Cache.

(** ** State updates *)

Section Operations.

Context {LLVM : Type}.

(** [ir::PTXOperand::bytes] and the backend the cache was built with. *)
Variable PTXOperand_bytes : DataType -> N.
Variable backend : Backend LLVM.

Definition set_modules (s : Cache.t LLVM) (m : gmap string ModuleMetadata.t)
  : Cache.t LLVM :=
  Cache.mk m (Cache.kernels s) (Cache.subkernelsToKernel s)
    (Cache.translationCache s) (Cache.members s) (Cache.heap s) (Cache.llvm s).

Definition set_kernels (s : Cache.t LLVM) (m : gmap ptr ptr) : Cache.t LLVM :=
  Cache.mk (Cache.modules s) m (Cache.subkernelsToKernel s)
    (Cache.translationCache s) (Cache.members s) (Cache.heap s) (Cache.llvm s).

Definition set_subkernelsToKernel (s : Cache.t LLVM) (m : gmap SubkernelId ptr)
  : Cache.t LLVM :=
  Cache.mk (Cache.modules s) (Cache.kernels s) m
    (Cache.translationCache s) (Cache.members s) (Cache.heap s) (Cache.llvm s).

Definition set_translationCache (s : Cache.t LLVM)
    (m : gmap SubkernelId (gmap Z ptr)) : Cache.t LLVM :=
  Cache.mk (Cache.modules s) (Cache.kernels s) (Cache.subkernelsToKernel s)
    m (Cache.members s) (Cache.heap s) (Cache.llvm s).

Definition set_members (s : Cache.t LLVM) (m : Members.t) : Cache.t LLVM :=
  Cache.mk (Cache.modules s) (Cache.kernels s) (Cache.subkernelsToKernel s)
    (Cache.translationCache s) m (Cache.heap s) (Cache.llvm s).

Definition set_heap (s : Cache.t LLVM) (h : Heap.t) : Cache.t LLVM :=
  Cache.mk (Cache.modules s) (Cache.kernels s) (Cache.subkernelsToKernel s)
    (Cache.translationCache s) (Cache.members s) h (Cache.llvm s).

Definition set_llvm (s : Cache.t LLVM) (l : LLVM) : Cache.t LLVM :=
  Cache.mk (Cache.modules s) (Cache.kernels s) (Cache.subkernelsToKernel s)
    (Cache.translationCache s) (Cache.members s) (Cache.heap s) l.

Definition set_TranslatedKernels (h : Heap.t)
    (m : gmap ptr TranslatedKernel.t) : Heap.t :=
  Heap.mk (Heap.next h) (Heap.indeterminate h) m (Heap.Translations h)
    (Heap.Metadatas h) (Heap.Kernels h).

Definition set_Translations (h : Heap.t) (m : gmap ptr Translation.t)
  : Heap.t :=
  Heap.mk (Heap.next h) (Heap.indeterminate h) (Heap.TranslatedKernels h) m
    (Heap.Metadatas h) (Heap.Kernels h).

Definition set_Metadatas (h : Heap.t) (m : gmap ptr Metadata.t) : Heap.t :=
  Heap.mk (Heap.next h) (Heap.indeterminate h) (Heap.TranslatedKernels h)
    (Heap.Translations h) m (Heap.Kernels h).

Definition set_Kernels (h : Heap.t) (m : gmap ptr DynamicMulticoreKernel.t)
  : Heap.t :=
  Heap.mk (Heap.next h) (Heap.indeterminate h) (Heap.TranslatedKernels h)
    (Heap.Translations h) (Heap.Metadatas h) m.

Definition set_next (h : Heap.t) (next : ptr) : Heap.t :=
  Heap.mk next (Heap.indeterminate h) (Heap.TranslatedKernels h)
    (Heap.Translations h) (Heap.Metadatas h) (Heap.Kernels h).

Definition set_kernel_member (m : Members.t) (kernel : PTXKernel.t)
  : Members.t :=
  Members.mk (Members.optimizationLevel m) (Members.optimization m)
    (Members.warpSize m) (Members.device m) (Members.subkernelId m)
    (Members.subkernelid m) kernel (Members.module m) (Members.llvmAssembly m).

(** ** The monad of the member functions *)

Definition M (A : Type) : Type := Cache.t LLVM -> outcome (Cache.t LLVM) A.

#[global] Instance M_ret : MRet M := fun A a s => Return a s.

#[global] Instance M_bind : MBind M :=
  fun A B (k : A -> M B) (m : M A) s =>
    match m s with
    | Return a s => k a s
    | Throw message s => Throw message s
    | Abort f => Abort f
    end.

Definition get : M (Cache.t LLVM) := fun s => Return s s.

Definition modify (f : Cache.t LLVM -> Cache.t LLVM) : M unit :=
  fun s => Return tt (f s).

Definition abort {A : Type} (f : fault) : M A := fun _ => Abort f.

Definition throw {A : Type} (message : string) : M A :=
  fun s => Throw message s.

(** [assert(cond)] *)
Definition assertM (cond : bool) (what : string) : M unit :=
  if cond then mret tt else abort (AssertionFailed what).

(** A pass over the PTX: its faults end the process. *)
Definition liftR {A : Type} (r : result A) : M A :=
  match r with
  | Ok a => mret a
  | Fault f => abort f
  end.

(** A call into the backend. *)
Definition liftL {A : Type} (op : LLVM -> outcome LLVM A) : M A :=
  fun s =>
    match op (Cache.llvm s) with
    | Return a l => Return a (set_llvm s l)
    | Throw message l => Throw message (set_llvm s l)
    | Abort f => Abort f
    end.

(** Following a pointer that may be null. *)
Definition deref {A : Type} (p : option A) (what : string) : M A :=
  match p with
  | Some a => mret a
  | None => abort (NullDereference what)
  end.

(** [try { body } catch(...) { handler; throw; }] *)
Definition try_catch {A : Type} (body : M A) (handler : M unit) : M A :=
  fun s =>
    match body s with
    | Throw message s =>
        match handler s with
        | Return _ s => Throw message s
        | Throw message' s => Throw message' s
        | Abort f => Abort f
        end
    | other => other
    end.

(** A loop over a container. *)
Fixpoint forM (A : Type) (l : list A) (body : A -> M unit) : M unit :=
  match l with
  | [] => mret tt
  | x :: rest => _ ← body x; forM A rest body
  end.
Arguments forM {A} l body.

(** [new]: the address of the object allocated. *)
Definition alloc : M ptr :=
  fun s =>
    let p := Heap.next (Cache.heap s) in
    Return p (set_heap s (set_next (Cache.heap s) (p + 1))).

Definition modify_heap (f : Heap.t -> Heap.t) : M unit :=
  modify (fun s => set_heap s (f (Cache.heap s))).

Definition read_TranslatedKernel (p : ptr) : M TranslatedKernel.t :=
  s ← get;
  deref (Heap.TranslatedKernels (Cache.heap s) !! p) "TranslatedKernel".

Definition write_TranslatedKernel (p : ptr) (tk : TranslatedKernel.t)
  : M unit :=
  modify_heap
    (fun h => set_TranslatedKernels h (<[p := tk]> (Heap.TranslatedKernels h))).

Definition read_Translation (p : ptr) : M Translation.t :=
  s ← get;
  deref (Heap.Translations (Cache.heap s) !! p) "Translation".

Definition write_Translation (p : ptr) (t : Translation.t) : M unit :=
  modify_heap
    (fun h => set_Translations h (<[p := t]> (Heap.Translations h))).

Definition delete_Translation (p : ptr) : M unit :=
  modify_heap
    (fun h => set_Translations h (delete p (Heap.Translations h))).

Definition read_Metadata (p : ptr) : M Metadata.t :=
  s ← get;
  deref (Heap.Metadatas (Cache.heap s) !! p) "Metadata".

Definition write_Metadata (p : ptr) (m : Metadata.t) : M unit :=
  modify_heap (fun h => set_Metadatas h (<[p := m]> (Heap.Metadatas h))).

Definition delete_Metadata (p : ptr) : M unit :=
  modify_heap (fun h => set_Metadatas h (delete p (Heap.Metadatas h))).

Definition read_Kernel (p : ptr) : M DynamicMulticoreKernel.t :=
  s ← get;
  deref (Heap.Kernels (Cache.heap s) !! p) "DynamicMulticoreKernel".

Definition write_Kernel (p : ptr) (k : DynamicMulticoreKernel.t) : M unit :=
  modify_heap (fun h => set_Kernels h (<[p := k]> (Heap.Kernels h))).

(** The PTX kernel [subkernel_it->second.subkernel] points to, for the
    subkernel [id] of the kernel at [kernel]. *)
Definition read_subkernelPtx (kernel : ptr) (id : SubkernelId)
  : M PTXKernel.t :=
  k ← read_Kernel kernel;
  deref (snd <$> find (fun entry => bool_decide (entry.1 = id))
                   (DynamicMulticoreKernel.subkernels k))
    "subkernelPtx".

Definition write_subkernelPtx (kernel : ptr) (id : SubkernelId)
    (ptx : PTXKernel.t) : M unit :=
  k ← read_Kernel kernel;
  write_Kernel kernel
    (DynamicMulticoreKernel.mk (DynamicMulticoreKernel.name k)
       (DynamicMulticoreKernel.module k)
       (map (fun entry => if bool_decide (entry.1 = id) then (id, ptx)
                          else entry)
          (DynamicMulticoreKernel.subkernels k))).

(** ** [loadModule] *)

Definition loadModule (module : Module_.t) (device : option Device.t)
  : M bool :=
  let newModule := ModuleMetadata.mk module device ∅ in
  _ ← modify (fun s =>
        set_modules s (<[Module_.name module := newModule]> (Cache.modules s)));
  mret true.

(** ** Translation of a kernel *)

(** The constructor of [TranslatedKernel].  [llvmFunction] and
    [scalarTranslation] are not among its initializers; they are null
    here. *)
Definition new_TranslatedKernel (_kernel : ptr) : M ptr :=
  kernel ← read_Kernel _kernel;
  llvmModule ← liftL (newModule backend (DynamicMulticoreKernel.name kernel));
  p ← alloc;
  _ ← write_TranslatedKernel p
        (TranslatedKernel.mk (Some llvmModule) _kernel None 0 0 None None ∅);
  mret p.

Definition optimizePTX (kernel : PTXKernel.t)
    (optimization : OptimizationLevel) : PTXKernel.t :=
  toSsa backend (ConvertPredicationToSelectPass backend kernel).

Definition getTranslatedName (kernelName : string) : string :=
  String.app "_Z_ocelotTranslated_" kernelName.

Definition generateMetadata (kernel : PTXKernel.t) (level : OptimizationLevel)
    (warpSize : Z) : M ptr :=
  metadata ← alloc;
  _ ← assertM (negb (bool_decide (level = DebugOptimization)
                     || bool_decide (level = ReportOptimization)))
        "unimplemented";
  _ ← write_Metadata metadata
        (Metadata.mk (PTXKernel.name kernel) warpSize 0 0 0 0 0 []);
  mret metadata.

(** The statements of the [try] block of [_translateKernel] that follow
    [generateMetadata], for the subkernel [id] of the kernel translated
    at [translatedKernel]. *)
Definition translateSubkernel (translatedKernel : ptr) (kernel : ptr)
    (id : SubkernelId) (metadata : ptr) : M unit :=
  s ← get;
  let members := Cache.members s in
  let optimization := Members.optimization members in
  subkernelPtx ← read_subkernelPtx kernel id;
  md ← read_Metadata metadata;
  '(subkernelPtx, md) ←
    liftR (setupPTXMemoryReferences PTXOperand_bytes subkernelPtx md
             (Members.device members));
  _ ← write_subkernelPtx kernel id subkernelPtx;
  _ ← write_Metadata metadata md;
  s ← get;
  subkernelPtx ← liftR (setupCallTargets subkernelPtx s);
  _ ← liftL (translate backend (Members.kernel members) optimization);
  tk ← read_TranslatedKernel translatedKernel;
  newModule ← liftL (ParseAssemblyString backend
                       (Members.llvmAssembly members)
                       (TranslatedKernel.llvmModule tk));
  match newModule with
  | inl message =>
      _ ← modify (fun s =>
            set_members s
              (set_kernel_member (Cache.members s)
                 (fromSsa backend (Members.kernel (Cache.members s)))));
      throw (String.app "LLVM Parser failed: " message)
  | inr _ =>
      module ← deref (Members.module members) "module";
      s ← get;
      let newSubkernel :=
        TranslatedSubkernel.mk
          (getFunction backend module
             (getTranslatedName (PTXKernel.name (Members.kernel members)))
             (Cache.llvm s))
          (Some metadata) None ∅ in
      tk ← read_TranslatedKernel translatedKernel;
      _ ← write_TranslatedKernel translatedKernel
            (TranslatedKernel.mk (TranslatedKernel.llvmModule tk)
               (TranslatedKernel.kernel tk) (TranslatedKernel.metadata tk)
               (TranslatedKernel.localMemorySize tk)
               (TranslatedKernel.sharedMemorySize tk)
               (TranslatedKernel.llvmFunction tk)
               (TranslatedKernel.scalarTranslation tk)
               (<[Members.subkernelId members := newSubkernel]>
                  (TranslatedKernel.subkernels tk)));
      _ ← (if bool_decide (optimization = ReportOptimization)
              || bool_decide (optimization = DebugOptimization)
           then
             subkernelPtx ← read_subkernelPtx kernel id;
             write_subkernelPtx kernel id (fromSsa backend subkernelPtx)
           else mret tt);
      tk ← read_TranslatedKernel translatedKernel;
      write_TranslatedKernel translatedKernel
        (TranslatedKernel.mk (TranslatedKernel.llvmModule tk)
           (TranslatedKernel.kernel tk) (Some metadata)
           (TranslatedKernel.localMemorySize tk)
           (TranslatedKernel.sharedMemorySize tk)
           (TranslatedKernel.llvmFunction tk)
           (TranslatedKernel.scalarTranslation tk)
           (TranslatedKernel.subkernels tk))
  end.

(** The body of the loop of [_translateKernel] over the subkernels.
    [generateMetadata] returns or ends the process, so the handler always
    deletes the metadata it allocated. *)
Definition translateSubkernelEntry (translatedKernel : ptr) (kernel : ptr)
    (id : SubkernelId) : M unit :=
  _ ← modify (fun s =>
        set_subkernelsToKernel s
          (<[id := translatedKernel]> (Cache.subkernelsToKernel s)));
  s ← get;
  let optimization := Members.optimization (Cache.members s) in
  subkernelPtx ← read_subkernelPtx kernel id;
  _ ← write_subkernelPtx kernel id (optimizePTX subkernelPtx optimization);
  subkernelPtx ← read_subkernelPtx kernel id;
  metadata ← generateMetadata subkernelPtx optimization 1;
  try_catch (translateSubkernel translatedKernel kernel id metadata)
    (delete_Metadata metadata).

Definition _translateKernel (translatedKernel : ptr) : M unit :=
  tk ← read_TranslatedKernel translatedKernel;
  kernel ← read_Kernel (TranslatedKernel.kernel tk);
  forM (DynamicMulticoreKernel.subkernels kernel).*1
    (translateSubkernelEntry translatedKernel (TranslatedKernel.kernel tk)).

(** ** [registerKernel] *)

Definition registerKernel (kernel : ptr) : M unit :=
  k ← read_Kernel kernel;
  s ← get;
  match Cache.modules s
          !! Module_.name (DynamicMulticoreKernel.module k) with
  | None => abort (AssertionFailed "module_it != modules.end()")
  | Some module =>
      match ModuleMetadata.kernels module
              !! DynamicMulticoreKernel.name k with
      | None =>
          translatedKernel ← new_TranslatedKernel kernel;
          tk ← read_TranslatedKernel translatedKernel;
          _ ← write_TranslatedKernel translatedKernel
                (TranslatedKernel.mk (TranslatedKernel.llvmModule tk)
                   (TranslatedKernel.kernel tk) (TranslatedKernel.metadata tk)
                   0 0
                   (TranslatedKernel.llvmFunction tk)
                   (TranslatedKernel.scalarTranslation tk)
                   (TranslatedKernel.subkernels tk));
          _ ← modify (fun s =>
                set_kernels s
                  (<[kernel := translatedKernel]> (Cache.kernels s)));
          _translateKernel translatedKernel
      | Some _ => mret tt
      end
  end.

(** ** Specialization *)

Definition set_Translation_llvmFunction (t : Translation.t)
    (f : option FunctionRef) : Translation.t :=
  Translation.mk f (Translation.function t) (Translation.metadata t)
    (Translation.warpSize t).

Definition set_Translation_function (t : Translation.t) (f : option N)
  : Translation.t :=
  Translation.mk (Translation.llvmFunction t) f (Translation.metadata t)
    (Translation.warpSize t).

Definition set_Translation_metadata (t : Translation.t) (m : option ptr)
  : Translation.t :=
  Translation.mk (Translation.llvmFunction t) (Translation.function t) m
    (Translation.warpSize t).

(** The [switch] of [cloneAndOptimizeTranslation]: [level] and [space]. *)
Definition optimizationSwitch (optimization : OptimizationLevel) : N * bool :=
  match optimization with
  | BasicOptimization => (1, false)
  | AggressiveOptimization => (2, false)
  | SpaceOptimization => (2, true)
  | FullOptimization => (3, false)
  | _ => (0, false)
  end.

(** The passes added to the manager for [level] and [space]. *)
Definition passesFor (level : N) (space : bool) : list Pass :=
  TargetData ::
  (if level =? 0 then []
   else if level =? 1 then
     [InstructionCombining; Reassociate; GVN; CFGSimplification]
   else
     [SimplifyLibCalls; InstructionCombining; JumpThreading;
      CFGSimplification; ScalarReplAggregates; InstructionCombining;
      TailCallElimination; CFGSimplification; Reassociate; LoopRotate; LICM;
      LoopUnswitch (space || (level <? 3)); InstructionCombining;
      IndVarSimplify; LoopDeletion]
     ++ (if 2 <? level then [LoopUnroll] else [])
     ++ [InstructionCombining; GVN; MemCpyOpt; SCCP; InstructionCombining;
         DeadStoreElimination; AggressiveDCE; CFGSimplification]).

(** When the verifier reports errors the source runs [assert(0)]; the
    statements after it, which delete the module and throw, are not
    reached. *)
Definition cloneAndOptimizeTranslation (translatedKernel : ptr)
    (translation : ptr) (optimization : OptimizationLevel) (warpSize : Z)
  : M unit :=
  let '(level, space) := optimizationSwitch optimization in
  tk ← read_TranslatedKernel translatedKernel;
  scalarTranslation ← deref (TranslatedKernel.scalarTranslation tk)
                        "scalarTranslation";
  s ← get;
  let ss :=
    String.app (getNameStr backend scalarTranslation (Cache.llvm s))
      (String.app "_opt"
         (String.app (pretty level) (String.app "_ws" (pretty warpSize)))) in
  llvmFunction ← deref (TranslatedKernel.llvmFunction tk) "llvmFunction";
  clone ← liftL (CloneFunction backend llvmFunction);
  t ← read_Translation translation;
  _ ← write_Translation translation
        (set_Translation_llvmFunction t (Some clone));
  llvmModule ← deref (TranslatedKernel.llvmModule tk) "llvmModule";
  _ ← liftL (addFunction backend llvmModule clone ss);
  let level := 1 in
  _ ← liftL (runPasses backend llvmModule (passesFor level space) clone);
  verifyError ← liftL (verifyModule backend llvmModule);
  match verifyError with
  | Some _ => abort (AssertionFailed "quitting")
  | None => mret tt
  end.

(** The body of the loop of [linkLLVMModule] over the globals. *)
Definition linkGlobal (module : ModuleRef) (kernel : PTXKernel.t)
    (device : option Device.t) (global : string * PTXStatement.t) : M unit :=
  if bool_decide (PTXStatement.directive global.2 = Directive_Global) then
    match device with
    | None => abort (AssertionFailed "device != 0")
    | Some device =>
        s ← get;
        match getNamedValue backend module global.1 (Cache.llvm s) with
        | None =>
            abort (AssertionFailed "Global variable not found in llvm module.")
        | Some value =>
            match Device.getGlobalAllocation device
                    (Module_.path (PTXKernel.module kernel)) global.1 with
            | None => abort (AssertionFailed "allocation != 0")
            | Some pointer =>
                liftL (addGlobalMapping backend value pointer)
            end
        end
    end
  else mret tt.

Definition linkLLVMModule (module : ModuleRef) (kernel : PTXKernel.t)
    (device : option Device.t) : M unit :=
  forM (Module_.globals (PTXKernel.module kernel))
    (linkGlobal module kernel device).

(** [translatedKernel.subkernels[subkernelId]]: the entry, created when it
    is missing. *)
Definition subkernelEntry (tk : TranslatedKernel.t) (subkernelId : SubkernelId)
  : TranslatedSubkernel.t :=
  default (TranslatedSubkernel.mk None None None ∅)
    (TranslatedKernel.subkernels tk !! subkernelId).

Definition write_subkernelEntry (translatedKernel : ptr)
    (subkernelId : SubkernelId) (subkernel : TranslatedSubkernel.t)
  : M unit :=
  tk ← read_TranslatedKernel translatedKernel;
  write_TranslatedKernel translatedKernel
    (TranslatedKernel.mk (TranslatedKernel.llvmModule tk)
       (TranslatedKernel.kernel tk) (TranslatedKernel.metadata tk)
       (TranslatedKernel.localMemorySize tk)
       (TranslatedKernel.sharedMemorySize tk)
       (TranslatedKernel.llvmFunction tk)
       (TranslatedKernel.scalarTranslation tk)
       (<[subkernelId := subkernel]> (TranslatedKernel.subkernels tk))).

(** [translationCache[key][warpSize] = translation] *)
Definition publish (key : SubkernelId) (warpSize : Z) (translation : ptr)
    (cache : gmap SubkernelId (gmap Z ptr)) : gmap SubkernelId (gmap Z ptr) :=
  <[key := <[warpSize := translation]> (default ∅ (cache !! key))]> cache.

(** The [try] block of [_specializeTranslation]. *)
Definition specialize (translatedKernel : ptr) (subkernelId : SubkernelId)
    (warpSize : Z) (translation : ptr) : M unit :=
  s ← get;
  let members := Cache.members s in
  t ← read_Translation translation;
  _ ← cloneAndOptimizeTranslation translatedKernel translation
        (Members.optimization members) (Translation.warpSize t);
  tk ← read_TranslatedKernel translatedKernel;
  _ ← liftL (addModule backend (TranslatedKernel.llvmModule tk));
  llvmModule ← deref (TranslatedKernel.llvmModule tk) "llvmModule";
  kernel ← deref (TranslatedSubkernel.subkernel (subkernelEntry tk subkernelId))
             "subkernel.subkernel";
  _ ← linkLLVMModule llvmModule kernel (Members.device members);
  t ← read_Translation translation;
  _ ← assertM (bool_decide (is_Some (Translation.llvmFunction t)))
        "Could not find function ";
  llvmFunction ← deref (Translation.llvmFunction t) "llvmFunction";
  function ← liftL (getPointerToFunction backend llvmFunction);
  _ ← write_Translation translation (set_Translation_function t function);
  (* the errors are printed and otherwise ignored *)
  errors ← liftL (verifyModule backend llvmModule);
  tk ← read_TranslatedKernel translatedKernel;
  let subkernel := subkernelEntry tk subkernelId in
  _ ← write_subkernelEntry translatedKernel subkernelId
        (TranslatedSubkernel.mk (TranslatedSubkernel.llvmFunction subkernel)
           (TranslatedSubkernel.metadata subkernel)
           (TranslatedSubkernel.subkernel subkernel)
           (<[warpSize := translation]>
              (TranslatedSubkernel.translations subkernel)));
  modify (fun s =>
    set_translationCache s
      (publish (Members.subkernelid (Cache.members s)) warpSize translation
         (Cache.translationCache s))).

(** [new Translation] leaves [metadata] and [warpSize] unwritten; the first
    is assigned next, the second is read as it is. *)
Definition _specializeTranslation (translatedKernel : ptr)
    (subkernelId : SubkernelId) (optimizationLevel : OptimizationLevel)
    (warpSize : Z) (specialization : N) : M ptr :=
  tk ← read_TranslatedKernel translatedKernel;
  let subkernel := subkernelEntry tk subkernelId in
  _ ← write_subkernelEntry translatedKernel subkernelId subkernel;
  translation ← alloc;
  s ← get;
  _ ← write_Translation translation
        (Translation.mk None None (TranslatedSubkernel.metadata subkernel)
           (Heap.indeterminate (Cache.heap s)));
  _ ← try_catch
        (specialize translatedKernel subkernelId warpSize translation)
        (tk ← read_TranslatedKernel translatedKernel;
         _ ← modify (fun s =>
               set_llvm s
                 (removeModule backend (TranslatedKernel.llvmModule tk)
                    (Cache.llvm s)));
         delete_Translation translation);
  mret translation.

(** ** [getOrInsertTranslation] *)

(** The miss path passes the members [optimizationLevel] and [warpSize],
    not the parameter [warpsize]. *)
Definition getOrInsertTranslation (warpsize : Z) (subkernelId : SubkernelId)
    (specialization : N) : M ptr :=
  s ← get;
  let translation :=
    Cache.translationCache s !! subkernelId ≫= (fun warps => warps !! warpsize)
  in
  match translation with
  | Some translation => mret translation
  | None =>
      translatedKernel ←
        deref (Cache.subkernelsToKernel s !! subkernelId)
          "subkernelsToKernel[subkernelId]";
      _specializeTranslation translatedKernel subkernelId
        (Members.optimizationLevel (Cache.members s))
        (Members.warpSize (Cache.members s)) specialization
  end.

End Operations.

Arguments forM {LLVM A} l body.

(** * Statements *)

(** The instruction at a position of a control flow graph. *)
Definition instruction_at (cfg : list (list PTXInstruction)) (bi ii : nat)
  : option PTXInstruction :=
  cfg !! bi ≫= (fun block => block !! ii).

(** ** Argument memory *)

(** The sum of the padded sizes: each argument counts for the padding put
    before it and for its size. *)
Definition padded_sum (paddings : list N) (arguments : list Parameter_.t)
  : N :=
  foldr N.add 0
    (zip_with (fun p argument => p + Parameter_.getSize argument)
       paddings arguments).

(** The arguments are placed one after the other, each after the smallest
    padding that aligns it, and [offsets] records where: [paddings] are the
    paddings, [size] the offset after the last argument.  An argument whose
    name was already taken by an earlier one keeps no entry of its own. *)
Definition sequential_layout (arguments : list Parameter_.t)
    (paddings : list N) (offsets : gmap string N) (size : N) : Prop :=
  length paddings = length arguments ∧
  size = wrap32 (padded_sum paddings arguments) ∧
  ∀ (i : nat) argument p,
    arguments !! i = Some argument →
    paddings !! i = Some p →
    let start :=
      wrap32 (padded_sum (take i paddings) (take i arguments)) in
    p < Parameter_.getAlignment argument ∧
    (start + p) mod Parameter_.getAlignment argument = 0 ∧
    (Parameter_.name argument ∉ Parameter_.name <$> take i arguments →
     offsets !! Parameter_.name argument = Some (wrap32 (start + p))).

(** Every [Address] operand of an instruction that satisfies [guard] and
    whose identifier has an entry in [offsets] has, in [cfg'], the offset
    of the entry added to its own and the argument flag set. *)
Definition argument_operands_rewritten (guard : PTXInstruction -> Prop)
    (offsets : gmap string N) (cfg cfg' : list (list PTXInstruction))
  : Prop :=
  ∀ (bi ii i : nat) ptx declared,
    instruction_at cfg bi ii = Some ptx →
    guard ptx →
    (i < 4)%nat →
    addressMode (get_operand i ptx) = Address →
    offsets !! identifier (get_operand i ptx) = Some declared →
    ∃ ptx',
      instruction_at cfg' bi ii = Some ptx' ∧
      offset (get_operand i ptx')
        = wrap32 (declared + offset (get_operand i ptx)) ∧
      isArgument (get_operand i ptx') = true.

(** The argument pass returns, with a layout and a rewriting of the
    operands of the instructions that satisfy [guard]. *)
Definition argument_pass_spec (guard : PTXInstruction -> Prop)
    (kernel : PTXKernel.t) (metadata : Metadata.t) : Prop :=
  ∃ kernel' metadata' offsets paddings,
    setupArgumentMemoryReferences kernel metadata = Ok (kernel', metadata') ∧
    sequential_layout (PTXKernel.arguments kernel) paddings offsets
      (Metadata.argumentSize metadata') ∧
    argument_operands_rewritten guard offsets (PTXKernel.cfg kernel)
      (PTXKernel.cfg kernel') ∧
    (∀ int double,
       PTXKernel.arguments kernel
         = [Parameter_.mk int 4 4; Parameter_.mk double 8 8] →
       int ≠ double →
       offsets !! int = Some 0 ∧ offsets !! double = Some 8 ∧
       Metadata.argumentSize metadata' = 16).

Definition emptyOperand : PTXOperand :=
  mkOperand Invalid "" 0 false TypeSpecifier_invalid 0 [].

Definition addressOperand (name : string) (offset : N) : PTXOperand :=
  mkOperand Address name offset false u32 0 [].

Definition emptyModule : Module_.t := Module_.mk "module" "module.ptx" [] [].

Definition emptyMetadata : Metadata.t := Metadata.mk "kernel" 1 0 0 0 0 0 [].

(** A kernel with an [int] and a [double] argument; it loads the second and
    takes its address with [cvta]. *)
Definition int_double_kernel : PTXKernel.t :=
  PTXKernel.mk "kernel" emptyModule
    [Parameter_.mk "i" 4 4; Parameter_.mk "x" 8 8] []
    [[mkInstruction Ld emptyOperand (addressOperand "x" 0) emptyOperand
        emptyOperand Param false;
      mkInstruction Cvta emptyOperand (addressOperand "x" 0) emptyOperand
        emptyOperand Param false]].

(** ** Parameter memory *)

Definition ASSERT_COUNT : string := "offsets.count(argument->identifier) == 0".

(** The identifiers are pairwise distinct and none has an offset yet. *)
Definition insertable (identifiers : list string) (offsets : gmap string N)
  : Prop :=
  NoDup identifiers ∧ ∀ k, k ∈ identifiers → offsets !! k = None.

(** The padding that brings [offset] to a multiple of [alignment]. *)
Definition padding_for (offset alignment : N) : N :=
  (alignment - offset mod alignment) mod alignment.

(** Sequential packing of entries given by alignment and size, from
    [offset] on: the offset after the last entry. *)
Fixpoint packed_end (entries : list (N * N)) (offset : N) : N :=
  match entries with
  | [] => offset
  | (alignment, size) :: rest =>
      packed_end rest
        (wrap32 (wrap32 (offset + padding_for offset alignment) + size))
  end.

(** Packing of entries that are padded to their own size. *)
Definition packed_size (widths : list N) : N :=
  packed_end ((fun width => (width, width)) <$> widths) 0.

Definition max_list (l : list N) : N := foldr N.max 0 l.

Section ParameterStatements.

Variable PTXOperand_bytes : DataType -> N.

Definition operand_width (argument : PTXOperand) : N :=
  PTXOperand_bytes (type argument).

Definition operand_entry (argument : PTXOperand) : N * N :=
  (operand_width argument, operand_width argument).

(** A call site of the parameter pass: a call of anything but
    [ptx.warp.divergent]. *)
Definition is_call_site (ptx : PTXInstruction) : bool :=
  bool_decide (opcode ptx = Call)
  && negb (bool_decide (identifier (a ptx) = DIVERGENT)).

(** The operands passed at a call site: the return arguments, then the
    arguments. *)
Definition call_arguments (ptx : PTXInstruction) : list PTXOperand :=
  if is_call_site ptx then array (d ptx) ++ array (b ptx) else [].

Definition call_sites (kernel : PTXKernel.t) : list PTXInstruction :=
  filter (fun ptx => is_call_site ptx = true) (concat (PTXKernel.cfg kernel)).

(** The identifiers of the operands passed at the call sites, in order. *)
Definition call_identifiers (instructions : list PTXInstruction)
  : list string :=
  concat ((fun ptx => identifier <$> call_arguments ptx) <$> instructions).

(** The packed size of the operands passed at a call site, each padded to
    the byte width of its type. *)
Definition call_site_size (ptx : PTXInstruction) : N :=
  packed_size (operand_width <$> call_arguments ptx).

(** The functions of the module of a kernel. *)
Definition module_functions (kernel : PTXKernel.t) : list ModuleKernel.t :=
  filter (fun function => ModuleKernel.function function = true)
    (Module_.kernels (PTXKernel.module kernel)).

(** The packed size of the declared parameters of a function. *)
Definition function_size (function : ModuleKernel.t) : N :=
  packed_size (Parameter_.getSize <$> ModuleKernel.arguments function).

(** Every operand passed at a call site has a type of nonzero width. *)
Definition call_widths_nonzero (kernel : PTXKernel.t) : Prop :=
  Forall (fun ptx =>
            Forall (fun argument => operand_width argument ≠ 0)
              (call_arguments ptx))
    (concat (PTXKernel.cfg kernel)).

(** Every declared parameter of a function of the module has a nonzero
    size. *)
Definition function_sizes_nonzero (kernel : PTXKernel.t) : Prop :=
  Forall (fun function =>
            Forall (fun argument => Parameter_.getSize argument ≠ 0)
              (ModuleKernel.arguments function))
    (module_functions kernel).

(** The first loop of the parameter pass: the size over the call sites and
    the offsets of the identifiers. *)
Definition parameter_table (kernel : PTXKernel.t)
  : result (N * gmap string N) :=
  foldM (fun block st => foldM (layoutCall PTXOperand_bytes) block st)
    (PTXKernel.cfg kernel) (0, ∅).

(** What a run of the parameter pass on [kernel] does to an operand:
    an [Address] operand of a [Mov], [Ld] or [St] that names an entry of
    [offsets] has the offset of the entry added and its argument flag
    cleared, any other operand is kept. *)
Definition parameter_operands_after (offsets : gmap string N)
    (cfg cfg' : list (list PTXInstruction)) : Prop :=
  ∀ (bi ii : nat) ptx,
    instruction_at cfg bi ii = Some ptx →
    ∃ ptx',
      instruction_at cfg' bi ii = Some ptx' ∧
      ∀ i : nat, (i < 4)%nat →
        let operand := get_operand i ptx in
        match offsets !! identifier operand with
        | Some parameter =>
            if bool_decide (isMovLdSt ptx = true
                            ∧ addressMode operand = Address)
            then offset (get_operand i ptx')
                   = wrap32 (offset operand + parameter)
                 ∧ isArgument (get_operand i ptx') = false
            else get_operand i ptx' = operand
        | None => get_operand i ptx' = operand
        end.

(** C9 as stated: a second run of the pass on the result of the first
    returns what the first returned. *)
Definition parameter_pass_idempotent (kernel : PTXKernel.t)
    (metadata : Metadata.t) : Prop :=
  ∀ kernel1 metadata1,
    setupParameterMemoryReferences PTXOperand_bytes kernel metadata
      = Ok (kernel1, metadata1) →
    ∃ kernel2 metadata2,
      setupParameterMemoryReferences PTXOperand_bytes kernel1 metadata1
        = Ok (kernel2, metadata2)
      ∧ Metadata.parameterSize metadata2 = Metadata.parameterSize metadata1
      ∧ PTXKernel.cfg kernel2 = PTXKernel.cfg kernel1.

End ParameterStatements.

(** The byte widths of the scalar types of PTX. *)
Definition example_bytes (type : DataType) : N :=
  match type with
  | TypeSpecifier_invalid => 0
  | s8 | u8 | b8 | pred => 1
  | s16 | u16 | f16 | b16 => 2
  | s32 | u32 | f32 | b32 => 4
  | s64 | u64 | f64 | b64 => 8
  end.

Definition parameterOperand (name : string) (type : DataType) : PTXOperand :=
  mkOperand Address name 0 false type 0 [].

Definition argumentList (operands : list PTXOperand) : PTXOperand :=
  mkOperand ArgumentList "" 0 false TypeSpecifier_invalid 0 operands.

Definition functionName (name : string) : PTXOperand :=
  mkOperand FunctionName name 0 false TypeSpecifier_invalid 0 [].

(** A kernel that stores to the parameter [p1] and calls [f] with the
    parameters [p0] and [p1]. *)
Definition calling_kernel : PTXKernel.t :=
  PTXKernel.mk "kernel" emptyModule [] []
    [[mkInstruction St (addressOperand "p1" 0) emptyOperand emptyOperand
        emptyOperand Param false;
      mkInstruction Call (argumentList []) (functionName "f")
        (argumentList [parameterOperand "p0" u32; parameterOperand "p1" u32])
        emptyOperand AddressSpace_Invalid false]].

(** A kernel that passes the parameter [p0] at two call sites. *)
Definition calling_twice_kernel : PTXKernel.t :=
  PTXKernel.mk "kernel" emptyModule [] []
    [[mkInstruction Call (argumentList []) (functionName "f")
        (argumentList [parameterOperand "p0" u32])
        emptyOperand AddressSpace_Invalid false];
     [mkInstruction Call (argumentList []) (functionName "g")
        (argumentList [parameterOperand "p0" u32])
        emptyOperand AddressSpace_Invalid false]].

(** ** Shared memory *)

(** A declaration in shared memory, of the module or of the kernel: its
    name, whether it is external, its alignment, the byte width of its
    element type and its size. *)
Record SharedDeclaration : Type := mkSharedDeclaration {
  declared_name : string;
  declared_external : bool;
  declared_alignment : N;
  declared_width : N;
  declared_size : N;
  declared_assertion : string
}.

Section SharedStatements.

Variable PTXOperand_bytes : DataType -> N.

Definition global_declaration (global : string * PTXStatement.t)
  : option SharedDeclaration :=
  let statement := global.2 in
  if bool_decide (PTXStatement.directive statement = Directive_Shared) then
    Some (mkSharedDeclaration (PTXStatement.name statement)
            (bool_decide (PTXStatement.attribute statement = Extern))
            (PTXStatement.alignment statement)
            (PTXOperand_bytes (PTXStatement.type statement))
            (PTXStatement.bytes statement)
            "External global more than once.")
  else None.

Definition local_declaration (local : string * Local_.t)
  : option SharedDeclaration :=
  let local := local.2 in
  if bool_decide (Local_.space local = Shared) then
    Some (mkSharedDeclaration (Local_.name local)
            (bool_decide (Local_.attribute local = Extern))
            (Local_.alignment local)
            (PTXOperand_bytes (Local_.type local))
            (Local_.getSize local)
            "external.count(local->second.name) == 0")
  else None.

(** The body both declaration loops of the shared pass run on a shared
    declaration. *)
Definition layoutSharedDeclaration (declaration : SharedDeclaration)
    (st : SharedLayout) : result SharedLayout :=
  if declared_external declaration then
    _ ← assert (bool_decide (declared_name declaration ∉ shared_external st))
          (declared_assertion declaration);
    Ok (mkSharedLayout (shared_offsets st)
          ({[declared_name declaration]} ∪ shared_external st)
          (N.max (N.max (shared_externalAlignment st)
                    (declared_alignment declaration))
             (declared_width declaration))
          (shared_sharedSize st))
  else
    '(sharedSize, _) ← pad (shared_sharedSize st)
                          (declared_alignment declaration);
    Ok (mkSharedLayout
          (map_insert (declared_name declaration) sharedSize
             (shared_offsets st))
          (shared_external st) (shared_externalAlignment st)
          (wrap32 (sharedSize + declared_size declaration))).

(** The names are pairwise distinct and none is in the set yet. *)
Definition insertable_set (names : list string) (external : gset string)
  : Prop :=
  NoDup names ∧ ∀ k, k ∈ names → k ∉ external.

(** The operand is an [Address] operand that names an external entry. *)
Definition is_external (external : gset string) (operand : PTXOperand)
  : bool :=
  bool_decide (addressMode operand = Address
               ∧ identifier operand ∈ external).

(** [sharedSize] added to the offset of [operands[i]]. *)
Definition bump (sharedSize : N) (ptx : PTXInstruction) (i : nat)
  : PTXInstruction :=
  let o := get_operand i ptx in
  set_operand i (set_offset o (wrap32 (offset o + sharedSize))) ptx.

(** What the shared pass makes of an instruction: the first loop, then the
    loop over the operands it remembered. *)
Definition finalSharedInstruction (offsets : gmap string N)
    (external : gset string) (sharedSize : N) (ptx : PTXInstruction)
  : PTXInstruction :=
  let '(ptx, slots) := mapSharedInstruction offsets external ptx in
  foldl (bump sharedSize) ptx slots.

(** The shared declarations a subkernel sees: those of its module, then
    its own. *)
Definition shared_declarations (kernel : PTXKernel.t)
  : list SharedDeclaration :=
  omap global_declaration (Module_.globals (PTXKernel.module kernel))
  ++ omap local_declaration (PTXKernel.locals kernel).

Definition external_declarations (declarations : list SharedDeclaration)
  : list SharedDeclaration :=
  filter (fun declaration => declared_external declaration = true)
    declarations.

Definition packed_declarations (declarations : list SharedDeclaration)
  : list SharedDeclaration :=
  filter (fun declaration => declared_external declaration = false)
    declarations.

Definition external_names (declarations : list SharedDeclaration)
  : list string :=
  declared_name <$> external_declarations declarations.

(** The alignment of the external entries: the maximum of their declared
    alignments and element widths, and at least 1. *)
Definition external_alignment (declarations : list SharedDeclaration) : N :=
  N.max 1
    (max_list
       ((fun declaration =>
           N.max (declared_alignment declaration)
             (declared_width declaration))
          <$> external_declarations declarations)).

(** The size of the entries that are not external, packed in order. *)
Definition packed_shared_size (declarations : list SharedDeclaration) : N :=
  packed_end
    ((fun declaration =>
        (declared_alignment declaration, declared_size declaration))
       <$> packed_declarations declarations) 0.

(** Every [Address] operand that names an external entry, in an
    instruction that satisfies [guard], starts at [sharedSize] in [cfg']. *)
Definition external_operands_rewritten (guard : PTXInstruction -> Prop)
    (names : list string) (sharedSize : N)
    (cfg cfg' : list (list PTXInstruction)) : Prop :=
  ∀ (bi ii i : nat) ptx,
    instruction_at cfg bi ii = Some ptx →
    guard ptx →
    (i < 4)%nat →
    addressMode (get_operand i ptx) = Address →
    identifier (get_operand i ptx) ∈ names →
    ∃ ptx',
      instruction_at cfg' bi ii = Some ptx' ∧
      offset (get_operand i ptx')
        = wrap32 (offset (get_operand i ptx) + sharedSize).

(** The shared pass returns; the size of the region is the packed size of
    the entries that are not external, padded to the external alignment;
    it is a multiple of that alignment unless the padding overflows 32
    bits; and the operands that name external entries, in the
    instructions that satisfy [guard], start at that size. *)
Definition shared_pass_spec (guard : PTXInstruction -> Prop)
    (kernel : PTXKernel.t) (metadata : Metadata.t) : Prop :=
  let declarations := shared_declarations kernel in
  let packed := packed_shared_size declarations in
  let alignment := external_alignment declarations in
  ∃ kernel' metadata',
    setupSharedMemoryReferences PTXOperand_bytes kernel metadata
      = Ok (kernel', metadata') ∧
    Metadata.sharedSize metadata'
      = wrap32 (packed + padding_for packed alignment) ∧
    (packed + padding_for packed alignment < 2 ^ 32 →
     Metadata.sharedSize metadata' mod alignment = 0) ∧
    external_operands_rewritten guard (external_names declarations)
      (Metadata.sharedSize metadata') (PTXKernel.cfg kernel)
      (PTXKernel.cfg kernel').

(** The entries that are packed have nonzero alignments. *)
Definition shared_alignments_nonzero (kernel : PTXKernel.t) : Prop :=
  Forall (fun declaration => declared_alignment declaration ≠ 0)
    (packed_declarations (shared_declarations kernel)).

End SharedStatements.

(** A kernel with a shared array [tile] of 4 bytes and an external shared
    array [dynamic]; it loads from [dynamic] and updates it atomically. *)
Definition shared_kernel : PTXKernel.t :=
  PTXKernel.mk "kernel" emptyModule []
    [("dynamic", Local_.mk "dynamic" Shared Extern 4 u32 0);
     ("tile", Local_.mk "tile" Shared NoAttribute 4 u32 4)]
    [[mkInstruction Ld emptyOperand (addressOperand "dynamic" 0) emptyOperand
        emptyOperand Shared false;
      mkInstruction Atom emptyOperand (addressOperand "dynamic" 0)
        emptyOperand emptyOperand Shared false]].

(** A kernel whose module and whose locals both declare the external
    shared array [dynamic]. *)
Definition shared_twice_kernel : PTXKernel.t :=
  PTXKernel.mk "kernel"
    (Module_.mk "module" "module.ptx"
       [("dynamic",
         PTXStatement.mk "dynamic" Directive_Shared Extern 4 u32 0)] [])
    []
    [("dynamic", Local_.mk "dynamic" Shared Extern 4 u32 0)]
    [].

(** ** Local memory *)

(** A reserved word, as a local variable: one [int], aligned to its size. *)
Definition reserved_word (name : string) : Local_.t :=
  Local_.mk name Local NoAttribute sizeof_int s32 sizeof_int.

Definition reserved_names : list string :=
  [BARRIER_NEXT_KERNEL; SPILL_AREA; RESUME_POINT; RESUME_STATUS].

(** The local variable of the given name, when the subkernel declares one
    in the local space. *)
Definition named_local (name : string) (locals : list (string * Local_.t))
  : list Local_.t :=
  match map_find name locals with
  | Some local =>
      if bool_decide (Local_.space local = Local) then [local] else []
  | None => []
  end.

(** The local variables in the local space, the four reserved names
    set aside. *)
Definition ordinary_locals (locals : list (string * Local_.t))
  : list Local_.t :=
  snd <$> filter (fun local => (fst local ∉ reserved_names)
                               ∧ Local_.space (snd local) = Local) locals.

(** The order of local memory: the barrier resume slot when there is one,
    the resume status, the resume point, the ordinary locals, and the
    spill area when there is one. *)
Definition local_order (locals : list (string * Local_.t)) : list Local_.t :=
  named_local BARRIER_NEXT_KERNEL locals
  ++ [reserved_word RESUME_STATUS; reserved_word RESUME_POINT]
  ++ ordinary_locals locals
  ++ named_local SPILL_AREA locals.

(** A bound on the room a list of variables takes. *)
Definition local_extent (variables : list Local_.t) : N :=
  foldr N.add 0
    ((fun local => Local_.alignment local + Local_.getSize local)
       <$> variables).

(** [placements] are the offsets of [variables], in order: each variable
    is aligned and lies below the next, the first is at [start] once
    aligned, and all lie below [size]; [offsets] maps each name to its
    offset. *)
Definition placed_in_order (variables : list Local_.t) (placements : list N)
    (offsets : gmap string N) (start size : N) : Prop :=
  length placements = length variables ∧
  (∀ local off,
     variables !! 0%nat = Some local → placements !! 0%nat = Some off →
     off = start + padding_for start (Local_.alignment local)) ∧
  (∀ (i : nat) local off,
     variables !! i = Some local → placements !! i = Some off →
     offsets !! Local_.name local = Some off ∧
     off mod Local_.alignment local = 0 ∧
     start ≤ off ∧ off + Local_.getSize local ≤ size) ∧
  (∀ (i j : nat) local off off',
     (i < j)%nat →
     variables !! i = Some local → placements !! i = Some off →
     placements !! j = Some off' →
     off + Local_.getSize local ≤ off').

(** The locals are keyed by their names, each name once, as in a map. *)
Definition keyed_by_name (locals : list (string * Local_.t)) : Prop :=
  Forall (fun local => Local_.name (snd local) = fst local) locals
  ∧ NoDup (fst <$> locals).

(** The local pass returns with the variables of [local_order] placed in
    that order from offset 0 on, and [localSize] the size it found. *)
Definition local_pass_spec (kernel : PTXKernel.t) (metadata : Metadata.t)
  : Prop :=
  ∃ kernel' metadata' offsets placements,
    setupLocalMemoryReferences kernel metadata = Ok (kernel', metadata') ∧
    layoutLocals (PTXKernel.locals kernel)
      = Ok (Metadata.localSize metadata', offsets) ∧
    placed_in_order (local_order (PTXKernel.locals kernel)) placements
      offsets 0 (Metadata.localSize metadata').

(** A kernel with a barrier resume slot, a spill area and two ordinary
    local variables. *)
Definition local_kernel : PTXKernel.t :=
  PTXKernel.mk "kernel" emptyModule []
    [("_Zocelot_barrier_next_kernel",
      Local_.mk "_Zocelot_barrier_next_kernel" Local NoAttribute 4 u32 4);
     ("_Zocelot_spill_area",
      Local_.mk "_Zocelot_spill_area" Local NoAttribute 8 b8 64);
     ("buffer", Local_.mk "buffer" Local NoAttribute 8 f64 16);
     ("counter", Local_.mk "counter" Local NoAttribute 4 u32 4);
     ("tile", Local_.mk "tile" Shared NoAttribute 4 u32 4)]
    [].

(** ** The translation cache *)

Section CacheStatements.

Context {LLVM : Type}.

(** The translation the cache holds for a subkernel and a warp size. *)
Definition cached (s : Cache.t LLVM) (subkernelId : SubkernelId)
    (warpSize : Z) : option ptr :=
  Cache.translationCache s !! subkernelId ≫= (fun warps => warps !! warpSize).

(** The translation the table of a translated subkernel holds for a warp
    size. *)
Definition specialized (s : Cache.t LLVM) (translatedKernel : ptr)
    (subkernelId : SubkernelId) (warpSize : Z) : option ptr :=
  tk ← Heap.TranslatedKernels (Cache.heap s) !! translatedKernel;
  subkernel ← TranslatedKernel.subkernels tk !! subkernelId;
  TranslatedSubkernel.translations subkernel !! warpSize.

(** The two specialization tables hold the same translations. *)
Definition same_tables (s s' : Cache.t LLVM) : Prop :=
  (∀ subkernelId warpSize,
     cached s' subkernelId warpSize = cached s subkernelId warpSize)
  ∧ (∀ translatedKernel subkernelId warpSize,
       specialized s' translatedKernel subkernelId warpSize
       = specialized s translatedKernel subkernelId warpSize).

(** A kernel of another module can be called by name: some kernel of the
    executive has a subkernel of that name. *)
Definition names_subkernel (s : Cache.t LLVM) (name : string) : Prop :=
  ∃ kernel k entry,
    Heap.Kernels (Cache.heap s) !! kernel = Some k ∧
    entry ∈ DynamicMulticoreKernel.subkernels k ∧
    PTXKernel.name (snd entry) = name.

End CacheStatements.

(** A call the call-target pass does not accept: a [Call] or [Mov] that is
    not a tail call and whose operand [a] is a function name other than
    [ptx.warp.divergent]. *)
Definition unsupported_call (ptx : PTXInstruction) : bool :=
  (bool_decide (opcode ptx = Call) || bool_decide (opcode ptx = Mov))
  && negb (tailCall ptx)
  && bool_decide (addressMode (a ptx) = FunctionName)
  && negb (bool_decide (identifier (a ptx) = DIVERGENT)).

(** An instruction the call-target pass passes over: a tail call, a call
    of [ptx.warp.divergent], an instruction whose operand [a] is no
    function name, or one that is neither a [Call] nor a [Mov]. *)
Definition passed_over (ptx : PTXInstruction) : Prop :=
  tailCall ptx = true
  ∨ identifier (a ptx) = DIVERGENT
  ∨ addressMode (a ptx) ≠ FunctionName
  ∨ (opcode ptx ≠ Call ∧ opcode ptx ≠ Mov).

(** C8 as stated, for one kernel: calls of other subkernels by name are
    resolved, not refused. *)
Definition calls_resolved {LLVM : Type} (kernel : PTXKernel.t)
    (s : Cache.t LLVM) : Prop :=
  (∀ ptx, ptx ∈ concat (PTXKernel.cfg kernel) →
          unsupported_call ptx = true →
          names_subkernel s (identifier (a ptx))) →
  ∃ kernel', setupCallTargets kernel s = Ok kernel'.

(** ** A backend for the examples *)

(** The state of the example backend: the number of calls of [translate],
    the next handle, and whether a function was compiled by the JIT. *)
Record ExampleLLVM : Type := mkExampleLLVM {
  translate_calls : N;
  next_handle : N;
  jitted : bool
}.

(** How the example backend fails: not at all, by a module that the
    verifier refuses once a function was compiled, or by an exception of
    the JIT. *)
Inductive ExampleMode : Type := Sound | BrokenAfterJit | JitThrows.

Definition example_backend (mode : ExampleMode) : Backend ExampleLLVM :=
  mkBackend
    (fun kernel => kernel) (fun kernel => kernel) (fun kernel => kernel)
    (fun _ l =>
       Return (next_handle l)
         (mkExampleLLVM (translate_calls l) (next_handle l + 1) (jitted l)))
    (fun _ _ l =>
       Return tt
         (mkExampleLLVM (translate_calls l + 1) (next_handle l) (jitted l)))
    (fun _ module l => Return (inr (default 0 module)) l)
    (fun _ _ _ => Some 1)
    (fun _ _ => "_Z_ocelotTranslated_kernel")
    (fun _ l =>
       Return (next_handle l)
         (mkExampleLLVM (translate_calls l) (next_handle l + 1) (jitted l)))
    (fun _ _ _ l => Return tt l)
    (fun _ _ _ l => Return tt l)
    (fun _ l =>
       match mode with
       | BrokenAfterJit =>
           Return (if jitted l then Some "broken module" else None) l
       | _ => Return None l
       end)
    (fun _ l => l)
    (fun _ l => Return tt l)
    (fun _ l => l)
    (fun _ _ _ => Some 0)
    (fun _ _ l => Return tt l)
    (fun function l =>
       match mode with
       | JitThrows => Throw "JIT failed" l
       | _ =>
           Return (Some (function + 4096))
             (mkExampleLLVM (translate_calls l) (next_handle l) true)
       end).

Definition example_device : Device.t :=
  Device.mk (fun _ _ => Some 0) (fun _ _ => Some 0).

(** A subkernel that passes an argument on and calls the subkernel
    [callee] by name. *)
Definition example_subkernel : PTXKernel.t :=
  PTXKernel.mk "subkernel" emptyModule [Parameter_.mk "n" 4 4] []
    [[mkInstruction Ld emptyOperand (addressOperand "n" 0) emptyOperand
        emptyOperand Param false]].

Definition callee_subkernel : PTXKernel.t :=
  PTXKernel.mk "callee" emptyModule [] [] [].

Definition caller_subkernel : PTXKernel.t :=
  PTXKernel.mk "caller" emptyModule [] []
    [[mkInstruction Call (argumentList []) (functionName "callee")
        (argumentList []) emptyOperand AddressSpace_Invalid false]].

Definition example_kernel : DynamicMulticoreKernel.t :=
  DynamicMulticoreKernel.mk "kernel" emptyModule
    [(7, example_subkernel); (8, callee_subkernel)].

Definition example_members : Members.t :=
  Members.mk BasicOptimization BasicOptimization 1 (Some example_device)
    7 7 example_subkernel (Some 0) "".

(** A cache that holds nothing; the executive owns [example_kernel] at
    address 50. *)
Definition empty_cache : Cache.t ExampleLLVM :=
  Cache.mk ∅ ∅ ∅ ∅ example_members
    (Heap.mk 100 0 ∅ ∅ ∅ {[50 := example_kernel]})
    (mkExampleLLVM 0 0 false).

(** A cache in which the kernel at address 50 is translated, at address
    60, with the base translation of its subkernel 7, and nothing is
    specialized yet.  The member [warpSize] is 1. *)
Definition translated_cache : Cache.t ExampleLLVM :=
  Cache.mk
    {[ "module" := ModuleMetadata.mk emptyModule (Some example_device) ∅ ]}
    {[ 50 := 60 ]}
    {[ 7 := 60 ]}
    ∅
    example_members
    (Heap.mk 100 0
       {[ 60 :=
            TranslatedKernel.mk (Some 0) 50 (Some 70) 0 0 (Some 1) (Some 1)
              {[ 7 := TranslatedSubkernel.mk (Some 1) (Some 70)
                        (Some example_subkernel) ∅ ]} ]}
       ∅
       {[ 70 := Metadata.mk "subkernel" 1 4 0 0 0 8 [] ]}
       {[ 50 := example_kernel ]})
    (mkExampleLLVM 1 2 false).

(** ** Relations between the states of an operation *)

Section Preservation.

Context {LLVM : Type}.

Variable R : Cache.t LLVM -> Cache.t LLVM -> Prop.

(** The state an operation returns or throws with is related to the state
    it started from. *)
Definition preserves {A : Type} (m : @M LLVM A) : Prop :=
  ∀ s,
    match m s with
    | Return _ s' => R s s'
    | Throw _ s' => R s s'
    | Abort _ => True
    end.

(** The state an operation throws with is related to the state it started
    from. *)
Definition preserves_on_throw {A : Type} (m : @M LLVM A) : Prop :=
  ∀ s message s', m s = Throw message s' → R s s'.

(** The operation does not throw. *)
Definition never_throws {A : Type} (m : @M LLVM A) : Prop :=
  ∀ s message s', m s ≠ Throw message s'.

End Preservation.

(** The registry of modules is the same in both states. *)
Definition same_modules {LLVM : Type} (s s' : Cache.t LLVM) : Prop :=
  Cache.modules s' = Cache.modules s.

(** * Further statements *)

(** ** The registries of the cache *)

(** The registries, the members and the objects the layout passes wrote
    are the same in both states: the modules, the translated kernel of
    each kernel, the kernel of each subkernel, the metadata and the PTX
    kernels. *)
Definition same_registries {LLVM : Type} (s s' : Cache.t LLVM) : Prop :=
  Cache.modules s' = Cache.modules s
  ∧ Cache.kernels s' = Cache.kernels s
  ∧ Cache.subkernelsToKernel s' = Cache.subkernelsToKernel s
  ∧ Cache.members s' = Cache.members s
  ∧ Heap.Metadatas (Cache.heap s') = Heap.Metadatas (Cache.heap s)
  ∧ Heap.Kernels (Cache.heap s') = Heap.Kernels (Cache.heap s).

(** What a registration leaves alone: the modules and the cache of
    translations. *)
Definition registration_frame {LLVM : Type} (s s' : Cache.t LLVM) : Prop :=
  Cache.modules s' = Cache.modules s
  ∧ Cache.translationCache s' = Cache.translationCache s.

(** ** The pipeline of passes *)

(** The passes the manager runs at level 1. *)
Definition light_pipeline : list Pass :=
  [TargetData; InstructionCombining; Reassociate; GVN; CFGSimplification].

(** A backend whose pass manager is replaced. *)
Definition with_runPasses {LLVM : Type} (backend : Backend LLVM)
    (run : ModuleRef -> list Pass -> FunctionRef -> LLVM -> outcome LLVM unit)
  : Backend LLVM :=
  mkBackend (ConvertPredicationToSelectPass backend) (toSsa backend)
    (fromSsa backend) (newModule backend) (translate backend)
    (ParseAssemblyString backend) (getFunction backend) (getNameStr backend)
    (CloneFunction backend) (addFunction backend) run (verifyModule backend)
    (deleteModule backend) (addModule backend) (removeModule backend)
    (getNamedValue backend) (addGlobalMapping backend)
    (getPointerToFunction backend).

(** A pass manager that runs the light pipeline and throws for any
    other. *)
Definition light_only {LLVM : Type} (module : ModuleRef) (passes : list Pass)
    (function : FunctionRef) (l : LLVM) : outcome LLVM unit :=
  match passes with
  | [TargetData; InstructionCombining; Reassociate; GVN; CFGSimplification] =>
      Return tt l
  | _ => Throw "not the light pipeline" l
  end.

(** [translated_cache] with the member [optimization] set. *)
Definition translated_cache_at (optimization : OptimizationLevel)
  : Cache.t ExampleLLVM :=
  set_members translated_cache
    (Members.mk BasicOptimization optimization 1 (Some example_device)
       7 7 example_subkernel (Some 0) "").

(** ** Relocation of operands *)

(** The entry of a table that an operand in address mode names. *)
Definition entry_of (offsets : gmap string N) (operand : PTXOperand)
  : option N :=
  if decide (addressMode operand = Address)
  then offsets !! identifier operand
  else None.

(** The operand with the entry it names added to its offset. *)
Definition relocated (offsets : gmap string N) (operand : PTXOperand)
  : PTXOperand :=
  match entry_of offsets operand with
  | Some entry => set_offset operand (wrap32 (offset operand + entry))
  | None => operand
  end.

(** One of the four operands names an entry. *)
Definition names_entry (offsets : gmap string N) (ptx : PTXInstruction)
  : bool :=
  existsb
    (fun i => bool_decide (is_Some (entry_of offsets (get_operand i ptx))))
    [0; 1; 2; 3]%nat.

(** What the constant and the local pass do to the instructions: in
    [cfg'] every [Mov], [Ld] and [St] has each operand relocated, and the
    address space [space] when one of them names an entry; every other
    instruction is the one of [cfg]. *)
Definition space_operands_rewritten (space : AddressSpace)
    (offsets : gmap string N) (cfg cfg' : list (list PTXInstruction))
  : Prop :=
  ∀ (bi ii : nat) ptx,
    instruction_at cfg bi ii = Some ptx →
    ∃ ptx',
      instruction_at cfg' bi ii = Some ptx' ∧
      opcode ptx' = opcode ptx ∧ tailCall ptx' = tailCall ptx ∧
      (isMovLdSt ptx = false → ptx' = ptx) ∧
      (isMovLdSt ptx = true →
       (∀ i : nat, (i < 4)%nat →
          get_operand i ptx' = relocated offsets (get_operand i ptx)) ∧
       addressSpace ptx'
       = if names_entry offsets ptx then space else addressSpace ptx).

(** The constants a module declares, in the order of its globals, each
    with its name, alignment and size. *)
Definition constant_parameters (module : Module_.t) : list Parameter_.t :=
  omap
    (fun global : string * PTXStatement.t =>
       if bool_decide (PTXStatement.directive global.2 = Directive_Const)
       then Some (Parameter_.mk (PTXStatement.name global.2)
                    (PTXStatement.alignment global.2)
                    (PTXStatement.bytes global.2))
       else None)
    (Module_.globals module).

(** A kernel of a module with two constants and a global; it loads from
    the second constant and stores to the global. *)
Definition constant_kernel : PTXKernel.t :=
  PTXKernel.mk "kernel"
    (Module_.mk "module" "module.ptx"
       [("scale", PTXStatement.mk "scale" Directive_Const NoAttribute 4 f32 4);
        ("result",
         PTXStatement.mk "result" Directive_Global NoAttribute 8 f64 8);
        ("table", PTXStatement.mk "table" Directive_Const NoAttribute 8 f64 64)]
       [])
    [] []
    [[mkInstruction Ld emptyOperand (addressOperand "table" 16) emptyOperand
        emptyOperand Generic false;
      mkInstruction St (addressOperand "result" 0) emptyOperand emptyOperand
        emptyOperand Generic false]].

(** [local_kernel] with a store to the resume status and a load from the
    local [counter]. *)
Definition local_access_kernel : PTXKernel.t :=
  set_cfg local_kernel
    [[mkInstruction St (addressOperand "_Zocelot_resume_status" 0)
        emptyOperand emptyOperand emptyOperand Generic false;
      mkInstruction Ld emptyOperand (addressOperand "counter" 0) emptyOperand
        emptyOperand Generic false]].

(** ** Shared operands *)

(** What the shared pass makes of an operand: an operand in address mode
    that names an external variable starts at [sharedSize]; one that names
    a packed variable is relocated by its offset; any other is kept. *)
Definition shared_relocated (offsets : gmap string N) (external : gset string)
    (sharedSize : N) (operand : PTXOperand) : PTXOperand :=
  if decide (addressMode operand = Address) then
    if decide (identifier operand ∈ external) then
      set_offset operand (wrap32 (offset operand + sharedSize))
    else
      match offsets !! identifier operand with
      | Some entry => set_offset operand (wrap32 (offset operand + entry))
      | None => operand
      end
  else operand.

(** The operand is in address mode and names a packed variable. *)
Definition names_packed (offsets : gmap string N) (external : gset string)
    (operand : PTXOperand) : bool :=
  bool_decide (addressMode operand = Address)
  && negb (bool_decide (identifier operand ∈ external))
  && bool_decide (is_Some (offsets !! identifier operand)).

(** [shared_kernel] with a store to the packed array [tile]. *)
Definition shared_access_kernel : PTXKernel.t :=
  set_cfg shared_kernel
    [[mkInstruction Ld emptyOperand (addressOperand "dynamic" 0) emptyOperand
        emptyOperand Generic false;
      mkInstruction St (addressOperand "tile" 0) emptyOperand emptyOperand
        emptyOperand Generic false]].

(** ** Textures *)

(** A kernel that samples the texture [image] twice and the texture
    [noise] once. *)
Definition texture_kernel : PTXKernel.t :=
  PTXKernel.mk "kernel" emptyModule [] []
    [[mkInstruction Tex emptyOperand (addressOperand "image" 0) emptyOperand
        emptyOperand Generic false;
      mkInstruction Tex emptyOperand (addressOperand "noise" 0) emptyOperand
        emptyOperand Generic false];
     [mkInstruction Tex emptyOperand (addressOperand "image" 0) emptyOperand
        emptyOperand Generic false]].

(** A device that knows the textures [image] and [noise]. *)
Definition texture_device : Device.t :=
  Device.mk
    (fun _ name =>
       if bool_decide (name = "image") then Some 500
       else if bool_decide (name = "noise") then Some 600 else None)
    (fun _ _ => None).

Section TextureStatements.

Variable device : option Device.t.
Variable path : string.
Variable base : list N.

(** The state of the texture pass after [n] instructions: the slots are
    the numbers below the number of symbols, one for each symbol, and the
    textures pushed are those of the symbols, each at its slot. *)
Definition texture_invariant (n : nat) (st : gmap string N * list N)
  : Prop :=
  (size st.1 ≤ n)%nat ∧
  ∃ pushed,
    st.2 = base ++ pushed ∧
    length pushed = size st.1 ∧
    (∀ name slot,
       st.1 !! name = Some slot →
       (N.to_nat slot < size st.1)%nat ∧
       ∃ dev texture,
         device = Some dev ∧
         Device.getTextureReference dev path name = Some texture ∧
         pushed !! N.to_nat slot = Some texture) ∧
    (∀ name1 name2 slot,
       st.1 !! name1 = Some slot → st.1 !! name2 = Some slot →
       name1 = name2).

(** A texture instruction has the slot of its symbol in the register of
    its operand [a]; any other instruction is kept. *)
Definition texture_rewritten (ptx ptx' : PTXInstruction)
    (st : gmap string N * list N) : Prop :=
  (opcode ptx ≠ Tex → ptx' = ptx) ∧
  (opcode ptx = Tex →
   ∃ slot,
     st.1 !! identifier (a ptx) = Some slot ∧
     ptx' = set_operand 1 (set_reg (a ptx) slot) ptx).

Definition slots_grow (st st' : gmap string N * list N) : Prop :=
  st.1 ⊆ st'.1.

End TextureStatements.

(** ** What no pass changes *)

(** An operand without its offset, its argument flag and its register. *)
Definition operand_shape (operand : PTXOperand)
  : AddressMode * string * DataType * list PTXOperand :=
  (addressMode operand, identifier operand, type operand, array operand).

(** An instruction without its address space and without the offsets,
    argument flags and registers of its operands. *)
Definition instruction_shape (ptx : PTXInstruction)
  : Opcode * bool
    * list (AddressMode * string * DataType * list PTXOperand) :=
  (opcode ptx, tailCall ptx,
   operand_shape <$> [d ptx; a ptx; b ptx; c ptx]).

Definition cfg_shape (cfg : list (list PTXInstruction))
  : list (list (Opcode * bool
                * list (AddressMode * string * DataType * list PTXOperand)))
  := map (map instruction_shape) cfg.

(** The kernels have the same name, module, arguments and locals, and
    their graphs the same shape. *)
Definition same_skeleton (kernel kernel' : PTXKernel.t) : Prop :=
  PTXKernel.name kernel' = PTXKernel.name kernel
  ∧ PTXKernel.module kernel' = PTXKernel.module kernel
  ∧ PTXKernel.arguments kernel' = PTXKernel.arguments kernel
  ∧ PTXKernel.locals kernel' = PTXKernel.locals kernel
  ∧ cfg_shape (PTXKernel.cfg kernel') = cfg_shape (PTXKernel.cfg kernel).

(** A kernel that uses an argument, a constant, a shared array, a local
    variable and a texture. *)
Definition mixed_kernel : PTXKernel.t :=
  PTXKernel.mk "kernel"
    (Module_.mk "module" "module.ptx"
       [("scale", PTXStatement.mk "scale" Directive_Const NoAttribute 4 f32 4);
        ("result",
         PTXStatement.mk "result" Directive_Global NoAttribute 8 f64 8)]
       [])
    [Parameter_.mk "n" 4 4]
    [("tile", Local_.mk "tile" Shared NoAttribute 4 u32 16);
     ("counter", Local_.mk "counter" Local NoAttribute 4 u32 4)]
    [[mkInstruction Ld emptyOperand (addressOperand "n" 0) emptyOperand
        emptyOperand Param false;
      mkInstruction Ld emptyOperand (addressOperand "scale" 0) emptyOperand
        emptyOperand Generic false;
      mkInstruction Mov emptyOperand (addressOperand "result" 0) emptyOperand
        emptyOperand Generic false];
     [mkInstruction St (addressOperand "tile" 4) emptyOperand emptyOperand
        emptyOperand Generic false;
      mkInstruction Tex emptyOperand (addressOperand "image" 0) emptyOperand
        emptyOperand Generic false;
      mkInstruction St (addressOperand "counter" 0) emptyOperand emptyOperand
        emptyOperand Generic false]].

(** ** Postconditions *)

(** [Q] holds of the value and the state the operation returns with, when
    it returns. *)
Definition returns_with {LLVM A : Type} (m : @M LLVM A)
    (Q : A -> Cache.t LLVM -> Prop) (s : Cache.t LLVM) : Prop :=
  match m s with
  | Return a s' => Q a s'
  | _ => True
  end.

(** The states differ in the state of LLVM at most. *)
Definition only_llvm {LLVM : Type} (s s' : Cache.t LLVM) : Prop :=
  Cache.modules s' = Cache.modules s
  ∧ Cache.kernels s' = Cache.kernels s
  ∧ Cache.subkernelsToKernel s' = Cache.subkernelsToKernel s
  ∧ Cache.translationCache s' = Cache.translationCache s
  ∧ Cache.members s' = Cache.members s
  ∧ Cache.heap s' = Cache.heap s.

(** ** Registration *)

(** The kernel at [kernel] is registered in the state, with the translated
    kernel at [translatedKernel]: the registry of kernels maps the one to
    the other, every subkernel of [done] is mapped to the translated
    kernel, and the translated kernel points back to the kernel, has
    memory sizes 0 and an entry for no subkernel but [member], the value
    of the member [subkernelId]. *)
Definition registered {LLVM : Type} (kernel translatedKernel : ptr)
    (member : SubkernelId) (done : list SubkernelId) (s : Cache.t LLVM)
  : Prop :=
  Cache.kernels s !! kernel = Some translatedKernel ∧
  Members.subkernelId (Cache.members s) = member ∧
  (∀ id, id ∈ done →
         Cache.subkernelsToKernel s !! id = Some translatedKernel) ∧
  ∃ tk,
    Heap.TranslatedKernels (Cache.heap s) !! translatedKernel = Some tk ∧
    TranslatedKernel.kernel tk = kernel ∧
    TranslatedKernel.localMemorySize tk = 0 ∧
    TranslatedKernel.sharedMemorySize tk = 0 ∧
    ∀ id, is_Some (TranslatedKernel.subkernels tk !! id) → id = member.

(** [empty_cache] after the module of [example_kernel] is loaded. *)
Definition loaded_cache : Cache.t ExampleLLVM :=
  set_modules empty_cache
    {[ "module" := ModuleMetadata.mk emptyModule (Some example_device) ∅ ]}.

(** ** Linking *)

(** The globals of the module of a kernel that are declared with the
    directive [.global]. *)
Definition global_variables (kernel : PTXKernel.t)
  : list (string * PTXStatement.t) :=
  filter (fun global => PTXStatement.directive global.2 = Directive_Global)
    (Module_.globals (PTXKernel.module kernel)).

(** ** The passes together *)

(** What the shared pass adds to the offset of an operand: [sharedSize]
    for an operand in address mode that names an external variable, the
    offset of the variable for one that names a packed variable. *)
Definition shared_entry (offsets : gmap string N) (external : gset string)
    (sharedSize : N) (operand : PTXOperand) : option N :=
  if decide (addressMode operand = Address) then
    if decide (identifier operand ∈ external) then Some sharedSize
    else offsets !! identifier operand
  else None.

(** The tables the passes build for a kernel. *)
Record Layouts : Type := mkLayouts {
  argument_table : gmap string N;
  call_table : gmap string N;
  shared_table : SharedLayout;
  constant_table : gmap string N;
  local_table : gmap string N
}.

(** What the five passes that relocate operands add to the offset of an
    operand of a [Mov], [Ld] or [St], when [sharedSize] is the size of the
    shared region. *)
Definition relocation (layouts : Layouts) (sharedSize : N)
    (operand : PTXOperand) : N :=
  default 0 (entry_of (argument_table layouts) operand)
  + default 0 (entry_of (call_table layouts) operand)
  + default 0 (shared_entry (shared_offsets (shared_table layouts))
                 (shared_external (shared_table layouts)) sharedSize
                 operand)
  + default 0 (entry_of (constant_table layouts) operand)
  + default 0 (entry_of (local_table layouts) operand).

(** The address space the passes leave a [Mov], [Ld] or [St] in: that of
    the last pass one of whose entries an operand names. *)
Definition final_space (layouts : Layouts) (module : Module_.t)
    (ptx : PTXInstruction) : AddressSpace :=
  if names_entry (local_table layouts) ptx then Local
  else if names_entry (constant_table layouts) ptx then Const
  else if existsb
            (names_packed (shared_offsets (shared_table layouts))
               (shared_external (shared_table layouts)))
            [d ptx; a ptx; b ptx; c ptx]
  then Shared
  else addressSpace (mapGlobalInstruction module ptx).

(** The argument flag the passes leave an operand with: cleared by the
    parameter pass, set by the argument pass, in this order of
    precedence. *)
Definition final_isArgument (layouts : Layouts) (operand : PTXOperand)
  : bool :=
  match entry_of (call_table layouts) operand with
  | Some _ => false
  | None =>
      match entry_of (argument_table layouts) operand with
      | Some _ => true
      | None => isArgument operand
      end
  end.

(** ** What the operations of the cache can build *)

Section Reachability.

Context {LLVM : Type}.




Variable PTXOperand_bytes : DataType -> N.
Variable backend : Backend LLVM.


End Reachability.

(** The name [cloneAndOptimizeTranslation] gives the clone: that of the
    scalar translation, the level the [switch] found and the warp size. *)
Definition clone_name (scalarName : string)
    (optimization : OptimizationLevel) (warpSize : Z) : string :=
  String.app scalarName
    (String.app "_opt"
       (String.app (pretty (optimizationSwitch optimization).1)
          (String.app "_ws" (pretty warpSize)))).

(** [translated_cache] once [_specializeTranslation] has allocated the
    translation at address 100. *)
Definition cloning_cache : Cache.t ExampleLLVM :=
  set_heap translated_cache
    (set_Translations (Cache.heap translated_cache)
       {[ 100 := Translation.mk None None (Some 70) 0 ]}).

(** * Theorems *)

(** ** Arithmetic *)

Lemma wrap32_idemp_l (x y : N) : wrap32 (wrap32 x + y) = wrap32 (x + y).
Proof. apply N.Div0.add_mod_idemp_l. Qed.

Lemma wrap32_idemp_r (x y : N) : wrap32 (x + wrap32 y) = wrap32 (x + y).
Proof. apply N.Div0.add_mod_idemp_r. Qed.

Lemma wrap32_wrap32 (x : N) : wrap32 (wrap32 x) = wrap32 x.
Proof. apply N.Div0.mod_mod. Qed.

Lemma wrap32_small (x : N) : x < 2 ^ 32 → wrap32 x = x.
Proof. apply N.mod_small. Qed.

Lemma wrap32_lt (x : N) : wrap32 x < 2 ^ 32.
Proof. apply N.mod_lt. discriminate. Qed.

(** [pad] returns for a nonzero alignment, with the smallest padding that
    makes the size a multiple of the alignment. *)
Lemma pad_spec (size alignment : N) :
  alignment ≠ 0 →
  ∃ padding,
    pad size alignment = Ok (wrap32 (size + padding), padding) ∧
    padding < alignment ∧ (size + padding) mod alignment = 0.
Proof.
  intros Ha. unfold pad.
  destruct (N.eqb_spec alignment 0) as [|_]; [done|].
  pose proof (N.mod_upper_bound size alignment Ha) as Hlt.
  destruct (N.eqb_spec alignment (alignment - size mod alignment)) as [He|Hne].
  - exists 0. split; [reflexivity|]. split; [lia|].
    rewrite N.add_0_r.
    set (m := size mod alignment) in *. clearbody m. lia.
  - exists (alignment - size mod alignment).
    split; [reflexivity|].
    pose proof (N.div_mod size alignment Ha) as Hdm.
    set (m := size mod alignment) in *. clearbody m.
    set (q := size / alignment) in *. clearbody q.
    split; [lia|].
    replace (size + (alignment - m)) with ((q + 1) * alignment) by nia.
    apply N.Div0.mod_mul.
Qed.

Lemma pad_zero (size : N) : pad size 0 = Fault DivisionByZero.
Proof. reflexivity. Qed.

(** ** Lookups in rewritten graphs *)

Lemma instruction_at_map (f : PTXInstruction -> PTXInstruction) cfg bi ii :
  instruction_at (map_cfg f cfg) bi ii = f <$> instruction_at cfg bi ii.
Proof.
  unfold instruction_at, map_cfg.
  rewrite list_lookup_fmap.
  destruct (cfg !! bi) as [block|]; simpl; [|done].
  apply list_lookup_fmap.
Qed.

Lemma get_map_operands f ptx (i : nat) :
  (i < 4)%nat → get_operand i (map_operands f ptx) = f (get_operand i ptx).
Proof.
  intros Hi. destruct ptx.
  destruct i as [|[|[|[|]]]]; try lia; reflexivity.
Qed.

(** ** Argument memory *)

Lemma map_insert_lookup key value (offsets : gmap string N) :
  offsets !! key = None → map_insert key value offsets !! key = Some value.
Proof. intros H. unfold map_insert. rewrite H. apply lookup_insert_eq. Qed.

Lemma map_insert_fresh key value (offsets : gmap string N) :
  offsets !! key = None → map_insert key value offsets = <[key := value]> offsets.
Proof. intros H. unfold map_insert. by rewrite H. Qed.

Lemma map_insert_preserves key value (offsets : gmap string N) k v :
  offsets !! k = Some v → map_insert key value offsets !! k = Some v.
Proof.
  intros H. unfold map_insert.
  destruct (offsets !! key) eqn:E; [done|].
  rewrite lookup_insert_ne; [done|]. intros ->. congruence.
Qed.

Lemma map_insert_other key value (offsets : gmap string N) k :
  k ≠ key → map_insert key value offsets !! k = offsets !! k.
Proof.
  intros H. unfold map_insert.
  destruct (offsets !! key) eqn:E; [done|].
  by rewrite lookup_insert_ne.
Qed.

Lemma layoutArguments_spec (arguments : list Parameter_.t) :
  ∀ (offset : N) (table : gmap string N),
    offset < 2 ^ 32 →
    Forall (fun argument => Parameter_.getAlignment argument ≠ 0) arguments →
    ∃ size offsets paddings,
      layoutArguments arguments offset table = Ok (size, offsets) ∧
      length paddings = length arguments ∧
      size = wrap32 (offset + padded_sum paddings arguments) ∧
      (∀ k v, table !! k = Some v → offsets !! k = Some v) ∧
      ∀ (i : nat) argument p,
        arguments !! i = Some argument →
        paddings !! i = Some p →
        let start :=
          wrap32 (offset + padded_sum (take i paddings) (take i arguments)) in
        p < Parameter_.getAlignment argument ∧
        (start + p) mod Parameter_.getAlignment argument = 0 ∧
        (table !! Parameter_.name argument = None →
         Parameter_.name argument ∉ Parameter_.name <$> take i arguments →
         offsets !! Parameter_.name argument = Some (wrap32 (start + p))).
Proof.
  induction arguments as [|argument rest IH]; intros offset table Hlt Hnz.
  - exists offset, table, []. simpl. repeat split; try done.
    unfold padded_sum. simpl. rewrite N.add_0_r. by rewrite wrap32_small.
  - apply Forall_cons in Hnz as [Ha Hrest].
    destruct (pad_spec offset _ Ha) as (p & Hpad & Hp & Hmod).
    set (placed := wrap32 (offset + p)) in *.
    set (next := wrap32 (placed + Parameter_.getSize argument)).
    set (table' := map_insert (Parameter_.name argument) placed table).
    destruct (IH next table' (wrap32_lt _) Hrest)
      as (size & offsets & paddings & Hrun & Hlen & Hsize & Hkeep & Hall).
    exists size, offsets, (p :: paddings).
    assert (Hnext : ∀ x, wrap32 (next + x)
              = wrap32 (offset + (p + Parameter_.getSize argument + x))).
    { intros x. unfold next, placed.
      rewrite wrap32_idemp_l, <- N.add_assoc, wrap32_idemp_l.
      f_equal. lia. }
    split; [|split; [|split; [|split]]].
    + simpl. rewrite Hpad. simpl. exact Hrun.
    + simpl. by rewrite Hlen.
    + rewrite Hsize, Hnext. unfold padded_sum. simpl. f_equal.
    + intros k v Hk. apply Hkeep. by apply map_insert_preserves.
    + intros [|i] argument' p' Harg Hp'; simpl in Harg, Hp'.
      * injection Harg as <-. injection Hp' as <-. simpl.
        unfold padded_sum. simpl. rewrite N.add_0_r.
        rewrite (wrap32_small offset Hlt).
        split; [done|]. split; [done|].
        intros Hnone _. apply Hkeep. by apply map_insert_lookup.
      * destruct (Hall i argument' p' Harg Hp') as (H1 & H2 & H3).
        simpl in *. rewrite Hnext in H2, H3.
        assert (Heq : padded_sum (p :: take i paddings)
                        (argument :: take i rest)
                      = p + Parameter_.getSize argument
                        + padded_sum (take i paddings) (take i rest))
          by reflexivity.
        rewrite Heq. split; [exact H1|]. split; [exact H2|].
        intros Hnone Hfresh. apply H3.
        -- unfold table'. rewrite map_insert_other; [done|].
           intros E. apply Hfresh. rewrite E. apply list_elem_of_here.
        -- intros Hin. apply Hfresh. by apply list_elem_of_further.
Qed.

Lemma mapArgumentOperand_hit offsets operand declared :
  addressMode operand = Address →
  offsets !! identifier operand = Some declared →
  offset (mapArgumentOperand offsets operand)
    = wrap32 (declared + offset operand)
  ∧ isArgument (mapArgumentOperand offsets operand) = true.
Proof.
  intros Hmode Hfind. unfold mapArgumentOperand.
  destruct (decide _); [|done]. rewrite Hfind. simpl.
  split; [|done]. f_equal. lia.
Qed.

(** C4, as amended.  When no argument has a zero alignment the argument pass
    returns; the arguments are placed in order, each after the smallest
    padding that aligns it; [argumentSize] is the sum of the padded sizes
    (modulo [2^32]); every [Address] operand of a [Mov], [Ld] or [St]
    instruction that names an argument gets the offset of the argument
    added to its own (modulo [2^32]) and is flagged as an argument; and an
    [int] followed by a [double] are placed at 0 and 8, with 16 bytes of
    arguments. *)
Theorem argument_layout (kernel : PTXKernel.t) (metadata : Metadata.t) :
  Forall (fun argument => Parameter_.getAlignment argument ≠ 0)
    (PTXKernel.arguments kernel) →
  argument_pass_spec (fun ptx => isMovLdSt ptx = true) kernel metadata.
Proof.
  intros Hnz.
  destruct (layoutArguments_spec (PTXKernel.arguments kernel) 0 ∅)
    as (size & offsets & paddings & Hrun & Hlen & Hsize & _ & Hall);
    [done|exact Hnz|].
  exists (set_cfg kernel
            (map_cfg (mapArgumentInstruction offsets) (PTXKernel.cfg kernel))),
    (set_argumentSize metadata size), offsets, paddings.
  split; [|split; [|split]].
  - unfold setupArgumentMemoryReferences. rewrite Hrun. reflexivity.
  - split; [exact Hlen|]. split; [simpl; by rewrite Hsize, N.add_0_l|].
    intros i argument p Harg Hp.
    destruct (Hall i argument p Harg Hp) as (H1 & H2 & H3).
    simpl in *. rewrite N.add_0_l in H2, H3.
    split; [exact H1|]. split; [exact H2|].
    intros Hfresh. apply H3; [apply lookup_empty|exact Hfresh].
  - intros bi ii i ptx declared Hat Hguard Hi Hmode Hfind. simpl.
    exists (mapArgumentInstruction offsets ptx).
    rewrite instruction_at_map, Hat. split; [done|].
    unfold mapArgumentInstruction. rewrite Hguard.
    rewrite get_map_operands by done.
    by apply mapArgumentOperand_hit.
  - intros int double Hargs Hne. rewrite Hargs in Hrun.
    change (Ok (16, map_insert double 8 (map_insert int 0 ∅))
            = (Ok (size, offsets) : result (N * gmap string N))) in Hrun.
    injection Hrun as <- <-.
    split; [|split; [|reflexivity]].
    + apply map_insert_preserves, map_insert_lookup, lookup_empty.
    + apply map_insert_lookup.
      rewrite map_insert_other by (intros E; by apply Hne).
      apply lookup_empty.
Qed.

Lemma argument_layout_witness :
  Forall (fun argument => Parameter_.getAlignment argument ≠ 0)
    (PTXKernel.arguments int_double_kernel)
  ∧ argument_pass_spec (fun ptx => isMovLdSt ptx = true)
      int_double_kernel emptyMetadata.
Proof.
  assert (H : Forall (fun argument => Parameter_.getAlignment argument ≠ 0)
                (PTXKernel.arguments int_double_kernel))
    by (repeat constructor; discriminate).
  split; [exact H|]. exact (argument_layout int_double_kernel emptyMetadata H).
Defined.

(** C4 as stated fails: the [cvta] of [int_double_kernel] has an [Address]
    operand that names the argument [x], and the argument pass leaves it
    as it is. *)
Lemma argument_layout_counterexample :
  ¬ argument_pass_spec (fun _ => True) int_double_kernel emptyMetadata.
Proof.
  intros (kernel' & metadata' & offsets & paddings & Hrun & _ & Hrw & Hex).
  destruct (Hex "i" "x" eq_refl) as (_ & Hx & _); [done|].
  vm_compute in Hrun. injection Hrun as <- <-.
  destruct (Hrw 0%nat 1%nat 1%nat _ 8 eq_refl I) as (ptx' & Hat & _ & Hflag);
    [lia|reflexivity|exact Hx|].
  vm_compute in Hat. injection Hat as <-. discriminate Hflag.
Qed.

(** ** Parameter memory *)

Lemma pad_eq (offset alignment : N) :
  alignment ≠ 0 →
  pad offset alignment
    = Ok (wrap32 (offset + padding_for offset alignment),
          padding_for offset alignment).
Proof.
  intros Ha. unfold pad, padding_for.
  destruct (N.eqb_spec alignment 0) as [|_]; [done|].
  pose proof (N.mod_upper_bound offset alignment Ha) as Hlt.
  set (m := offset mod alignment) in *. clearbody m.
  destruct (N.eqb_spec alignment (alignment - m)) as [He|Hne].
  - replace (alignment - m) with alignment by lia.
    by rewrite N.Div0.mod_same.
  - rewrite (N.mod_small (alignment - m)) by lia. done.
Qed.

Lemma foldM_concat {A S : Type} (body : A -> S -> result S)
    (ls : list (list A)) (s : S) :
  foldM (fun l s => foldM body l s) ls s = foldM body (concat ls) s.
Proof.
  revert s. induction ls as [|l ls IH]; intros s; simpl; [done|].
  revert s. induction l as [|x l IHl]; intros s; simpl.
  - apply IH.
  - destruct (body x s) as [s'|f]; simpl; [apply IHl|done].
Qed.

Lemma foldM_cons {A S : Type} (body : A -> S -> result S)
    (x : A) (l : list A) (s : S) :
  foldM body (x :: l) s = (s ← body x s; foldM body l s).
Proof. reflexivity. Qed.

Lemma foldM_app {A S : Type} (body : A -> S -> result S)
    (l1 l2 : list A) (s : S) :
  foldM body (l1 ++ l2) s = (s ← foldM body l1 s; foldM body l2 s).
Proof.
  revert s. induction l1 as [|x l1 IH]; intros s; simpl; [done|].
  destruct (body x s) as [s'|f]; simpl; [apply IH|done].
Qed.

(** [lia] on goals about maxima of packed sizes. *)
Ltac max_lia :=
  clear; unfold fmap;
  repeat match goal with
         | |- context [packed_end ?l ?o] =>
             let x := fresh "x" in set (x := packed_end l o); clearbody x
         | |- context [max_list ?l] =>
             let y := fresh "y" in set (y := max_list l); clearbody y
         end;
  lia.

Section ParameterTheorems.

Variable PTXOperand_bytes : DataType -> N.

Let width_of := operand_width PTXOperand_bytes.
Let entry_of := operand_entry PTXOperand_bytes.

Local Ltac unfold_widths :=
  unfold width_of, entry_of, operand_entry, operand_width in *.

Lemma insertable_nil offsets : insertable [] offsets.
Proof. split; [constructor|]. intros k Hk. by apply elem_of_nil in Hk. Qed.

Lemma insertable_app l1 l2 (offsets offsets' : gmap string N) :
  dom offsets' = dom offsets ∪ list_to_set l1 →
  insertable (l1 ++ l2) offsets ↔ insertable l1 offsets ∧ insertable l2 offsets'.
Proof.
  intros Hdom. unfold insertable. rewrite NoDup_app.
  assert (Hnone : ∀ k, offsets' !! k = None
                       ↔ offsets !! k = None ∧ k ∉ l1).
  { intros k. rewrite <- !not_elem_of_dom, Hdom. set_solver. }
  split.
  - intros ((Hd1 & Hd12 & Hd2) & Hfresh). repeat split; try done.
    + intros k Hk. apply Hfresh. set_solver.
    + intros k Hk. apply Hnone. split; [apply Hfresh; set_solver|].
      intros Hk1. by apply (Hd12 k).
  - intros ((Hd1 & Hf1) & (Hd2 & Hf2)). repeat split; try done.
    + intros k Hk1 Hk2. apply Hf2, Hnone in Hk2 as [_ Hk2]. done.
    + intros k Hk. apply elem_of_app in Hk as [Hk|Hk]; [by apply Hf1|].
      by apply Hf2, Hnone in Hk as [Hk _].
Qed.

Lemma layoutCallArguments_cases (arguments : list PTXOperand) :
  ∀ (offset : N) (offsets : gmap string N),
    Forall (fun argument => width_of argument ≠ 0) arguments →
    (insertable (identifier <$> arguments) offsets ∧
     ∃ offsets',
       layoutCallArguments PTXOperand_bytes arguments offset offsets
         = Ok (packed_end (entry_of <$> arguments) offset, offsets') ∧
       dom offsets' = dom offsets ∪ list_to_set (identifier <$> arguments))
    ∨ (¬ insertable (identifier <$> arguments) offsets ∧
       layoutCallArguments PTXOperand_bytes arguments offset offsets
         = Fault (AssertionFailed ASSERT_COUNT)).
Proof.
  unfold_widths.
  induction arguments as [|argument rest IH]; intros offset offsets Hnz.
  - left. split; [apply insertable_nil|].
    exists offsets. split; [done|]. simpl. set_solver.
  - apply Forall_cons in Hnz as [Hw Hrest]. simpl.
    rewrite (pad_eq offset _ Hw). simpl.
    destruct (offsets !! identifier argument) as [v|] eqn:Hlook.
    + right. split; [|by rewrite bool_decide_eq_false_2].
      intros [_ Hfresh].
      specialize (Hfresh (identifier argument)).
      rewrite Hlook in Hfresh. discriminate Hfresh. set_solver.
    + rewrite bool_decide_eq_true_2 by done. simpl.
      rewrite (map_insert_fresh _ _ _ Hlook).
      set (placed := wrap32 (offset + padding_for offset
                                        (PTXOperand_bytes (type argument)))).
      set (offsets1 := <[identifier argument := placed]> offsets).
      assert (Hdom1 : dom offsets1
                      = dom offsets ∪ list_to_set [identifier argument]).
      { unfold offsets1. rewrite dom_insert_L. set_solver. }
      pose proof (insertable_app [identifier argument] (identifier <$> rest)
                    offsets offsets1 Hdom1) as Happ.
      assert (Hone : insertable [identifier argument] offsets).
      { split; [apply NoDup_singleton|]. intros k Hk.
        apply list_elem_of_singleton in Hk as ->. done. }
      destruct (IH (wrap32 (placed + PTXOperand_bytes (type argument)))
                  offsets1 Hrest)
        as [(Hins & offsets' & Hrun & Hdom)|(Hnot & Hrun)].
      * left. split; [apply Happ; by split|].
        exists offsets'. split; [exact Hrun|].
        rewrite Hdom, Hdom1. set_solver.
      * right. split; [|exact Hrun].
        intros Hins. apply Hnot. by apply Happ in Hins as [_ Hins].
Qed.

Lemma layoutCallArguments_app (l1 l2 : list PTXOperand) offset offsets :
  layoutCallArguments PTXOperand_bytes (l1 ++ l2) offset offsets
  = ('(offset, offsets) ←
       layoutCallArguments PTXOperand_bytes l1 offset offsets;
     layoutCallArguments PTXOperand_bytes l2 offset offsets).
Proof.
  revert offset offsets.
  induction l1 as [|argument l1 IH]; intros offset offsets; simpl; [done|].
  destruct (pad offset _) as [[o p]|f]; simpl; [|done].
  destruct (assert _ _) as [[]|f]; simpl; [|done].
  apply IH.
Qed.

Lemma layoutCall_eq (ptx : PTXInstruction) (parameterSize : N) offsets :
  layoutCall PTXOperand_bytes ptx (parameterSize, offsets)
  = ('(offset, offsets) ←
       layoutCallArguments PTXOperand_bytes (call_arguments ptx) 0 offsets;
     Ok (if is_call_site ptx then N.max offset parameterSize
         else parameterSize, offsets)).
Proof.
  unfold layoutCall, call_arguments, is_call_site.
  destruct (bool_decide (opcode ptx = Call)); simpl; [|done].
  destruct (bool_decide (identifier (a ptx) = DIVERGENT)); simpl; [done|].
  rewrite layoutCallArguments_app.
  destruct (layoutCallArguments _ (array (d ptx)) _ _) as [[o t]|f];
    simpl; done.
Qed.

Lemma call_identifiers_cons ptx instructions :
  call_identifiers (ptx :: instructions)
  = (identifier <$> call_arguments ptx) ++ call_identifiers instructions.
Proof. reflexivity. Qed.

Lemma layoutCalls_cases (instructions : list PTXInstruction) :
  ∀ (parameterSize : N) (offsets : gmap string N),
    Forall (fun ptx =>
              Forall (fun argument => width_of argument ≠ 0)
                (call_arguments ptx)) instructions →
    (insertable (call_identifiers instructions) offsets ∧
     ∃ offsets',
       foldM (layoutCall PTXOperand_bytes) instructions
         (parameterSize, offsets)
       = Ok (N.max parameterSize
               (max_list (call_site_size PTXOperand_bytes
                            <$> filter (fun ptx => is_call_site ptx = true)
                                  instructions)),
             offsets') ∧
       dom offsets'
         = dom offsets ∪ list_to_set (call_identifiers instructions))
    ∨ (¬ insertable (call_identifiers instructions) offsets ∧
       foldM (layoutCall PTXOperand_bytes) instructions
         (parameterSize, offsets)
       = Fault (AssertionFailed ASSERT_COUNT)).
Proof.
  induction instructions as [|ptx rest IH]; intros parameterSize offsets Hnz.
  - left. split; [apply insertable_nil|].
    exists offsets. simpl. split; [f_equal; f_equal; lia|set_solver].
  - apply Forall_cons in Hnz as [Hw Hrest].
    rewrite call_identifiers_cons, foldM_cons, layoutCall_eq.
    destruct (layoutCallArguments_cases (call_arguments ptx) 0 offsets Hw)
      as [(Hins & offsets1 & Hrun & Hdom1)|(Hnot & Hrun)].
    + rewrite Hrun. simpl.
      pose proof (insertable_app _ (call_identifiers rest) offsets offsets1
                    Hdom1) as Happ.
      set (size1 := if is_call_site ptx
                    then N.max (packed_end
                                  (entry_of <$> call_arguments ptx) 0)
                           parameterSize
                    else parameterSize).
      destruct (IH size1 offsets1 Hrest)
        as [(Hins' & offsets' & Hrun' & Hdom')|(Hnot & Hrun')].
      * left. split; [apply Happ; by split|].
        exists offsets'. split; [|rewrite Hdom', Hdom1; set_solver].
        unfold_widths. fold size1. rewrite Hrun'. f_equal. f_equal.
        rewrite filter_cons. unfold size1.
        destruct (is_call_site ptx) eqn:Hsite.
        -- rewrite decide_True by done. simpl.
           unfold call_site_size at 2, packed_size.
           rewrite <- list_fmap_compose. unfold compose, operand_width.
           max_lia.
        -- rewrite decide_False by done. done.
      * right. split; [|unfold_widths; fold size1; exact Hrun'].
        intros Hboth. apply Hnot. by apply Happ in Hboth as [_ Hboth].
    + right. rewrite Hrun. split; [|done].
      intros Hboth. apply Hnot.
      destruct Hboth as [Hd Hf]. apply NoDup_app in Hd as (Hd & _ & _).
      split; [done|]. intros k Hk. apply Hf. set_solver.
Qed.

Lemma layoutFunctionArguments_ok (arguments : list Parameter_.t) :
  ∀ bytes,
    Forall (fun argument => Parameter_.getSize argument ≠ 0) arguments →
    layoutFunctionArguments arguments bytes
    = Ok (packed_end ((fun width => (width, width))
                        <$> (Parameter_.getSize <$> arguments)) bytes).
Proof.
  induction arguments as [|argument rest IH]; intros bytes Hnz; [done|].
  apply Forall_cons in Hnz as [Hw Hrest]. simpl.
  rewrite (pad_eq bytes _ Hw). simpl. by apply IH.
Qed.

Lemma layoutFunctions_ok (functions : list ModuleKernel.t) :
  ∀ parameterSize,
    Forall (fun function =>
              Forall (fun argument => Parameter_.getSize argument ≠ 0)
                (ModuleKernel.arguments function))
      (filter (fun function => ModuleKernel.function function = true)
         functions) →
    foldM layoutFunction functions parameterSize
    = Ok (N.max parameterSize
            (max_list (function_size
                         <$> filter (fun function =>
                                       ModuleKernel.function function = true)
                               functions))).
Proof.
  induction functions as [|function rest IH]; intros parameterSize Hnz.
  - simpl. f_equal. lia.
  - rewrite filter_cons in *. simpl. unfold layoutFunction.
    destruct (ModuleKernel.function function) eqn:Hf; simpl.
    + rewrite decide_True in * by done.
      apply Forall_cons in Hnz as [Hw Hrest].
      rewrite (layoutFunctionArguments_ok _ 0 Hw). simpl.
      rewrite (IH _ Hrest). f_equal. unfold function_size at 2, packed_size.
      simpl. max_lia.
    + rewrite decide_False in * by done.
      by rewrite (IH _ Hnz).
Qed.

Lemma layoutFunctionArguments_no_assertion (arguments : list Parameter_.t) :
  ∀ bytes what,
    layoutFunctionArguments arguments bytes ≠ Fault (AssertionFailed what).
Proof.
  induction arguments as [|argument rest IH]; intros bytes what; simpl;
    [done|].
  unfold pad. destruct (_ =? 0); simpl; [done|apply IH].
Qed.

Lemma layoutFunctions_no_assertion (functions : list ModuleKernel.t) :
  ∀ parameterSize what,
    foldM layoutFunction functions parameterSize
      ≠ Fault (AssertionFailed what).
Proof.
  induction functions as [|function rest IH]; intros size what; [done|].
  rewrite foldM_cons.
  destruct (layoutFunction function size) as [size'|f] eqn:E; simpl.
  - apply IH.
  - intros [= ->]. unfold layoutFunction in E.
    destruct (negb (ModuleKernel.function function)); [done|].
    destruct (layoutFunctionArguments _ 0) as [bytes|f] eqn:E'; [done|].
    simpl in E. injection E as ->.
    by apply layoutFunctionArguments_no_assertion in E'.
Qed.

Lemma max_list_app (l1 l2 : list N) :
  max_list (l1 ++ l2) = N.max (max_list l1) (max_list l2).
Proof.
  induction l1 as [|x l1 IH]; simpl; [lia|]. rewrite IH. lia.
Qed.

(** C5.  When the call operands have types of nonzero width, their
    identifiers differ and the declared parameters of the functions of the
    module have nonzero sizes, the parameter pass returns and
    [parameterSize] is the maximum of the packed sizes of the call sites,
    calls of [ptx.warp.divergent] excluded, and of the packed sizes of the
    declared parameters of the functions of the module. *)
Theorem parameter_size (kernel : PTXKernel.t) (metadata : Metadata.t) :
  call_widths_nonzero PTXOperand_bytes kernel →
  NoDup (call_identifiers (concat (PTXKernel.cfg kernel))) →
  function_sizes_nonzero kernel →
  ∃ kernel' metadata',
    setupParameterMemoryReferences PTXOperand_bytes kernel metadata
      = Ok (kernel', metadata') ∧
    Metadata.parameterSize metadata'
      = max_list ((call_site_size PTXOperand_bytes <$> call_sites kernel)
                  ++ (function_size <$> module_functions kernel)).
Proof.
  intros Hw Hdup Hf. unfold setupParameterMemoryReferences.
  rewrite foldM_concat.
  destruct (layoutCalls_cases _ 0 ∅ Hw)
    as [(_ & offsets & Hrun & _)|(Hnot & _)].
  - rewrite Hrun. simpl. rewrite (layoutFunctions_ok _ _ Hf). simpl.
    eexists _, _. split; [reflexivity|]. simpl.
    rewrite max_list_app. unfold call_sites, module_functions. max_lia.
  - exfalso. apply Hnot. split; [done|]. intros k _. apply lookup_empty.
Qed.

(** C10.  When the call operands have types of nonzero width, the
    parameter pass fails its assertion exactly when an identifier occurs
    twice among the operands passed at the call sites: with distinct
    identifiers no assertion fails, and with a repeated identifier the
    pass ends in the failed assertion. *)
Theorem parameter_identifiers_distinct (kernel : PTXKernel.t)
    (metadata : Metadata.t) :
  call_widths_nonzero PTXOperand_bytes kernel →
  (NoDup (call_identifiers (concat (PTXKernel.cfg kernel))) →
   ∀ what,
     setupParameterMemoryReferences PTXOperand_bytes kernel metadata
       ≠ Fault (AssertionFailed what))
  ∧ (¬ NoDup (call_identifiers (concat (PTXKernel.cfg kernel))) →
     setupParameterMemoryReferences PTXOperand_bytes kernel metadata
       = Fault (AssertionFailed ASSERT_COUNT)).
Proof.
  intros Hw. unfold setupParameterMemoryReferences.
  rewrite foldM_concat.
  destruct (layoutCalls_cases _ 0 ∅ Hw)
    as [([Hd _] & offsets & Hrun & _)|(Hnot & Hrun)]; rewrite Hrun; simpl.
  - split; [|done]. intros _ what.
    destruct (foldM layoutFunction _ _) as [size|f] eqn:E; simpl; [done|].
    intros [= ->]. by apply layoutFunctions_no_assertion in E.
  - split; [|done]. intros Hd. exfalso. apply Hnot.
    split; [done|]. intros k _. apply lookup_empty.
Qed.

Lemma opcode_map_operands f ptx : opcode (map_operands f ptx) = opcode ptx.
Proof. by destruct ptx. Qed.

Lemma layoutCall_rewritten offsets (ptx : PTXInstruction) st :
  layoutCall PTXOperand_bytes (mapParameterInstruction offsets ptx) st
  = layoutCall PTXOperand_bytes ptx st.
Proof.
  unfold mapParameterInstruction.
  destruct (isMovLdSt ptx) eqn:Hguard; [|done].
  unfold layoutCall. destruct st as [size table].
  rewrite opcode_map_operands.
  unfold isMovLdSt in Hguard.
  destruct (decide (opcode ptx = Call)) as [Hcall|Hcall].
  - rewrite Hcall in Hguard. done.
  - rewrite (bool_decide_eq_false_2 _ Hcall). reflexivity.
Qed.

Lemma foldM_map {A S : Type} (body : A -> S -> result S) (f : A -> A)
    (l : list A) (s : S) :
  (∀ x s, body (f x) s = body x s) →
  foldM body (map f l) s = foldM body l s.
Proof.
  intros Hf. revert s. induction l as [|x l IH]; intros s; simpl; [done|].
  rewrite Hf. destruct (body x s); simpl; [apply IH|done].
Qed.

Lemma parameter_table_rewritten offsets (kernel : PTXKernel.t) :
  parameter_table PTXOperand_bytes
    (set_cfg kernel
       (map_cfg (mapParameterInstruction offsets) (PTXKernel.cfg kernel)))
  = parameter_table PTXOperand_bytes kernel.
Proof.
  unfold parameter_table. rewrite !foldM_concat. simpl. unfold map_cfg.
  rewrite <- (foldM_map (layoutCall PTXOperand_bytes)
                (mapParameterInstruction offsets)
                (concat (PTXKernel.cfg kernel)))
    by (intros; apply layoutCall_rewritten).
  f_equal. induction (PTXKernel.cfg kernel) as [|block cfg IH]; [done|].
  simpl. rewrite map_app. by rewrite IH.
Qed.

Lemma mapParameterOperand_after offsets operand :
  match offsets !! identifier operand with
  | Some parameter =>
      if bool_decide (addressMode operand = Address)
      then offset (mapParameterOperand offsets operand)
             = wrap32 (offset operand + parameter)
           ∧ isArgument (mapParameterOperand offsets operand) = false
      else mapParameterOperand offsets operand = operand
  | None => mapParameterOperand offsets operand = operand
  end.
Proof.
  unfold mapParameterOperand.
  destruct (offsets !! identifier operand) as [parameter|] eqn:Hfind.
  - destruct (decide (addressMode operand = Address)).
    + by rewrite bool_decide_eq_true_2.
    + by rewrite bool_decide_eq_false_2.
  - by destruct (decide _).
Qed.

Lemma parameter_operands_after_map offsets cfg :
  parameter_operands_after offsets cfg
    (map_cfg (mapParameterInstruction offsets) cfg).
Proof.
  intros bi ii ptx Hat.
  exists (mapParameterInstruction offsets ptx).
  rewrite instruction_at_map, Hat. split; [done|].
  intros i Hi. simpl. unfold mapParameterInstruction.
  pose proof (mapParameterOperand_after offsets (get_operand i ptx)) as Hop.
  destruct (isMovLdSt ptx) eqn:Hguard.
  - rewrite get_map_operands by done.
    destruct (offsets !! identifier (get_operand i ptx)); [|done].
    destruct (decide (addressMode (get_operand i ptx) = Address)).
    + rewrite bool_decide_eq_true_2 in Hop by done.
      by rewrite bool_decide_eq_true_2.
    + rewrite bool_decide_eq_false_2 in Hop by done.
      rewrite bool_decide_eq_false_2; [done|]. by intros [_ ?].
  - destruct (offsets !! identifier (get_operand i ptx)); [|done].
    rewrite bool_decide_eq_false_2; [done|]. by intros [? _].
Qed.

(** C9, as amended.  A second run of the parameter pass on the result of
    the first returns, finds the same offsets for the identifiers and the
    same [parameterSize], and rewrites the operands as the first run did:
    the offset of a parameter is added once more to each [Address] operand
    of a [Mov], [Ld] or [St] that names it. *)
Theorem parameter_pass_rerun (kernel kernel1 : PTXKernel.t)
    (metadata metadata1 : Metadata.t) :
  setupParameterMemoryReferences PTXOperand_bytes kernel metadata
    = Ok (kernel1, metadata1) →
  ∃ size offsets kernel2 metadata2,
    parameter_table PTXOperand_bytes kernel = Ok (size, offsets) ∧
    parameter_table PTXOperand_bytes kernel1 = Ok (size, offsets) ∧
    setupParameterMemoryReferences PTXOperand_bytes kernel1 metadata1
      = Ok (kernel2, metadata2) ∧
    Metadata.parameterSize metadata2 = Metadata.parameterSize metadata1 ∧
    parameter_operands_after offsets (PTXKernel.cfg kernel)
      (PTXKernel.cfg kernel1) ∧
    parameter_operands_after offsets (PTXKernel.cfg kernel1)
      (PTXKernel.cfg kernel2).
Proof.
  intros Hrun. unfold setupParameterMemoryReferences in Hrun.
  fold (parameter_table PTXOperand_bytes kernel) in Hrun.
  destruct (parameter_table PTXOperand_bytes kernel)
    as [[size offsets]|f] eqn:Htable; [|done].
  simpl in Hrun.
  destruct (foldM layoutFunction _ size) as [total|f] eqn:Hfun; [|done].
  simpl in Hrun. injection Hrun as <- <-.
  pose proof (parameter_table_rewritten offsets kernel) as Hsame.
  rewrite Htable in Hsame.
  exists size, offsets. eexists _, _.
  split; [done|]. split; [exact Hsame|]. split.
  - unfold setupParameterMemoryReferences.
    fold (parameter_table PTXOperand_bytes
            (set_cfg kernel
               (map_cfg (mapParameterInstruction offsets)
                  (PTXKernel.cfg kernel)))).
    rewrite Hsame. simpl. rewrite Hfun. reflexivity.
  - split; [done|]. split; apply parameter_operands_after_map.
Qed.

End ParameterTheorems.

Lemma parameter_size_witness :
  call_widths_nonzero example_bytes calling_kernel
  ∧ NoDup (call_identifiers (concat (PTXKernel.cfg calling_kernel)))
  ∧ function_sizes_nonzero calling_kernel
  ∧ ∃ kernel' metadata',
      setupParameterMemoryReferences example_bytes calling_kernel
        emptyMetadata = Ok (kernel', metadata') ∧
      Metadata.parameterSize metadata'
        = max_list ((call_site_size example_bytes <$> call_sites calling_kernel)
                    ++ (function_size <$> module_functions calling_kernel)).
Proof.
  assert (H1 : call_widths_nonzero example_bytes calling_kernel)
    by (repeat constructor; discriminate).
  assert (H2 : NoDup (call_identifiers
                        (concat (PTXKernel.cfg calling_kernel))))
    by (refine (bool_decide_unpack _ _); vm_compute; exact I).
  assert (H3 : function_sizes_nonzero calling_kernel) by constructor.
  split; [exact H1|]. split; [exact H2|]. split; [exact H3|].
  exact (parameter_size example_bytes calling_kernel emptyMetadata H1 H2 H3).
Defined.

Lemma parameter_identifiers_distinct_witness :
  call_widths_nonzero example_bytes calling_twice_kernel
  ∧ setupParameterMemoryReferences example_bytes calling_twice_kernel
      emptyMetadata = Fault (AssertionFailed ASSERT_COUNT).
Proof.
  assert (H1 : call_widths_nonzero example_bytes calling_twice_kernel)
    by (repeat constructor; discriminate).
  split; [exact H1|].
  apply (parameter_identifiers_distinct example_bytes calling_twice_kernel
           emptyMetadata H1).
  refine (bool_decide_unpack _ _). vm_compute. exact I.
Defined.

Lemma parameter_pass_rerun_witness :
  ∃ kernel1 metadata1,
    setupParameterMemoryReferences example_bytes calling_kernel emptyMetadata
      = Ok (kernel1, metadata1)
    ∧ ∃ size offsets kernel2 metadata2,
        parameter_table example_bytes calling_kernel = Ok (size, offsets) ∧
        parameter_table example_bytes kernel1 = Ok (size, offsets) ∧
        setupParameterMemoryReferences example_bytes kernel1 metadata1
          = Ok (kernel2, metadata2) ∧
        Metadata.parameterSize metadata2 = Metadata.parameterSize metadata1 ∧
        parameter_operands_after offsets (PTXKernel.cfg calling_kernel)
          (PTXKernel.cfg kernel1) ∧
        parameter_operands_after offsets (PTXKernel.cfg kernel1)
          (PTXKernel.cfg kernel2).
Proof.
  destruct (setupParameterMemoryReferences example_bytes calling_kernel
              emptyMetadata) as [[kernel1 metadata1]|f] eqn:Hrun.
  - exists kernel1, metadata1. split; [reflexivity|].
    exact (parameter_pass_rerun example_bytes calling_kernel kernel1
             emptyMetadata metadata1 Hrun).
  - vm_compute in Hrun. discriminate Hrun.
Defined.

(** C9 as stated fails: the store of [calling_kernel] names the parameter
    [p1], placed at offset 4; the first run moves the operand to offset 4
    and a second run moves it to offset 8. *)
Lemma parameter_pass_not_idempotent :
  ¬ parameter_pass_idempotent example_bytes calling_kernel emptyMetadata.
Proof.
  intros Hidem.
  destruct (Hidem _ _ eq_refl) as (kernel2 & metadata2 & Hrun & _ & Hcfg).
  vm_compute in Hrun. injection Hrun as <- <-.
  vm_compute in Hcfg. discriminate Hcfg.
Qed.

(** ** Shared memory *)

Section SharedTheorems.

Variable PTXOperand_bytes : DataType -> N.

Lemma layoutSharedGlobal_eq (global : string * PTXStatement.t) st :
  layoutSharedGlobal PTXOperand_bytes global st
  = match global_declaration PTXOperand_bytes global with
    | Some declaration => layoutSharedDeclaration declaration st
    | None => Ok st
    end.
Proof.
  unfold layoutSharedGlobal, global_declaration, layoutSharedDeclaration.
  destruct (bool_decide (_ = Directive_Shared)); [|done]. simpl.
  destruct (bool_decide (_ = Extern)); [|done]. simpl.
  by destruct (assert _ _).
Qed.

Lemma layoutSharedLocal_eq (local : string * Local_.t) st :
  layoutSharedLocal PTXOperand_bytes local st
  = match local_declaration PTXOperand_bytes local with
    | Some declaration => layoutSharedDeclaration declaration st
    | None => Ok st
    end.
Proof.
  unfold layoutSharedLocal, local_declaration, layoutSharedDeclaration.
  destruct (bool_decide (_ = Shared)); [|done]. simpl.
  destruct (bool_decide (_ = Extern)); [|done]. simpl.
  by destruct (assert _ _).
Qed.

Lemma foldM_omap {A B S : Type} (body : A -> S -> result S)
    (step : B -> S -> result S) (h : A -> option B) (l : list A) (s : S) :
  (∀ x s, body x s = match h x with Some y => step y s | None => Ok s end) →
  foldM body l s = foldM step (omap h l) s.
Proof.
  intros Hbody. revert s. induction l as [|x l IH]; intros s; [done|].
  rewrite foldM_cons, Hbody. simpl.
  destruct (h x) as [y|]; simpl; [|apply IH].
  destruct (step y s); simpl; [apply IH|done].
Qed.

Lemma layoutShared_eq (kernel : PTXKernel.t) :
  layoutShared PTXOperand_bytes kernel
  = foldM layoutSharedDeclaration
      (shared_declarations PTXOperand_bytes kernel) (mkSharedLayout ∅ ∅ 1 0).
Proof.
  unfold layoutShared, shared_declarations. rewrite foldM_app.
  rewrite (foldM_omap _ layoutSharedDeclaration
             (global_declaration PTXOperand_bytes))
    by apply layoutSharedGlobal_eq.
  destruct (foldM _ _ _) as [st|f]; simpl; [|done].
  apply foldM_omap, layoutSharedLocal_eq.
Qed.

Lemma layoutSharedDeclaration_external declaration st :
  declared_external declaration = true →
  layoutSharedDeclaration declaration st
  = if bool_decide (declared_name declaration ∈ shared_external st)
    then Fault (AssertionFailed (declared_assertion declaration))
    else Ok (mkSharedLayout (shared_offsets st)
               ({[declared_name declaration]} ∪ shared_external st)
               (N.max (N.max (shared_externalAlignment st)
                         (declared_alignment declaration))
                  (declared_width declaration))
               (shared_sharedSize st)).
Proof.
  intros Hext. unfold layoutSharedDeclaration. rewrite Hext.
  destruct (decide (declared_name declaration ∈ shared_external st)).
  - rewrite bool_decide_eq_false_2 by (intros H; by apply H).
    by rewrite bool_decide_eq_true_2.
  - rewrite bool_decide_eq_true_2 by done.
    by rewrite bool_decide_eq_false_2.
Qed.

Lemma layoutSharedDeclaration_packed declaration st :
  declared_external declaration = false →
  declared_alignment declaration ≠ 0 →
  layoutSharedDeclaration declaration st
  = let sharedSize :=
      wrap32 (shared_sharedSize st
              + padding_for (shared_sharedSize st)
                  (declared_alignment declaration)) in
    Ok (mkSharedLayout
          (map_insert (declared_name declaration) sharedSize
             (shared_offsets st))
          (shared_external st) (shared_externalAlignment st)
          (wrap32 (sharedSize + declared_size declaration))).
Proof.
  intros Hext Ha. unfold layoutSharedDeclaration. rewrite Hext.
  by rewrite (pad_eq _ _ Ha).
Qed.

Lemma insertable_set_nil external : insertable_set [] external.
Proof. split; [constructor|]. intros k Hk. by apply elem_of_nil in Hk. Qed.

Lemma layoutSharedDeclarations_cases
    (declarations : list SharedDeclaration) :
  ∀ st,
    Forall (fun declaration => declared_alignment declaration ≠ 0)
      (packed_declarations declarations) →
    (insertable_set (external_names declarations) (shared_external st) ∧
     ∃ st',
       foldM layoutSharedDeclaration declarations st = Ok st' ∧
       shared_external st'
         = shared_external st ∪ list_to_set (external_names declarations) ∧
       shared_externalAlignment st'
         = N.max (shared_externalAlignment st)
             (max_list
                ((fun declaration =>
                    N.max (declared_alignment declaration)
                      (declared_width declaration))
                   <$> external_declarations declarations)) ∧
       shared_sharedSize st'
         = packed_end
             ((fun declaration =>
                 (declared_alignment declaration, declared_size declaration))
                <$> packed_declarations declarations)
             (shared_sharedSize st))
    ∨ (¬ insertable_set (external_names declarations) (shared_external st) ∧
       ∃ what,
         foldM layoutSharedDeclaration declarations st
         = Fault (AssertionFailed what)).
Proof.
  unfold external_names, external_declarations, packed_declarations.
  induction declarations as [|declaration rest IH]; intros st Hnz.
  - left. split; [apply insertable_set_nil|].
    exists st. simpl. repeat split; [set_solver|lia].
  - rewrite foldM_cons. rewrite !filter_cons in *.
    destruct (declared_external declaration) eqn:Hext.
    + rewrite decide_True by done. rewrite decide_False in * by done.
      rewrite (layoutSharedDeclaration_external _ _ Hext).
      destruct (decide (declared_name declaration ∈ shared_external st))
        as [Hin|Hnotin].
      * rewrite bool_decide_eq_true_2 by done. right. split.
        -- intros [_ Hfresh]. apply (Hfresh (declared_name declaration)).
           ++ rewrite ?fmap_cons. apply list_elem_of_here.
           ++ exact Hin.
        -- by exists (declared_assertion declaration).
      * rewrite bool_decide_eq_false_2 by done. simpl.
        set (st1 := mkSharedLayout _ _ _ _).
        destruct (IH st1 Hnz)
          as [([Hd Hf] & st' & Hrun & Hext' & Halign & Hsize)
             |(Hnot & what & Hrun)].
        -- left. split.
           ++ split.
              ** rewrite ?fmap_cons. apply NoDup_cons. split; [|done].
                 intros Hin. apply (Hf _ Hin). simpl. set_solver.
              ** intros k Hk. rewrite ?fmap_cons in Hk.
                 apply elem_of_cons in Hk as [->|Hk]; [done|].
                 specialize (Hf k Hk). simpl in Hf. set_solver.
           ++ exists st'. split; [exact Hrun|].
              rewrite Hext', Halign, Hsize. simpl.
              repeat split; [set_solver|max_lia].
        -- right. split; [|by exists what].
           intros [Hd Hf]. apply Hnot. rewrite ?fmap_cons in Hd, Hf.
           apply NoDup_cons in Hd as [Hhead Hd]. split; [done|].
           intros k Hk. simpl.
           assert (k ≠ declared_name declaration) by (by intros ->).
           specialize (Hf k). set_solver.
    + rewrite decide_False by done.
      rewrite decide_True in * by done.
      apply Forall_cons in Hnz as [Ha Hrest].
      rewrite (layoutSharedDeclaration_packed _ _ Hext Ha). simpl.
      set (st1 := mkSharedLayout _ _ _ _).
      destruct (IH st1 Hrest)
        as [(Hins & st' & Hrun & Hext' & Halign & Hsize)
           |(Hnot & what & Hrun)].
      * left. split; [exact Hins|].
        exists st'. split; [exact Hrun|]. by rewrite Hext', Halign, Hsize.
      * right. split; [exact Hnot|]. by exists what.
Qed.

Lemma get_set_operand_eq (i : nat) operand ptx :
  (i < 4)%nat → get_operand i (set_operand i operand ptx) = operand.
Proof. intros Hi. destruct i as [|[|[|[|]]]]; try lia; reflexivity. Qed.

Lemma get_set_operand_ne (i j : nat) operand ptx :
  (i < 4)%nat → (j < 4)%nat → i ≠ j →
  get_operand i (set_operand j operand ptx) = get_operand i ptx.
Proof.
  intros Hi Hj Hne.
  destruct i as [|[|[|[|]]]]; try lia;
    destruct j as [|[|[|[|]]]]; try lia; reflexivity.
Qed.

Lemma get_operand_set_addressSpace (i : nat) ptx space :
  get_operand i (set_addressSpace ptx space) = get_operand i ptx.
Proof. by destruct i as [|[|[|]]]. Qed.

(** One step of the operand loop of the shared pass: it remembers [j] when
    the operand is external and leaves the instruction as it is then; it
    never changes another operand. *)
Lemma mapSharedOperand_spec offsets external ptx slots (j : nat) :
  (j < 4)%nat →
  ∃ ptx',
    mapSharedOperand offsets external (ptx, slots) j
    = (ptx',
       slots ++ (if is_external external (get_operand j ptx) then [j]
                 else [])) ∧
    (∀ i : nat, (i < 4)%nat → i ≠ j →
       get_operand i ptx' = get_operand i ptx) ∧
    (is_external external (get_operand j ptx) = true → ptx' = ptx).
Proof.
  intros Hj. unfold mapSharedOperand, is_external.
  destruct (decide (addressMode (get_operand j ptx) = Address)) as [Hm|Hm].
  - destruct (decide (identifier (get_operand j ptx) ∈ external)) as [He|He].
    + exists ptx. rewrite bool_decide_eq_true_2 by done. done.
    + rewrite bool_decide_eq_false_2 by (by intros [_ ?]).
      rewrite app_nil_r.
      destruct (offsets !! identifier (get_operand j ptx)) as [off|].
      * eexists. split; [reflexivity|]. split; [|done].
        intros i Hi Hne.
        by rewrite get_set_operand_ne, get_operand_set_addressSpace.
      * by exists ptx.
  - rewrite bool_decide_eq_false_2 by (by intros [? _]).
    rewrite app_nil_r. by exists ptx.
Qed.

(** The operand loop of the shared pass on one instruction: the operands
    it remembers are the external ones, in order, and it leaves them as
    they are. *)
Lemma mapSharedInstruction_spec offsets external ptx :
  ∃ ptx',
    mapSharedInstruction offsets external ptx
    = (ptx',
       if isMovLdStCvta ptx
       then filter (fun j => is_external external (get_operand j ptx) = true)
              [0; 1; 2; 3]%nat
       else []) ∧
    (∀ i : nat, (i < 4)%nat →
       is_external external (get_operand i ptx) = true →
       get_operand i ptx' = get_operand i ptx).
Proof.
  unfold mapSharedInstruction.
  destruct (isMovLdStCvta ptx); [|by exists ptx].
  cbn [foldl].
  destruct (mapSharedOperand_spec offsets external ptx [] 0)
    as (ptx1 & E1 & O1 & S1); [lia|].
  rewrite E1.
  destruct (mapSharedOperand_spec offsets external ptx1
              ([] ++ (if is_external external (get_operand 0 ptx) then [0%nat]
                      else [])) 1)
    as (ptx2 & E2 & O2 & S2); [lia|].
  rewrite E2.
  destruct (mapSharedOperand_spec offsets external ptx2
              (([] ++ (if is_external external (get_operand 0 ptx)
                       then [0%nat] else []))
               ++ (if is_external external (get_operand 1 ptx1)
                   then [1%nat] else [])) 2)
    as (ptx3 & E3 & O3 & S3); [lia|].
  rewrite E3.
  destruct (mapSharedOperand_spec offsets external ptx3
              ((([] ++ (if is_external external (get_operand 0 ptx)
                        then [0%nat] else []))
                ++ (if is_external external (get_operand 1 ptx1)
                    then [1%nat] else []))
               ++ (if is_external external (get_operand 2 ptx2)
                   then [2%nat] else [])) 3)
    as (ptx4 & E4 & O4 & S4); [lia|].
  rewrite E4. exists ptx4.
  assert (G1 : get_operand 1 ptx1 = get_operand 1 ptx) by (apply O1; lia).
  assert (G2 : get_operand 2 ptx2 = get_operand 2 ptx)
    by (rewrite O2, O1 by lia; done).
  assert (G3 : get_operand 3 ptx3 = get_operand 3 ptx)
    by (rewrite O3, O2, O1 by lia; done).
  rewrite G1, G2, G3 in *. split.
  - f_equal. rewrite !filter_cons, filter_nil.
    repeat (destruct (is_external external _)); reflexivity.
  - intros i Hi Hext.
    destruct i as [|[|[|[|]]]]; try lia.
    + rewrite O4, O3, O2 by lia. by rewrite S1.
    + rewrite O4, O3 by lia. rewrite S2 by done. apply O1; lia.
    + rewrite O4 by lia. rewrite S3 by done. rewrite O2, O1 by lia. done.
    + rewrite S4 by done. rewrite O3, O2, O1 by lia. done.
Qed.

Lemma get_operand_bump_eq sharedSize ptx (i : nat) :
  (i < 4)%nat →
  offset (get_operand i (bump sharedSize ptx i))
  = wrap32 (offset (get_operand i ptx) + sharedSize).
Proof. intros Hi. unfold bump. by rewrite get_set_operand_eq. Qed.

Lemma get_operand_bump_ne sharedSize ptx (i j : nat) :
  (i < 4)%nat → (j < 4)%nat → i ≠ j →
  get_operand i (bump sharedSize ptx j) = get_operand i ptx.
Proof. intros Hi Hj Hne. unfold bump. by rewrite get_set_operand_ne. Qed.

Lemma foldl_bump_other sharedSize (slots : list nat) :
  ∀ ptx (i : nat),
    (i < 4)%nat → Forall (fun j => (j < 4)%nat) slots → i ∉ slots →
    get_operand i (foldl (bump sharedSize) ptx slots) = get_operand i ptx.
Proof.
  induction slots as [|j slots IH]; intros ptx i Hi Hall Hnot; [done|].
  apply Forall_cons in Hall as [Hj Hall]. simpl.
  rewrite IH by set_solver.
  apply get_operand_bump_ne; set_solver.
Qed.

Lemma foldl_bump_once sharedSize (slots : list nat) :
  ∀ ptx (i : nat),
    (i < 4)%nat → Forall (fun j => (j < 4)%nat) slots → NoDup slots →
    i ∈ slots →
    offset (get_operand i (foldl (bump sharedSize) ptx slots))
    = wrap32 (offset (get_operand i ptx) + sharedSize).
Proof.
  induction slots as [|j slots IH]; intros ptx i Hi Hall Hdup Hin.
  - by apply elem_of_nil in Hin.
  - apply Forall_cons in Hall as [Hj Hall].
    apply NoDup_cons in Hdup as [Hnotin Hdup]. simpl.
    apply elem_of_cons in Hin as [->|Hin].
    + rewrite foldl_bump_other by done. by apply get_operand_bump_eq.
    + rewrite IH by done.
      rewrite get_operand_bump_ne; [done..|]. by intros ->.
Qed.

(** An external operand of a [Mov], [Ld], [St] or [Cvta] ends up with
    [sharedSize] added to its offset. *)
Lemma finalSharedInstruction_external offsets external sharedSize ptx
    (i : nat) :
  isMovLdStCvta ptx = true →
  (i < 4)%nat →
  is_external external (get_operand i ptx) = true →
  offset (get_operand i
            (finalSharedInstruction offsets external sharedSize ptx))
  = wrap32 (offset (get_operand i ptx) + sharedSize).
Proof.
  intros Hguard Hi Hext. unfold finalSharedInstruction.
  destruct (mapSharedInstruction_spec offsets external ptx)
    as (ptx' & E & Hkeep).
  rewrite E, Hguard.
  rewrite foldl_bump_once.
  - by rewrite Hkeep.
  - done.
  - apply Forall_forall. intros j Hin.
    apply list_elem_of_filter in Hin as [_ Hin].
    repeat (apply elem_of_cons in Hin as [->|Hin]; [lia|]).
    by apply elem_of_nil in Hin.
  - apply NoDup_filter.
    refine (bool_decide_unpack _ _). vm_compute. exact I.
  - apply list_elem_of_filter. split; [done|].
    destruct i as [|[|[|[|]]]]; try lia; set_solver.
Qed.

Lemma addExternalOffset_at sharedSize (pre suf : list (list PTXInstruction))
    (preI sufI : list PTXInstruction) ptx (i : nat) :
  addExternalOffset sharedSize (pre ++ (preI ++ ptx :: sufI) :: suf)
    (length pre, length preI, i)
  = pre ++ (preI ++ bump sharedSize ptx i :: sufI) :: suf.
Proof.
  unfold addExternalOffset.
  rewrite <- (Nat.add_0_r (length pre)), alter_app_r. simpl. f_equal. f_equal.
  rewrite <- (Nat.add_0_r (length preI)), alter_app_r. reflexivity.
Qed.

Lemma foldl_addExternalOffset_slots sharedSize
    (pre suf : list (list PTXInstruction))
    (preI sufI : list PTXInstruction) (slots : list nat) :
  ∀ ptx,
    foldl (addExternalOffset sharedSize)
      (pre ++ (preI ++ ptx :: sufI) :: suf)
      ((fun i => (length pre, length preI, i)) <$> slots)
    = pre ++ (preI ++ foldl (bump sharedSize) ptx slots :: sufI) :: suf.
Proof.
  induction slots as [|i slots IH]; intros ptx; [done|].
  rewrite fmap_cons. cbn [foldl].
  rewrite addExternalOffset_at. apply IH.
Qed.

Lemma foldl_addExternalOffset_block offsets external sharedSize
    (pre suf : list (list PTXInstruction)) (block : list PTXInstruction) :
  ∀ preI : list PTXInstruction,
    foldl (addExternalOffset sharedSize)
      (pre ++ (preI ++ (mapSharedBlock offsets external (length pre)
                          (length preI) block).1) :: suf)
      (mapSharedBlock offsets external (length pre) (length preI) block).2
    = pre ++ (preI ++ map (finalSharedInstruction offsets external
                             sharedSize) block) :: suf.
Proof.
  induction block as [|ptx rest IH]; intros preI; [done|].
  cbn [mapSharedBlock map]. unfold finalSharedInstruction at 1.
  destruct (mapSharedInstruction offsets external ptx) as [ptx' slots].
  specialize (IH (preI ++ [foldl (bump sharedSize) ptx' slots])).
  rewrite length_app in IH. simpl in IH.
  rewrite Nat.add_1_r in IH.
  destruct (mapSharedBlock offsets external (length pre) (S (length preI))
              rest) as [rest' refs].
  cbn [fst snd] in *.
  rewrite foldl_app, foldl_addExternalOffset_slots.
  rewrite <- !app_assoc in IH. exact IH.
Qed.

Lemma foldl_addExternalOffset_cfg offsets external sharedSize
    (cfg : list (list PTXInstruction)) :
  ∀ pre : list (list PTXInstruction),
    foldl (addExternalOffset sharedSize)
      (pre ++ (mapSharedCfg offsets external (length pre) cfg).1)
      (mapSharedCfg offsets external (length pre) cfg).2
    = pre ++ map (map (finalSharedInstruction offsets external sharedSize))
               cfg.
Proof.
  induction cfg as [|block rest IH]; intros pre; [done|].
  cbn [mapSharedCfg map].
  pose proof (foldl_addExternalOffset_block offsets external sharedSize pre
                (mapSharedCfg offsets external (S (length pre)) rest).1
                block []) as Hblock.
  cbn [length app] in Hblock.
  destruct (mapSharedBlock offsets external (length pre) 0 block)
    as [block' refs].
  specialize (IH (pre ++ [map (finalSharedInstruction offsets external
                                 sharedSize) block])).
  rewrite length_app in IH. simpl in IH. rewrite Nat.add_1_r in IH.
  destruct (mapSharedCfg offsets external (S (length pre)) rest)
    as [rest' refs'].
  cbn [fst snd app length] in *.
  rewrite foldl_app, Hblock.
  rewrite <- !app_assoc in IH. exact IH.
Qed.

(** The two loops of the shared pass over the operands amount to
    [finalSharedInstruction] on every instruction. *)
Lemma shared_cfg_final offsets external sharedSize
    (cfg : list (list PTXInstruction)) :
  (let '(cfg', externalOperands) := mapSharedCfg offsets external 0 cfg in
   foldl (addExternalOffset sharedSize) cfg' externalOperands)
  = map_cfg (finalSharedInstruction offsets external sharedSize) cfg.
Proof.
  pose proof (foldl_addExternalOffset_cfg offsets external sharedSize cfg [])
    as H.
  simpl in H. by destruct (mapSharedCfg offsets external 0 cfg).
Qed.

Lemma padding_for_aligned (offset alignment : N) :
  alignment ≠ 0 → (offset + padding_for offset alignment) mod alignment = 0.
Proof.
  intros Ha. destruct (pad_spec offset alignment Ha) as (p & Hpad & _ & Hmod).
  rewrite (pad_eq offset alignment Ha) in Hpad. by injection Hpad as _ <-.
Qed.

(** C6, as amended.  When the shared entries that are packed have nonzero
    alignments: a subkernel that sees two external shared declarations of
    one name fails an assertion; otherwise the shared pass returns,
    [sharedSize] is the packed size of the entries that are not external
    padded to the external alignment (the maximum of the declared
    alignments and element widths of the external entries, and at least
    1), a multiple of that alignment unless the padding overflows 32 bits,
    and every [Address] operand of a [Mov], [Ld], [St] or [Cvta] that
    names an external entry has [sharedSize] added to its offset. *)
Theorem shared_layout (kernel : PTXKernel.t) (metadata : Metadata.t) :
  shared_alignments_nonzero PTXOperand_bytes kernel →
  (¬ NoDup (external_names (shared_declarations PTXOperand_bytes kernel)) →
   ∃ what,
     setupSharedMemoryReferences PTXOperand_bytes kernel metadata
     = Fault (AssertionFailed what))
  ∧ (NoDup (external_names (shared_declarations PTXOperand_bytes kernel)) →
     shared_pass_spec PTXOperand_bytes
       (fun ptx => isMovLdStCvta ptx = true) kernel metadata).
Proof.
  intros Hnz. unfold setupSharedMemoryReferences.
  rewrite layoutShared_eq.
  destruct (layoutSharedDeclarations_cases
              (shared_declarations PTXOperand_bytes kernel)
              (mkSharedLayout ∅ ∅ 1 0) Hnz)
    as [([Hd _] & st & Hrun & Hext & Halign & Hsize)|(Hnot & what & Hrun)];
    rewrite Hrun; simpl.
  - split; [done|]. intros _.
    simpl in Hext, Halign, Hsize.
    fold (external_alignment (shared_declarations PTXOperand_bytes kernel))
      in Halign.
    fold (packed_shared_size (shared_declarations PTXOperand_bytes kernel))
      in Hsize.
    unfold shared_pass_spec.
    set (declarations := shared_declarations PTXOperand_bytes kernel) in *.
    assert (Ha : external_alignment declarations ≠ 0)
      by (unfold external_alignment; lia).
    set (sharedSize :=
           wrap32 (packed_shared_size declarations
                   + padding_for (packed_shared_size declarations)
                       (external_alignment declarations))).
    exists (set_cfg kernel
              (map_cfg (finalSharedInstruction (shared_offsets st)
                          (shared_external st) sharedSize)
                 (PTXKernel.cfg kernel))),
      (set_sharedSize metadata sharedSize).
    split; [|split; [done|split]].
    + unfold setupSharedMemoryReferences.
      rewrite layoutShared_eq. fold declarations. rewrite Hrun. simpl.
      rewrite <- shared_cfg_final.
      destruct (mapSharedCfg _ _ 0 _) as [cfg' refs].
      rewrite Hsize, Halign, (pad_eq _ _ Ha). reflexivity.
    + intros Hsmall. simpl. unfold sharedSize.
      rewrite wrap32_small by done. by apply padding_for_aligned.
    + intros bi ii i ptx Hat Hguard Hi Hmode Hin. simpl.
      exists (finalSharedInstruction (shared_offsets st) (shared_external st)
                sharedSize ptx).
      rewrite instruction_at_map, Hat. split; [done|].
      apply finalSharedInstruction_external; [done..|].
      unfold is_external. apply bool_decide_eq_true_2. split; [done|].
      rewrite Hext. set_solver.
  - split; [|intros Hd; exfalso; apply Hnot; split; [done|set_solver]].
    intros _. by exists what.
Qed.

End SharedTheorems.

Lemma shared_layout_witness :
  shared_alignments_nonzero example_bytes shared_kernel
  ∧ shared_pass_spec example_bytes (fun ptx => isMovLdStCvta ptx = true)
      shared_kernel emptyMetadata.
Proof.
  assert (H : shared_alignments_nonzero example_bytes shared_kernel)
    by (repeat constructor; discriminate).
  split; [exact H|].
  apply (shared_layout example_bytes shared_kernel emptyMetadata H).
  refine (bool_decide_unpack _ _). vm_compute. exact I.
Defined.

(** A subkernel whose module and whose locals declare the same external
    shared array is rejected. *)
Example shared_twice_rejected :
  setupSharedMemoryReferences example_bytes shared_twice_kernel emptyMetadata
  = Fault (AssertionFailed "external.count(local->second.name) == 0").
Proof. vm_compute. reflexivity. Qed.

(** C6 as stated fails: the [atom] of [shared_kernel] names the external
    entry [dynamic]; the region is 4 bytes long and the operand stays at
    offset 0. *)
Lemma shared_layout_counterexample :
  ¬ shared_pass_spec example_bytes (fun _ => True) shared_kernel
      emptyMetadata.
Proof.
  intros (kernel' & metadata' & Hrun & _ & _ & Hrw).
  vm_compute in Hrun. injection Hrun as <- <-.
  destruct (Hrw 0%nat 1%nat 1%nat _ eq_refl I) as (ptx' & Hat & Hoff);
    [lia|reflexivity| |].
  - refine (bool_decide_unpack _ _). vm_compute. exact I.
  - vm_compute in Hat. injection Hat as <-. vm_compute in Hoff.
    discriminate Hoff.
Qed.

(** ** Local memory *)

Lemma placeReserved_eq name st :
  placeReserved name st = placeLocal (reserved_word name) st.
Proof. by destruct st. Qed.

Lemma placeNamedLocal_eq name locals st :
  placeNamedLocal name locals st
  = foldM placeLocal (named_local name locals) st.
Proof.
  unfold placeNamedLocal, named_local.
  destruct (map_find name locals) as [local|]; [|done].
  destruct (bool_decide _); [|done].
  simpl. by destruct (placeLocal local st).
Qed.

Lemma placeOrdinaryLocals_eq (locals : list (string * Local_.t)) :
  ∀ st, foldM placeOrdinaryLocal locals st
        = foldM placeLocal (ordinary_locals locals) st.
Proof.
  unfold ordinary_locals.
  induction locals as [|local rest IH]; intros st; [done|].
  rewrite foldM_cons, filter_cons. unfold placeOrdinaryLocal at 2.
  unfold reserved_names.
  destruct (decide (local.1 = BARRIER_NEXT_KERNEL)) as [E|N1].
  { rewrite bool_decide_eq_true_2 by done. simpl.
    rewrite decide_False by (rewrite E; intros [H _]; set_solver).
    apply IH. }
  rewrite bool_decide_eq_false_2 by done.
  destruct (decide (local.1 = SPILL_AREA)) as [E|N2].
  { rewrite bool_decide_eq_true_2 by done. simpl.
    rewrite decide_False by (rewrite E; intros [H _]; set_solver).
    apply IH. }
  rewrite bool_decide_eq_false_2 by done.
  destruct (decide (local.1 = RESUME_POINT)) as [E|N3].
  { rewrite bool_decide_eq_true_2 by done. simpl.
    rewrite decide_False by (rewrite E; intros [H _]; set_solver).
    apply IH. }
  rewrite bool_decide_eq_false_2 by done.
  destruct (decide (local.1 = RESUME_STATUS)) as [E|N4].
  { rewrite bool_decide_eq_true_2 by done. simpl.
    rewrite decide_False by (rewrite E; intros [H _]; set_solver).
    apply IH. }
  rewrite bool_decide_eq_false_2 by done.
  destruct (decide (Local_.space local.2 = Local)) as [Hs|Hs].
  - rewrite bool_decide_eq_true_2 by done.
    rewrite decide_True by (split; [set_solver|done]).
    rewrite fmap_cons, foldM_cons.
    destruct (placeLocal local.2 st); simpl; [apply IH|done].
  - rewrite bool_decide_eq_false_2 by done. simpl.
    rewrite decide_False by (by intros [_ ?]).
    apply IH.
Qed.

(** The declarations part of the local pass places the variables of
    [local_order], in that order. *)
Lemma layoutLocals_order (locals : list (string * Local_.t)) :
  layoutLocals locals = foldM placeLocal (local_order locals) (0, ∅).
Proof.
  unfold layoutLocals, local_order.
  rewrite foldM_app, placeNamedLocal_eq.
  destruct (foldM placeLocal (named_local BARRIER_NEXT_KERNEL locals) _)
    as [st|f]; simpl; [|done].
  rewrite placeReserved_eq.
  destruct (placeLocal (reserved_word RESUME_STATUS) st) as [st1|f];
    simpl; [|done].
  rewrite placeReserved_eq.
  destruct (placeLocal (reserved_word RESUME_POINT) st1) as [st2|f];
    simpl; [|done].
  rewrite foldM_app, placeOrdinaryLocals_eq.
  destruct (foldM placeLocal (ordinary_locals locals) st2) as [st3|f];
    simpl; [|done].
  apply placeNamedLocal_eq.
Qed.

Lemma padding_for_lt (offset alignment : N) :
  alignment ≠ 0 → padding_for offset alignment < alignment.
Proof. intros Ha. unfold padding_for. by apply N.mod_lt. Qed.

Lemma local_extent_cons local variables :
  local_extent (local :: variables)
  = Local_.alignment local + Local_.getSize local + local_extent variables.
Proof. reflexivity. Qed.

(** Variables of distinct names placed one after the other without
    overflow lie in order, each aligned. *)
Lemma placeLocals_spec (variables : list Local_.t) :
  ∀ (start : N) (offsets : gmap string N),
    Forall (fun local => Local_.alignment local ≠ 0) variables →
    start + local_extent variables < 2 ^ 32 →
    NoDup (Local_.name <$> variables) →
    (∀ k, k ∈ Local_.name <$> variables → offsets !! k = None) →
    ∃ size offsets' placements,
      foldM placeLocal variables (start, offsets) = Ok (size, offsets') ∧
      placed_in_order variables placements offsets' start size ∧
      start ≤ size ∧
      (∀ k v, offsets !! k = Some v → offsets' !! k = Some v).
Proof.
  induction variables as [|local rest IH];
    intros start offsets Hnz Hroom Hdup Hfresh.
  - exists start, offsets, []. split; [done|]. split; [|split; [lia|done]].
    repeat split; intros; simplify_eq.
  - apply Forall_cons in Hnz as [Ha Hrest].
    rewrite fmap_cons in Hdup, Hfresh.
    apply NoDup_cons in Hdup as [Hhead Hdup].
    rewrite local_extent_cons in Hroom.
    pose proof (padding_for_lt start _ Ha) as Hp.
    pose proof (padding_for_aligned start _ Ha) as Hmod.
    set (p := padding_for start (Local_.alignment local)) in *.
    set (off := start + p) in *.
    assert (Hoff : wrap32 off = off) by (apply wrap32_small; lia).
    assert (Hnext : wrap32 (off + Local_.getSize local)
                    = off + Local_.getSize local)
      by (apply wrap32_small; lia).
    assert (Hstep : placeLocal local (start, offsets)
                    = Ok (off + Local_.getSize local,
                          <[Local_.name local := off]> offsets)).
    { unfold placeLocal. rewrite (pad_eq _ _ Ha). simpl.
      fold p. fold off. rewrite Hoff, Hnext.
      rewrite map_insert_fresh; [done|]. apply Hfresh, list_elem_of_here. }
    destruct (IH (off + Local_.getSize local)
                (<[Local_.name local := off]> offsets) Hrest)
      as (size & offsets' & placements & Hrun
          & (Hlen & Hfirst & Hpoint & Hpair) & Hle & Hkeep);
      [lia|done| |].
    { intros k Hk. rewrite lookup_insert_ne; [|by intros <-].
      apply Hfresh. by apply list_elem_of_further. }
    exists size, offsets', (off :: placements).
    split; [by rewrite foldM_cons, Hstep|].
    split; [|split; [lia|]].
    + split; [simpl; by rewrite Hlen|]. split; [|split].
      * intros l o [= <-] [= <-]. reflexivity.
      * intros [|i] l o Hl Ho; simpl in Hl, Ho.
        -- injection Hl as <-. injection Ho as <-.
           split; [apply Hkeep, lookup_insert_eq|].
           split; [exact Hmod|]. lia.
        -- destruct (Hpoint i l o Hl Ho) as (H1 & H2 & H3 & H4).
           repeat split; [done..|lia|done].
      * intros [|i] [|j] l o o' Hij Hl Ho Ho'; simpl in Hl, Ho, Ho';
          try lia.
        -- injection Hl as <-. injection Ho as <-.
           assert (is_Some (rest !! j)) as [l' Hl'].
           { apply lookup_lt_is_Some. rewrite <- Hlen.
             by apply lookup_lt_Some in Ho'. }
           destruct (Hpoint j l' o' Hl' Ho') as (_ & _ & H3 & _). lia.
        -- apply (Hpair i j l o o'); [lia|done..].
    + intros k v Hk. apply Hkeep.
      rewrite lookup_insert_ne; [done|]. intros <-.
      rewrite Hfresh in Hk; [done|apply list_elem_of_here].
Qed.

Lemma map_find_elem_of {V : Type} key (m : list (string * V)) v :
  map_find key m = Some v → (key, v) ∈ m.
Proof.
  unfold map_find. induction m as [|[k v'] m IH]; simpl; [done|].
  destruct (decide (k = key)) as [->|Hne].
  - rewrite bool_decide_eq_true_2 by done. simpl. intros [= ->].
    apply list_elem_of_here.
  - rewrite bool_decide_eq_false_2 by done. intros H.
    apply list_elem_of_further, IH, H.
Qed.

Lemma named_local_names name locals n :
  Forall (fun local => Local_.name (snd local) = fst local) locals →
  n ∈ Local_.name <$> named_local name locals → n = name.
Proof.
  intros Hkeyed. unfold named_local.
  destruct (map_find name locals) as [local|] eqn:Hfind;
    [|intros H; by apply elem_of_nil in H].
  destruct (bool_decide _); [|intros H; by apply elem_of_nil in H].
  intros H. apply list_elem_of_singleton in H as ->.
  apply map_find_elem_of in Hfind.
  rewrite Forall_forall in Hkeyed. exact (Hkeyed _ Hfind).
Qed.

Lemma named_local_NoDup name locals :
  NoDup (Local_.name <$> named_local name locals).
Proof.
  unfold named_local. destruct (map_find name locals); [|constructor].
  destruct (bool_decide _); [apply NoDup_singleton|constructor].
Qed.

Lemma ordinary_locals_names (locals : list (string * Local_.t)) :
  keyed_by_name locals →
  NoDup (Local_.name <$> ordinary_locals locals)
  ∧ ∀ n, n ∈ Local_.name <$> ordinary_locals locals →
         n ∈ fst <$> locals ∧ n ∉ reserved_names.
Proof.
  unfold keyed_by_name, ordinary_locals.
  induction locals as [|local rest IH]; intros [Hkeyed Hdup].
  - split; [constructor|]. intros n H. by apply elem_of_nil in H.
  - apply Forall_cons in Hkeyed as [Hname Hkeyed].
    rewrite fmap_cons in Hdup. apply NoDup_cons in Hdup as [Hhead Hdup].
    destruct (IH (conj Hkeyed Hdup)) as [IHd IHn].
    rewrite filter_cons.
    destruct (decide _) as [[Hres Hspace]|Hno].
    + rewrite !fmap_cons. split.
      * apply NoDup_cons. split; [|done].
        intros Hin. apply IHn in Hin as [Hin _]. rewrite Hname in Hin. done.
      * intros n Hn. apply elem_of_cons in Hn as [->|Hn].
        -- rewrite Hname. split; [apply list_elem_of_here|done].
        -- apply IHn in Hn as [H1 H2].
           split; [by apply list_elem_of_further|done].
    + split; [done|]. intros n Hn. apply IHn in Hn as [H1 H2].
      split; [rewrite fmap_cons; by apply list_elem_of_further|done].
Qed.

Lemma local_order_NoDup (locals : list (string * Local_.t)) :
  keyed_by_name locals → NoDup (Local_.name <$> local_order locals).
Proof.
  intros Hkeyed. pose proof Hkeyed as [Hnames _].
  destruct (ordinary_locals_names locals Hkeyed) as [Hod Hon].
  unfold local_order. rewrite !fmap_app, !NoDup_app.
  assert (Hb := named_local_names BARRIER_NEXT_KERNEL locals).
  assert (Hs := named_local_names SPILL_AREA locals).
  split; [apply named_local_NoDup|]. split.
  - intros n Hn. apply Hb in Hn as ->; [|done].
    rewrite !elem_of_app. intros [H|[H|H]].
    + simpl in H. set_solver.
    + apply Hon in H as [_ H]. apply H. unfold reserved_names. set_solver.
    + apply Hs in H; done.
  - split; [|split].
    + apply NoDup_cons. split; [set_solver|apply NoDup_singleton].
    + intros n Hn. rewrite elem_of_app. intros [H|H].
      * apply Hon in H as [_ H]. apply H. unfold reserved_names.
        simpl in Hn. set_solver.
      * apply Hs in H; [|done]. subst n. simpl in Hn. set_solver.
    + split; [done|]. split; [|apply named_local_NoDup].
      intros n Hn H. apply Hs in H; [|done]. subst n.
      apply Hon in Hn as [_ Hn]. apply Hn. unfold reserved_names. set_solver.
Qed.

(** C7.  When the locals are keyed by their names, the variables placed
    have nonzero alignments and fit in 32 bits, the local pass returns
    with local memory laid out in this order, from offset 0 on and each
    variable below the next: the barrier resume slot when the subkernel
    declares one, the resume status (one [int]), the resume point (one
    [int]), the ordinary locals, and last the spill area when the
    subkernel declares one. *)
Theorem local_layout (kernel : PTXKernel.t) (metadata : Metadata.t) :
  keyed_by_name (PTXKernel.locals kernel) →
  Forall (fun local => Local_.alignment local ≠ 0)
    (local_order (PTXKernel.locals kernel)) →
  local_extent (local_order (PTXKernel.locals kernel)) < 2 ^ 32 →
  local_pass_spec kernel metadata.
Proof.
  intros Hkeyed Hnz Hroom.
  destruct (placeLocals_spec (local_order (PTXKernel.locals kernel)) 0 ∅)
    as (size & offsets & placements & Hrun & Hplaced & _ & _);
    [done|by rewrite N.add_0_l|by apply local_order_NoDup
    |intros; apply lookup_empty|].
  rewrite <- layoutLocals_order in Hrun.
  exists (set_cfg kernel
            (map_cfg (mapSpaceInstruction Local offsets)
               (PTXKernel.cfg kernel))),
    (set_localSize metadata size), offsets, placements.
  split; [|split; [exact Hrun|exact Hplaced]].
  unfold setupLocalMemoryReferences. by rewrite Hrun.
Qed.

Lemma local_layout_witness :
  keyed_by_name (PTXKernel.locals local_kernel)
  ∧ Forall (fun local => Local_.alignment local ≠ 0)
      (local_order (PTXKernel.locals local_kernel))
  ∧ local_extent (local_order (PTXKernel.locals local_kernel)) < 2 ^ 32
  ∧ local_pass_spec local_kernel emptyMetadata.
Proof.
  assert (H1 : keyed_by_name (PTXKernel.locals local_kernel)).
  { split; [repeat constructor|].
    refine (bool_decide_unpack _ _). vm_compute. exact I. }
  assert (H2 : Forall (fun local => Local_.alignment local ≠ 0)
                 (local_order (PTXKernel.locals local_kernel)))
    by (repeat constructor; discriminate).
  assert (H3 : local_extent (local_order (PTXKernel.locals local_kernel))
               < 2 ^ 32) by reflexivity.
  split; [exact H1|]. split; [exact H2|]. split; [exact H3|].
  exact (local_layout local_kernel emptyMetadata H1 H2 H3).
Defined.

(** The layout of [local_kernel]: the barrier slot at 0, the status at 4,
    the point at 8, the ordinary locals at 16 and 32, the spill area last
    at 40, and 104 bytes in all. *)
Example local_kernel_layout :
  ∃ offsets,
    layoutLocals (PTXKernel.locals local_kernel) = Ok (104, offsets) ∧
    offsets !! BARRIER_NEXT_KERNEL = Some 0 ∧
    offsets !! RESUME_STATUS = Some 4 ∧
    offsets !! RESUME_POINT = Some 8 ∧
    offsets !! "buffer" = Some 16 ∧
    offsets !! "counter" = Some 32 ∧
    offsets !! SPILL_AREA = Some 40.
Proof. eexists. split; [reflexivity|]. repeat split; vm_compute; reflexivity. Qed.

(** * The translation cache *)

(** ** The hit path *)

(** A call for a key the cache holds returns the translation it holds and
    leaves the cache as it is. *)
Lemma getOrInsertTranslation_hit {LLVM : Type} (backend : Backend LLVM)
    (s : Cache.t LLVM) warpsize subkernelId specialization translation :
  cached s subkernelId warpsize = Some translation →
  getOrInsertTranslation backend warpsize subkernelId specialization s
  = Return translation s.
Proof.
  intros Hhit. unfold getOrInsertTranslation, cached in *.
  cbn. unfold mbind, option_bind in *. cbn. by rewrite Hhit.
Qed.

(** ** Registration *)

(** C2 fails on the code.  After the module is loaded, the first
    registration of the kernel at address 50 builds one translated kernel
    and calls [translate] once for each of its two subkernels; the second
    registration finds no entry for the kernel in its module, builds a
    second translated kernel and calls [translate] twice more. *)
Theorem registerKernel_twice :
  ∃ s1 s2 s3,
    loadModule emptyModule (Some example_device) empty_cache
      = Return true s1 ∧
    registerKernel example_bytes (example_backend Sound) 50 s1
      = Return tt s2 ∧
    registerKernel example_bytes (example_backend Sound) 50 s2
      = Return tt s3 ∧
    size (Heap.TranslatedKernels (Cache.heap s2)) = 1%nat ∧
    translate_calls (Cache.llvm s2) = 2 ∧
    size (Heap.TranslatedKernels (Cache.heap s3)) = 2%nat ∧
    translate_calls (Cache.llvm s3) = 4 ∧
    Cache.kernels s2 !! 50 = Some 100 ∧
    Cache.kernels s3 !! 50 = Some 103.
Proof.
  eexists _, _, _.
  split; [vm_compute; reflexivity|].
  split; [vm_compute; reflexivity|].
  split; [vm_compute; reflexivity|].
  repeat split; vm_compute; reflexivity.
Qed.

(** ** Call targets *)

Lemma checkCallTarget_eq ptx u :
  checkCallTarget ptx u
  = if unsupported_call ptx
    then Fault (AssertionFailed "arbitrary function calls not yet supported")
    else Ok tt.
Proof.
  unfold checkCallTarget, unsupported_call. destruct u.
  destruct (bool_decide (opcode ptx = Call)),
    (bool_decide (opcode ptx = Mov)), (tailCall ptx),
    (bool_decide (addressMode (a ptx) = FunctionName)),
    (bool_decide (identifier (a ptx) = DIVERGENT)); reflexivity.
Qed.

(** The call-target pass is a search for an unsupported call. *)
Lemma setupCallTargets_eq {Cache : Type} (kernel : PTXKernel.t)
    (translationCache : Cache) :
  setupCallTargets kernel translationCache
  = if existsb unsupported_call (concat (PTXKernel.cfg kernel))
    then Fault (AssertionFailed "arbitrary function calls not yet supported")
    else Ok kernel.
Proof.
  unfold setupCallTargets. rewrite foldM_concat.
  induction (concat (PTXKernel.cfg kernel)) as [|ptx rest IH]; [done|].
  rewrite foldM_cons, checkCallTarget_eq. simpl existsb.
  destruct (unsupported_call ptx); simpl; [done|exact IH].
Qed.

Lemma passed_over_supported ptx :
  passed_over ptx → unsupported_call ptx = false.
Proof.
  intros Hok. destruct (unsupported_call ptx) eqn:Hbad; [|done].
  unfold unsupported_call in Hbad.
  rewrite !andb_true_iff, orb_true_iff, !negb_true_iff in Hbad.
  destruct Hbad as [[[Hop Htail] Hmode] Hname].
  apply bool_decide_eq_true_1 in Hmode.
  apply bool_decide_eq_false_1 in Hname.
  destruct Hok as [H|[H|[H|[H1 H2]]]]; [congruence|done|done|].
  destruct Hop as [Hop|Hop]; apply bool_decide_eq_true_1 in Hop; done.
Qed.

(** C8, as amended.  The call-target pass changes no instruction.  It
    returns the kernel as it is when every instruction is passed over: a
    tail call, a call of [ptx.warp.divergent], an instruction whose
    operand [a] is no function name, or one that is neither a [Call] nor
    a [Mov].  It fails an assertion when a [Call] or [Mov] that is not a
    tail call has a function name other than [ptx.warp.divergent] for its
    operand [a], whatever the translation cache holds. *)
Theorem call_targets {Cache : Type} (kernel : PTXKernel.t)
    (translationCache : Cache) :
  ((∀ ptx, ptx ∈ concat (PTXKernel.cfg kernel) → passed_over ptx) →
   setupCallTargets kernel translationCache = Ok kernel)
  ∧ (∀ ptx,
       ptx ∈ concat (PTXKernel.cfg kernel) →
       unsupported_call ptx = true →
       setupCallTargets kernel translationCache
       = Fault
           (AssertionFailed "arbitrary function calls not yet supported")).
Proof.
  rewrite setupCallTargets_eq. split.
  - intros Hall. destruct (existsb _ _) eqn:E; [|done].
    apply existsb_exists in E as (ptx & Hin & Hbad).
    apply list_elem_of_In, Hall, passed_over_supported in Hin. congruence.
  - intros ptx Hin Hbad.
    assert (E : existsb unsupported_call (concat (PTXKernel.cfg kernel))
                = true).
    { apply existsb_exists. exists ptx. split; [|done].
      by apply list_elem_of_In. }
    by rewrite E.
Qed.

Lemma call_targets_witness :
  setupCallTargets example_subkernel translated_cache = Ok example_subkernel
  ∧ setupCallTargets caller_subkernel translated_cache
    = Fault (AssertionFailed "arbitrary function calls not yet supported").
Proof.
  split.
  - apply (proj1 (call_targets example_subkernel translated_cache)).
    intros ptx Hin. apply list_elem_of_singleton in Hin as ->.
    right. right. left. discriminate.
  - apply (proj2 (call_targets caller_subkernel translated_cache)
             (mkInstruction Call (argumentList []) (functionName "callee")
                (argumentList []) emptyOperand AddressSpace_Invalid false)).
    + apply list_elem_of_here.
    + reflexivity.
Defined.

(** C8 as stated fails: [caller_subkernel] calls [callee], a subkernel of
    the kernel the executive owns in [translated_cache], and the pass
    fails its assertion. *)
Lemma call_targets_counterexample :
  ¬ calls_resolved caller_subkernel translated_cache.
Proof.
  intros Hclaim. destruct Hclaim as [kernel' Hrun].
  - intros ptx Hin _.
    apply list_elem_of_singleton in Hin as ->.
    exists 50, example_kernel, (8, callee_subkernel).
    split; [reflexivity|]. split; [|reflexivity].
    apply list_elem_of_further, list_elem_of_here.
  - rewrite setupCallTargets_eq in Hrun. discriminate Hrun.
Qed.

(** ** Reasoning on the operations *)

Section PreservationLemmas.

Context {LLVM : Type}.

Variable R : Cache.t LLVM -> Cache.t LLVM -> Prop.
Context `{!PreOrder R}.

Hypothesis R_llvm : ∀ s l, R s (set_llvm s l).

Lemma bind_Return {A B : Type} (m : @M LLVM A) (k : A -> @M LLVM B)
    s a s1 :
  m s = Return a s1 → (m ≫= k) s = k a s1.
Proof. intros H. unfold mbind, M_bind. by rewrite H. Qed.

Lemma bind_inv_Return {A B : Type} (m : @M LLVM A) (k : A -> @M LLVM B)
    s b s' :
  (m ≫= k) s = Return b s' →
  ∃ a s1, m s = Return a s1 ∧ k a s1 = Return b s'.
Proof.
  unfold mbind, M_bind. destruct (m s) as [a s1| |]; [|done..].
  intros H. by exists a, s1.
Qed.

Lemma bind_inv_Throw {A B : Type} (m : @M LLVM A) (k : A -> @M LLVM B)
    s message s' :
  (m ≫= k) s = Throw message s' →
  m s = Throw message s'
  ∨ ∃ a s1, m s = Return a s1 ∧ k a s1 = Throw message s'.
Proof.
  unfold mbind, M_bind.
  destruct (m s) as [a s1|message1 s1|]; simpl.
  - intros H. right. by exists a, s1.
  - intros [= -> ->]. by left.
  - done.
Qed.

Lemma preserves_ret {A : Type} (a : A) : preserves R (mret a).
Proof. intros s. simpl. reflexivity. Qed.

Lemma preserves_bind {A B : Type} (m : @M LLVM A) (k : A -> @M LLVM B) :
  preserves R m → (∀ a, preserves R (k a)) → preserves R (m ≫= k).
Proof.
  intros Hm Hk s. specialize (Hm s). unfold mbind, M_bind.
  destruct (m s) as [a s1| |]; [|done..].
  specialize (Hk a s1). destruct (k a s1); [| |done]; by etrans.
Qed.

Lemma preserves_get : preserves R get.
Proof. intros s. simpl. reflexivity. Qed.

Lemma preserves_abort {A : Type} f : preserves R (abort (A := A) f).
Proof. by intros s. Qed.

Lemma preserves_throw {A : Type} message :
  preserves R (throw (A := A) message).
Proof. intros s. simpl. reflexivity. Qed.

Lemma preserves_assertM cond what : preserves R (assertM cond what).
Proof. destruct cond; [apply preserves_ret|apply preserves_abort]. Qed.

Lemma preserves_liftR {A : Type} (r : result A) : preserves R (liftR r).
Proof. destruct r; [apply preserves_ret|apply preserves_abort]. Qed.

Lemma preserves_deref {A : Type} (p : option A) what :
  preserves R (deref p what).
Proof. destruct p; [apply preserves_ret|apply preserves_abort]. Qed.

Lemma preserves_liftL {A : Type} (op : LLVM -> outcome LLVM A) :
  preserves R (liftL op).
Proof.
  intros s. unfold liftL. destruct (op (Cache.llvm s)); [| |done];
    apply R_llvm.
Qed.

Lemma preserves_modify f : (∀ s, R s (f s)) → preserves R (modify f).
Proof. intros Hf s. apply Hf. Qed.

Lemma preserves_try_catch {A : Type} (body : @M LLVM A) (handler : @M LLVM unit) :
  preserves R body → preserves R handler →
  preserves R (try_catch body handler).
Proof.
  intros Hb Hh s. specialize (Hb s). unfold try_catch.
  destruct (body s) as [a s1|message s1|]; [done| |done].
  specialize (Hh s1). destruct (handler s1); [| |done]; by etrans.
Qed.

Lemma preserves_forM {A : Type} (l : list A) (body : A -> @M LLVM unit) :
  (∀ x, preserves R (body x)) → preserves R (forM l body).
Proof.
  intros Hbody. induction l as [|x l IH]; [apply preserves_ret|].
  simpl. apply preserves_bind; [apply Hbody|]. intros _. exact IH.
Qed.

Lemma preserves_on_throw_weaken {A : Type} (m : @M LLVM A) :
  preserves R m → preserves_on_throw R m.
Proof. intros Hm s message s' H. specialize (Hm s). by rewrite H in Hm. Qed.

Lemma never_throws_on_throw {A : Type} (m : @M LLVM A) :
  never_throws m → preserves_on_throw R m.
Proof. intros Hm s message s' H. by apply Hm in H. Qed.

Lemma preserves_on_throw_bind {A B : Type} (m : @M LLVM A) (k : A -> @M LLVM B) :
  preserves R m → (∀ a, preserves_on_throw R (k a)) →
  preserves_on_throw R (m ≫= k).
Proof.
  intros Hm Hk s message s' H.
  apply bind_inv_Throw in H as [H|(a & s1 & H1 & H2)].
  - specialize (Hm s). by rewrite H in Hm.
  - specialize (Hm s). rewrite H1 in Hm. etrans; [exact Hm|].
    by apply (Hk a s1 message).
Qed.

Lemma preserves_on_throw_bind_last {A B : Type} (m : @M LLVM A) (k : A -> @M LLVM B) :
  preserves_on_throw R m → (∀ a, never_throws (k a)) →
  preserves_on_throw R (m ≫= k).
Proof.
  intros Hm Hk s message s' H.
  apply bind_inv_Throw in H as [H|(a & s1 & H1 & H2)].
  - by apply (Hm s message).
  - by apply Hk in H2.
Qed.

Lemma preserves_on_throw_try_catch {A : Type} (body : @M LLVM A)
    (handler : @M LLVM unit) :
  preserves_on_throw R body → preserves R handler →
  preserves_on_throw R (try_catch body handler).
Proof.
  intros Hb Hh s message s' H. unfold try_catch in H.
  destruct (body s) as [a s1|message1 s1|] eqn:E; [done| |done].
  specialize (Hb s message1 s1 E). specialize (Hh s1).
  destruct (handler s1) as [u s2|message2 s2|]; [| |done];
    injection H as <- <-; by etrans.
Qed.

Lemma never_throws_ret {A : Type} (a : A) :
  never_throws (mret a : @M LLVM A).
Proof. by intros s message s'. Qed.

Lemma never_throws_bind {A B : Type} (m : @M LLVM A) (k : A -> @M LLVM B) :
  never_throws m → (∀ a, never_throws (k a)) → never_throws (m ≫= k).
Proof.
  intros Hm Hk s message s' H.
  apply bind_inv_Throw in H as [H|(a & s1 & _ & H)].
  - by apply Hm in H.
  - by apply Hk in H.
Qed.

Lemma never_throws_get : never_throws (get (LLVM := LLVM)).
Proof. by intros s message s'. Qed.

Lemma never_throws_modify f : never_throws (modify (LLVM := LLVM) f).
Proof. by intros s message s'. Qed.

Lemma never_throws_deref {A : Type} (p : option A) what :
  never_throws (deref (LLVM := LLVM) p what).
Proof. by destruct p; intros s message s'. Qed.

End PreservationLemmas.

#[global] Instance same_modules_preorder {LLVM : Type} :
  PreOrder (@same_modules LLVM).
Proof.
  split; [by intros s|]. intros s1 s2 s3 H1 H2.
  unfold same_modules in *. congruence.
Qed.

#[global] Instance same_tables_preorder {LLVM : Type} :
  PreOrder (@same_tables LLVM).
Proof.
  split; [by intros s|]. intros s1 s2 s3 [H1 H1'] [H2 H2'].
  split; intros; [rewrite H2, H1|rewrite H2', H1']; done.
Qed.

(** Takes apart an operation built from the primitives of the monad. *)
Ltac preserves_step R_facts :=
  first
    [ apply preserves_ret; typeclasses eauto
    | apply preserves_get; typeclasses eauto
    | apply preserves_abort
    | apply preserves_throw; typeclasses eauto
    | apply preserves_assertM; typeclasses eauto
    | apply preserves_liftR; typeclasses eauto
    | apply preserves_deref; typeclasses eauto
    | apply preserves_liftL; [R_facts]
    | apply preserves_modify; [R_facts]
    | apply preserves_bind; [typeclasses eauto| |intros ?]
    | apply preserves_try_catch; [typeclasses eauto| |]
    | apply preserves_forM; [typeclasses eauto|intros ?]
    | match goal with
      | |- preserves _ (match ?x with _ => _ end) => destruct x
      | |- preserves _ (if ?b then _ else _) => destruct b
      end ].

Ltac same_modules_facts := intros; reflexivity.

Section Registration.

Context {LLVM : Type}.
Variable PTXOperand_bytes : DataType -> N.
Variable backend : Backend LLVM.

Lemma alloc_same_modules : preserves (@same_modules LLVM) alloc.
Proof. by intros s. Qed.

Lemma registerKernel_same_modules (kernel : ptr) :
  preserves same_modules (registerKernel PTXOperand_bytes backend kernel).
Proof.
  unfold registerKernel, _translateKernel, translateSubkernelEntry,
    translateSubkernel, generateMetadata, new_TranslatedKernel,
    read_subkernelPtx, write_subkernelPtx, read_TranslatedKernel,
    write_TranslatedKernel, read_Metadata, write_Metadata, delete_Metadata,
    read_Kernel, write_Kernel, modify_heap.
  repeat first [apply alloc_same_modules
               |preserves_step same_modules_facts].
Qed.

(** No registration adds a kernel to the kernels of its module: whether
    it returns or throws, [registerKernel] leaves the registry of modules
    as it found it, so the test it starts with has the same outcome the
    next time. *)
Lemma registerKernel_modules (kernel : ptr) (s s' : Cache.t LLVM) :
  registerKernel PTXOperand_bytes backend kernel s = Return tt s' →
  Cache.modules s' = Cache.modules s.
Proof.
  intros H. pose proof (registerKernel_same_modules kernel s) as Hp.
  by rewrite H in Hp.
Qed.

End Registration.

(** ** Specialization *)

Ltac same_tables_facts := intros; split; intros; reflexivity.

Section Specialization.

Context {LLVM : Type}.
Variable backend : Backend LLVM.

Lemma alloc_same_tables : preserves (@same_tables LLVM) alloc.
Proof. intros s. split; intros; reflexivity. Qed.

Ltac same_tables_tac :=
  repeat first [ apply alloc_same_tables
               | progress cbv zeta
               | preserves_step same_tables_facts ].

Lemma read_TranslatedKernel_same_tables p :
  preserves (@same_tables LLVM) (read_TranslatedKernel p).
Proof. unfold read_TranslatedKernel. same_tables_tac. Qed.

Lemma read_Translation_same_tables p :
  preserves (@same_tables LLVM) (read_Translation p).
Proof. unfold read_Translation. same_tables_tac. Qed.

Lemma write_Translation_same_tables p t :
  preserves (@same_tables LLVM) (write_Translation p t).
Proof. unfold write_Translation, modify_heap. same_tables_tac. Qed.

Lemma delete_Translation_same_tables p :
  preserves (@same_tables LLVM) (delete_Translation p).
Proof. unfold delete_Translation, modify_heap. same_tables_tac. Qed.

Lemma cloneAndOptimizeTranslation_same_tables translatedKernel translation
    optimization warpSize :
  preserves same_tables
    (cloneAndOptimizeTranslation backend translatedKernel translation
       optimization warpSize).
Proof.
  unfold cloneAndOptimizeTranslation.
  destruct (optimizationSwitch optimization) as [level space].
  repeat first [ apply read_TranslatedKernel_same_tables
               | apply read_Translation_same_tables
               | apply write_Translation_same_tables
               | progress cbv zeta
               | preserves_step same_tables_facts ].
Qed.

Lemma linkLLVMModule_same_tables module kernel device :
  preserves same_tables (linkLLVMModule backend module kernel device).
Proof. unfold linkLLVMModule, linkGlobal. same_tables_tac. Qed.

Lemma write_subkernelEntry_never_throws translatedKernel subkernelId
    subkernel :
  never_throws
    (write_subkernelEntry (LLVM := LLVM) translatedKernel subkernelId
       subkernel).
Proof.
  unfold write_subkernelEntry, read_TranslatedKernel, write_TranslatedKernel,
    modify_heap.
  repeat first [ apply never_throws_bind; [|intros ?]
               | apply never_throws_get
               | apply never_throws_deref
               | apply never_throws_modify ].
Qed.

(** An exception leaves the [try] block before the tables are written. *)
Lemma specialize_on_throw translatedKernel subkernelId warpSize translation :
  preserves_on_throw same_tables
    (specialize backend translatedKernel subkernelId warpSize translation).
Proof.
  unfold specialize.
  repeat first
    [ apply preserves_on_throw_bind;
      [typeclasses eauto
      |solve [ apply read_TranslatedKernel_same_tables
             | apply read_Translation_same_tables
             | apply write_Translation_same_tables
             | apply cloneAndOptimizeTranslation_same_tables
             | apply linkLLVMModule_same_tables
             | preserves_step same_tables_facts ]
      |intros ?]
    | progress cbv zeta ].
  apply (never_throws_on_throw same_tables).
  apply never_throws_bind.
  - apply write_subkernelEntry_never_throws.
  - intros _. apply never_throws_modify.
Qed.

Lemma read_TranslatedKernel_inv p (s s' : Cache.t LLVM) tk :
  read_TranslatedKernel p s = Return tk s' →
  s' = s ∧ Heap.TranslatedKernels (Cache.heap s) !! p = Some tk.
Proof.
  unfold read_TranslatedKernel, get, deref, mbind, M_bind, mret, M_ret, abort.
  destruct (Heap.TranslatedKernels (Cache.heap s) !! p); [|done].
  by intros [= -> ->].
Qed.

Lemma write_subkernelEntry_inv p subkernelId subkernel
    (s s' : Cache.t LLVM) :
  write_subkernelEntry p subkernelId subkernel s = Return tt s' →
  ∃ tk,
    Heap.TranslatedKernels (Cache.heap s) !! p = Some tk ∧
    Cache.translationCache s' = Cache.translationCache s ∧
    Cache.members s' = Cache.members s ∧
    Heap.TranslatedKernels (Cache.heap s')
    = <[p := TranslatedKernel.mk (TranslatedKernel.llvmModule tk)
               (TranslatedKernel.kernel tk) (TranslatedKernel.metadata tk)
               (TranslatedKernel.localMemorySize tk)
               (TranslatedKernel.sharedMemorySize tk)
               (TranslatedKernel.llvmFunction tk)
               (TranslatedKernel.scalarTranslation tk)
               (<[subkernelId := subkernel]>
                  (TranslatedKernel.subkernels tk))]>
        (Heap.TranslatedKernels (Cache.heap s)).
Proof.
  unfold write_subkernelEntry. intros H.
  apply bind_inv_Return in H as (tk & s1 & Hread & H).
  apply read_TranslatedKernel_inv in Hread as [-> Htk].
  exists tk. split; [done|].
  unfold write_TranslatedKernel, modify_heap, modify in H.
  by injection H as <-.
Qed.

(** Creating the entry of a subkernel that has none changes no table. *)
Lemma touch_subkernelEntry_same_tables p subkernelId tk
    (s s' : Cache.t LLVM) :
  Heap.TranslatedKernels (Cache.heap s) !! p = Some tk →
  write_subkernelEntry p subkernelId (subkernelEntry tk subkernelId) s
    = Return tt s' →
  same_tables s s'.
Proof.
  intros Htk H.
  apply write_subkernelEntry_inv in H as (tk' & Htk' & Hcache & _ & Hheap).
  rewrite Htk in Htk'. injection Htk' as <-.
  split.
  - intros S W. unfold cached. by rewrite Hcache.
  - intros q S W. unfold specialized. rewrite Hheap.
    destruct (decide (q = p)) as [->|Hq];
      [|by rewrite lookup_insert_ne].
    rewrite lookup_insert_eq, Htk. cbn.
    destruct (decide (S = subkernelId)) as [->|HS];
      [|by rewrite lookup_insert_ne].
    rewrite lookup_insert_eq. cbn. unfold subkernelEntry.
    by destruct (TranslatedKernel.subkernels tk !! subkernelId).
Qed.

Lemma try_catch_inv_Return {A : Type} (body : @M LLVM A) handler s a s' :
  try_catch body handler s = Return a s' → body s = Return a s'.
Proof.
  unfold try_catch. destruct (body s) as [a1 s1|message s1|]; [done| |done].
  by destruct (handler s1).
Qed.

(** What [_specializeTranslation] leaves behind.  When it returns, the
    translation is in both tables, in the cache under the member
    [subkernelid].  When it throws, the tables hold what they held. *)
Lemma specializeTranslation_outcome translatedKernel subkernelId
    optimizationLevel warpSize specialization (s : Cache.t LLVM) :
  match _specializeTranslation backend translatedKernel subkernelId
          optimizationLevel warpSize specialization s with
  | Return translation s' =>
      cached s' (Members.subkernelid (Cache.members s')) warpSize
        = Some translation
      ∧ specialized s' translatedKernel subkernelId warpSize
        = Some translation
  | Throw _ s' => same_tables s s'
  | Abort _ => True
  end.
Proof.
  destruct (_specializeTranslation _ _ _ _ _ _ s)
    as [translation s'|message s'|f] eqn:H; [| |done];
    unfold _specializeTranslation in H.
  - repeat (apply bind_inv_Return in H as (? & ? & ? & H)).
    injection H as -> ->.
    match goal with
    | Htry : try_catch _ _ _ = Return _ _ |- _ =>
        apply try_catch_inv_Return in Htry; rename Htry into Hbody
    end.
    unfold specialize in Hbody.
    repeat (apply bind_inv_Return in Hbody as (? & ? & ? & Hbody)).
    repeat match goal with u : () |- _ => destruct u end.
    unfold modify in Hbody. injection Hbody as <-.
    match goal with
    | Hw : write_subkernelEntry _ _ (TranslatedSubkernel.mk _ _ _ _) _
           = Return _ _ |- _ =>
        apply write_subkernelEntry_inv in Hw
          as (tk & Htk & Hcache & Hmembers & Hheap)
    end.
    split.
    + unfold cached, publish. cbn. rewrite lookup_insert_eq. cbn.
      apply lookup_insert_eq.
    + unfold specialized. cbn. rewrite Hheap, lookup_insert_eq. cbn.
      rewrite lookup_insert_eq. cbn. apply lookup_insert_eq.
  - apply bind_inv_Throw in H as [H|(tk & s0 & Hread & H)].
    { pose proof (read_TranslatedKernel_same_tables translatedKernel s) as Hp.
      by rewrite H in Hp. }
    apply read_TranslatedKernel_inv in Hread as [-> Htk].
    cbv zeta in H.
    apply bind_inv_Throw in H as [H|([] & s1 & Hw & H)].
    { by apply write_subkernelEntry_never_throws in H. }
    etrans; [exact (touch_subkernelEntry_same_tables _ _ _ _ _ Htk Hw)|].
    revert H. generalize s1 message s'.
    change (preserves_on_throw same_tables
      (translation ← alloc;
       s ← get;
       _ ← write_Translation translation
             (Translation.mk None None
                (TranslatedSubkernel.metadata
                   (subkernelEntry tk subkernelId))
                (Heap.indeterminate (Cache.heap s)));
       _ ← try_catch
             (specialize backend translatedKernel subkernelId warpSize
                translation)
             (tk ← read_TranslatedKernel translatedKernel;
              _ ← modify (fun s =>
                    set_llvm s
                      (removeModule backend (TranslatedKernel.llvmModule tk)
                         (Cache.llvm s)));
              delete_Translation translation);
       mret translation)).
    apply preserves_on_throw_bind;
      [typeclasses eauto|apply alloc_same_tables|intros translation].
    apply preserves_on_throw_bind;
      [typeclasses eauto|apply preserves_get; typeclasses eauto|intros s2].
    apply preserves_on_throw_bind;
      [typeclasses eauto|apply write_Translation_same_tables|intros _].
    apply preserves_on_throw_bind_last; [|intros _; apply never_throws_ret].
    apply preserves_on_throw_try_catch;
      [typeclasses eauto|apply specialize_on_throw|].
    apply preserves_bind;
      [typeclasses eauto|apply read_TranslatedKernel_same_tables|intros tk'].
    apply preserves_bind;
      [typeclasses eauto
      |apply preserves_modify; same_tables_facts
      |intros _; apply delete_Translation_same_tables].
Qed.

End Specialization.

(** * Further theorems *)

(** ** [pad] *)

(** X1.  [pad] rounds a size up to the next multiple of a nonzero alignment:
    when this does not overflow 32 bits, the new size is the old one plus
    the padding returned, the padding is less than the alignment, the new
    size is the least multiple of the alignment that is not below the old
    size, and padding it again adds nothing.  A zero alignment is a
    division by zero. *)
Theorem pad_rounds_up (size alignment : N) :
  alignment ≠ 0 →
  size + alignment ≤ 2 ^ 32 →
  ∃ size' padding,
    pad size alignment = Ok (size', padding) ∧
    size' = size + padding ∧
    padding < alignment ∧
    size' mod alignment = 0 ∧
    (∀ m, size ≤ m → m mod alignment = 0 → size' ≤ m) ∧
    pad size' alignment = Ok (size', 0) ∧
    pad size 0 = Fault DivisionByZero.
Proof.
  intros Ha Hroom.
  pose proof (padding_for_lt size alignment Ha) as Hlt.
  pose proof (padding_for_aligned size alignment Ha) as Hmod.
  set (p := padding_for size alignment) in *.
  assert (Hsmall : wrap32 (size + p) = size + p)
    by (apply wrap32_small; lia).
  exists (size + p), p.
  split; [rewrite (pad_eq size alignment Ha); fold p; by rewrite Hsmall|].
  split; [done|]. split; [done|]. split; [done|]. split; [|split; [|done]].
  - intros m Hle Hm.
    destruct (N.le_gt_cases (size + p) m) as [|Hgt]; [done|exfalso].
    pose proof (N.div_mod m alignment Ha) as Em.
    pose proof (N.div_mod (size + p) alignment Ha) as Es.
    rewrite Hm in Em. rewrite Hmod in Es.
    set (q := m / alignment) in *. set (r := (size + p) / alignment) in *.
    clearbody p q r. rewrite N.add_0_r in Em, Es.
    assert (Hqr : q < r) by nia.
    assert (Hstep : alignment * (q + 1) ≤ alignment * r)
      by (apply N.mul_le_mono_l; lia).
    lia.
  - rewrite (pad_eq (size + p) alignment Ha).
    assert (Hzero : padding_for (size + p) alignment = 0).
    { unfold padding_for. rewrite Hmod, N.sub_0_r.
      by apply N.Div0.mod_same. }
    rewrite Hzero, N.add_0_r. by rewrite Hsmall.
Qed.

Lemma pad_rounds_up_witness :
  (8 : N) ≠ 0 ∧ 4 + 8 ≤ 2 ^ 32
  ∧ ∃ size' padding,
      pad 4 8 = Ok (size', padding) ∧
      size' = 4 + padding ∧
      padding < 8 ∧
      size' mod 8 = 0 ∧
      (∀ m, 4 ≤ m → m mod 8 = 0 → size' ≤ m) ∧
      pad size' 8 = Ok (size', 0) ∧
      pad 4 0 = Fault DivisionByZero.
Proof.
  assert (H1 : (8 : N) ≠ 0) by discriminate.
  assert (H2 : 4 + 8 ≤ 2 ^ 32) by (vm_compute; discriminate).
  split; [exact H1|]. split; [exact H2|].
  exact (pad_rounds_up 4 8 H1 H2).
Defined.

(** ** Global memory *)

Lemma mapGlobalInstruction_idemp module ptx :
  mapGlobalInstruction module (mapGlobalInstruction module ptx)
  = mapGlobalInstruction module ptx.
Proof.
  unfold mapGlobalInstruction.
  destruct (bool_decide (opcode ptx = Mov)
            && (bool_decide (addressMode (a ptx) = Address)
                || bool_decide (addressMode (a ptx) = Indirect))) eqn:Hguard;
    [|by rewrite Hguard].
  destruct (map_find (identifier (a ptx)) (Module_.globals module))
    as [statement|] eqn:Hfind; [|by rewrite Hguard, Hfind].
  destruct (bool_decide (PTXStatement.directive statement = Directive_Global))
    eqn:Hdir; [|by rewrite Hguard, Hfind, Hdir].
  change (opcode (set_addressSpace ptx Global)) with (opcode ptx).
  change (a (set_addressSpace ptx Global)) with (a ptx).
  by rewrite Hguard, Hfind, Hdir.
Qed.

(** X2.  The global pass is idempotent, and it changes nothing but the address
    space of an instruction: a [Mov] whose operand [a], in address or
    indirect mode, names a variable the module declares with the
    directive [.global] gets the global address space; every operand and
    every other instruction is kept. *)
Theorem global_pass (kernel : PTXKernel.t) :
  setupGlobalMemoryReferences (setupGlobalMemoryReferences kernel)
  = setupGlobalMemoryReferences kernel
  ∧ ∀ (bi ii : nat) ptx,
      instruction_at (PTXKernel.cfg kernel) bi ii = Some ptx →
      ∃ ptx',
        instruction_at
          (PTXKernel.cfg (setupGlobalMemoryReferences kernel)) bi ii
        = Some ptx' ∧
        opcode ptx' = opcode ptx ∧ tailCall ptx' = tailCall ptx ∧
        d ptx' = d ptx ∧ a ptx' = a ptx ∧ b ptx' = b ptx ∧ c ptx' = c ptx ∧
        (addressSpace ptx' = addressSpace ptx ∨
         addressSpace ptx' = Global ∧ opcode ptx = Mov ∧
         ∃ statement,
           map_find (identifier (a ptx))
             (Module_.globals (PTXKernel.module kernel)) = Some statement ∧
           PTXStatement.directive statement = Directive_Global).
Proof.
  split.
  - unfold setupGlobalMemoryReferences, set_cfg. simpl. f_equal.
    rewrite <- list_fmap_compose. apply list_fmap_ext. intros _ block _.
    simpl. rewrite <- list_fmap_compose. apply list_fmap_ext.
    intros _ ptx _. apply mapGlobalInstruction_idemp.
  - intros bi ii ptx Hat.
    exists (mapGlobalInstruction (PTXKernel.module kernel) ptx).
    split.
    { change (PTXKernel.cfg (setupGlobalMemoryReferences kernel))
        with (map_cfg (mapGlobalInstruction (PTXKernel.module kernel))
                (PTXKernel.cfg kernel)).
      by rewrite instruction_at_map, Hat. }
    unfold mapGlobalInstruction.
    destruct (bool_decide (opcode ptx = Mov) && _) eqn:Hguard;
      [|by repeat split; try left].
    destruct (map_find _ _) as [statement|] eqn:Hfind;
      [|by repeat split; try left].
    destruct (bool_decide (_ = Directive_Global)) eqn:Hdir;
      [|by repeat split; try left].
    repeat split. right.
    apply andb_true_iff in Hguard as [Hop _].
    apply bool_decide_eq_true_1 in Hop, Hdir.
    split; [done|]. split; [done|]. by exists statement.
Qed.

(** ** [loadModule] *)

(** X3.  [loadModule] always returns [true]; afterwards the registry holds,
    under the name of the module, the module and the device with no
    kernels, and what it holds under other names is kept.  The last load
    wins: loading two modules of one name leaves the cache as the second
    load alone does. *)
Theorem loadModule_last_wins {LLVM : Type} (module1 module2 : Module_.t)
    (device1 device2 : option Device.t) (s : Cache.t LLVM) :
  Module_.name module1 = Module_.name module2 →
  (∃ s',
     loadModule module2 device2 s = Return true s' ∧
     Cache.modules s' !! Module_.name module2
       = Some (ModuleMetadata.mk module2 device2 ∅) ∧
     ∀ name, name ≠ Module_.name module2 →
             Cache.modules s' !! name = Cache.modules s !! name)
  ∧ (_ ← loadModule module1 device1; loadModule module2 device2) s
    = loadModule module2 device2 s.
Proof.
  intros Hname. split.
  - eexists. split; [reflexivity|]. simpl. split.
    + apply lookup_insert_eq.
    + intros name Hne. by rewrite lookup_insert_ne.
  - unfold loadModule, modify, mbind, M_bind, mret, M_ret. simpl.
    unfold set_modules. simpl. by rewrite Hname, insert_insert_eq.
Qed.

Lemma loadModule_last_wins_witness :
  Module_.name emptyModule = Module_.name emptyModule
  ∧ (_ ← loadModule emptyModule None;
     loadModule emptyModule (Some example_device)) empty_cache
    = loadModule emptyModule (Some example_device) empty_cache.
Proof.
  split; [reflexivity|].
  exact (proj2 (loadModule_last_wins emptyModule emptyModule None
                  (Some example_device) empty_cache eq_refl)).
Defined.

(** ** What registration and specialization leave alone *)

#[global] Instance registration_frame_preorder {LLVM : Type} :
  PreOrder (@registration_frame LLVM).
Proof.
  split; [by intros s|]. intros s1 s2 s3 H1 H2.
  unfold registration_frame in *. intuition congruence.
Qed.

#[global] Instance same_registries_preorder {LLVM : Type} :
  PreOrder (@same_registries LLVM).
Proof.
  split; [by intros s|]. intros s1 s2 s3 H1 H2.
  unfold same_registries in *. intuition congruence.
Qed.

Ltac frame_facts := intros; repeat split; reflexivity.

Section Frames.

Context {LLVM : Type}.
Variable PTXOperand_bytes : DataType -> N.
Variable backend : Backend LLVM.

Lemma alloc_registration_frame : preserves (@registration_frame LLVM) alloc.
Proof. by intros s. Qed.

Lemma alloc_same_registries : preserves (@same_registries LLVM) alloc.
Proof. by intros s. Qed.

(** X4.  Whether it returns or throws, [registerKernel] leaves the registry of
    modules and the cache of translations as it found them: it never
    records the kernel in its module, and it specializes nothing. *)
Theorem registerKernel_frame (kernel : ptr) (s : Cache.t LLVM) :
  match registerKernel PTXOperand_bytes backend kernel s with
  | Return _ s' | Throw _ s' =>
      Cache.modules s' = Cache.modules s
      ∧ Cache.translationCache s' = Cache.translationCache s
  | Abort _ => True
  end.
Proof.
  revert s. change (preserves registration_frame
                      (registerKernel PTXOperand_bytes backend kernel)).
  unfold registerKernel, _translateKernel, translateSubkernelEntry,
    translateSubkernel, generateMetadata, new_TranslatedKernel,
    read_subkernelPtx, write_subkernelPtx, read_TranslatedKernel,
    write_TranslatedKernel, read_Metadata, write_Metadata, delete_Metadata,
    read_Kernel, write_Kernel, modify_heap.
  repeat first [apply alloc_registration_frame
               |preserves_step frame_facts].
Qed.

Lemma getOrInsertTranslation_same_registries warpsize subkernelId
    specialization :
  preserves same_registries
    (getOrInsertTranslation backend warpsize subkernelId specialization).
Proof.
  unfold getOrInsertTranslation, _specializeTranslation, specialize,
    cloneAndOptimizeTranslation, linkLLVMModule, linkGlobal,
    write_subkernelEntry, read_TranslatedKernel, write_TranslatedKernel,
    read_Translation, write_Translation, delete_Translation, modify_heap.
  repeat first [ apply alloc_same_registries
               | progress cbv zeta
               | preserves_step frame_facts ].
Qed.

(** X5.  Whether it returns or throws, [getOrInsertTranslation] leaves the
    registries and what the layout passes wrote as it found them: the
    modules, the translated kernels of the kernels, the kernels of the
    subkernels, the members, every metadata object and every PTX kernel.
    A specialization derives no layout again. *)
Theorem getOrInsertTranslation_frame warpsize subkernelId specialization
    (s : Cache.t LLVM) :
  match getOrInsertTranslation backend warpsize subkernelId specialization s
  with
  | Return _ s' | Throw _ s' =>
      Cache.modules s' = Cache.modules s
      ∧ Cache.kernels s' = Cache.kernels s
      ∧ Cache.subkernelsToKernel s' = Cache.subkernelsToKernel s
      ∧ Cache.members s' = Cache.members s
      ∧ Heap.Metadatas (Cache.heap s') = Heap.Metadatas (Cache.heap s)
      ∧ Heap.Kernels (Cache.heap s') = Heap.Kernels (Cache.heap s)
  | Abort _ => True
  end.
Proof.
  apply (getOrInsertTranslation_same_registries warpsize subkernelId
           specialization s).
Qed.

(** X6.  The translation a call returns is the one the cache holds afterwards,
    either under the key of the call, when the call was a hit and left the
    cache as it was, or under the members [subkernelid] and [warpSize],
    when the call was a miss; in both cases a second call, for that key,
    returns the same translation and changes nothing. *)
Theorem getOrInsertTranslation_again warpsize subkernelId specialization
    (s s' : Cache.t LLVM) translation :
  getOrInsertTranslation backend warpsize subkernelId specialization s
  = Return translation s' →
  (cached s subkernelId warpsize = Some translation ∧ s' = s
   ∧ ∀ specialization',
       getOrInsertTranslation backend warpsize subkernelId specialization' s'
       = Return translation s')
  ∨ (cached s subkernelId warpsize = None
     ∧ cached s' (Members.subkernelid (Cache.members s))
         (Members.warpSize (Cache.members s)) = Some translation
     ∧ ∀ specialization',
         getOrInsertTranslation backend (Members.warpSize (Cache.members s))
           (Members.subkernelid (Cache.members s)) specialization' s'
         = Return translation s').
Proof.
  intros Hcall.
  pose proof (getOrInsertTranslation_same_registries warpsize subkernelId
                specialization s) as Hframe.
  rewrite Hcall in Hframe. destruct Hframe as (_ & _ & _ & Hmembers & _).
  destruct (cached s subkernelId warpsize) as [hit|] eqn:Hcached.
  - left.
    rewrite (getOrInsertTranslation_hit backend s _ _ _ hit Hcached) in Hcall.
    injection Hcall as -> ->. split; [done|]. split; [done|].
    intros specialization'. by apply getOrInsertTranslation_hit.
  - right. split; [done|].
    assert (Hpublished :
      cached s' (Members.subkernelid (Cache.members s))
        (Members.warpSize (Cache.members s)) = Some translation).
    { unfold getOrInsertTranslation in Hcall.
      apply bind_inv_Return in Hcall as (s0 & s1 & Hget & Hcall).
      injection Hget as <- <-. unfold cached in Hcached.
      rewrite Hcached in Hcall.
      apply bind_inv_Return in Hcall as (tk & s1 & Hderef & Hcall).
      assert (s1 = s) as ->.
      { unfold deref, mret, M_ret, abort in Hderef.
        destruct (Cache.subkernelsToKernel s !! subkernelId);
          by simplify_eq. }
      pose proof (specializeTranslation_outcome backend tk subkernelId
                    (Members.optimizationLevel (Cache.members s))
                    (Members.warpSize (Cache.members s)) specialization s)
        as Hout.
      rewrite Hcall in Hout. destruct Hout as [Hout _].
      by rewrite Hmembers in Hout. }
    split; [done|].
    intros specialization'. by apply getOrInsertTranslation_hit.
Qed.

End Frames.

Lemma getOrInsertTranslation_again_witness :
  ∃ translation s',
    getOrInsertTranslation (example_backend Sound) 4 7 0 translated_cache
    = Return translation s'
    ∧ cached s' 7 1 = Some translation
    ∧ getOrInsertTranslation (example_backend Sound) 1 7 0 s'
      = Return translation s'.
Proof.
  destruct (getOrInsertTranslation (example_backend Sound) 4 7 0
              translated_cache) as [translation s'| |] eqn:Hcall;
    [|exfalso; vm_compute in Hcall; discriminate..].
  exists translation, s'. split; [reflexivity|].
  destruct (getOrInsertTranslation_again (example_backend Sound) 4 7 0
              translated_cache s' translation Hcall)
    as [(Hhit & _)|(_ & Hpublished & Hagain)].
  - exfalso. vm_compute in Hhit. discriminate.
  - split; [exact Hpublished|exact (Hagain 0)].
Defined.

(** ** Operations that differ in their last step *)

Lemma bind_ext {LLVM A B : Type} (m : @M LLVM A) (k k' : A -> @M LLVM B) s :
  (∀ a s1, k a s1 = k' a s1) → (m ≫= k) s = (m ≫= k') s.
Proof. intros H. unfold mbind, M_bind. by destruct (m s). Qed.

(** ** Levels without metadata *)

Section Steps.

Context {LLVM : Type}.

Lemma bind_Abort {A B : Type} (m : @M LLVM A) (k : A -> @M LLVM B) s f :
  m s = Abort f → (m ≫= k) s = Abort f.
Proof. intros H. unfold mbind, M_bind. by rewrite H. Qed.

Lemma read_TranslatedKernel_eq p (s : Cache.t LLVM) tk :
  Heap.TranslatedKernels (Cache.heap s) !! p = Some tk →
  read_TranslatedKernel p s = Return tk s.
Proof.
  intros H. unfold read_TranslatedKernel, get, mbind, M_bind.
  by rewrite H.
Qed.

Lemma read_Kernel_eq p (s : Cache.t LLVM) k :
  Heap.Kernels (Cache.heap s) !! p = Some k →
  read_Kernel p s = Return k s.
Proof. intros H. unfold read_Kernel, get, mbind, M_bind. by rewrite H. Qed.

Lemma read_subkernelPtx_eq p id (s : Cache.t LLVM) k ptx rest :
  Heap.Kernels (Cache.heap s) !! p = Some k →
  DynamicMulticoreKernel.subkernels k = (id, ptx) :: rest →
  read_subkernelPtx p id s = Return ptx s.
Proof.
  intros Hk Hsub. unfold read_subkernelPtx.
  rewrite (bind_Return _ _ _ _ _ (read_Kernel_eq p s k Hk)), Hsub.
  cbn. by rewrite bool_decide_eq_true_2.
Qed.

Lemma write_subkernelPtx_eq p id ptx (s : Cache.t LLVM) k :
  Heap.Kernels (Cache.heap s) !! p = Some k →
  write_subkernelPtx p id ptx s
  = Return tt
      (set_heap s
         (set_Kernels (Cache.heap s)
            (<[p := DynamicMulticoreKernel.mk (DynamicMulticoreKernel.name k)
                      (DynamicMulticoreKernel.module k)
                      (map (fun entry =>
                              if bool_decide (entry.1 = id) then (id, ptx)
                              else entry)
                         (DynamicMulticoreKernel.subkernels k))]>
               (Heap.Kernels (Cache.heap s))))).
Proof.
  intros Hk. unfold write_subkernelPtx.
  by rewrite (bind_Return _ _ _ _ _ (read_Kernel_eq p s k Hk)).
Qed.

End Steps.

(** X8.  At the levels [DebugOptimization] and [ReportOptimization] the
    translation of a kernel with a subkernel ends in the assertion of
    [generateMetadata], after the first subkernel is recorded and its PTX
    optimized: no kernel is translated at these levels, and the branch of
    [_translateKernel] that leaves SSA form for them is never reached. *)
Theorem translateKernel_unimplemented {LLVM : Type}
    (PTXOperand_bytes : DataType -> N) (backend : Backend LLVM)
    translatedKernel tk kernel id ptx rest (s : Cache.t LLVM) :
  Members.optimization (Cache.members s) = DebugOptimization
  ∨ Members.optimization (Cache.members s) = ReportOptimization →
  Heap.TranslatedKernels (Cache.heap s) !! translatedKernel = Some tk →
  Heap.Kernels (Cache.heap s) !! TranslatedKernel.kernel tk = Some kernel →
  DynamicMulticoreKernel.subkernels kernel = (id, ptx) :: rest →
  _translateKernel PTXOperand_bytes backend translatedKernel s
  = Abort (AssertionFailed "unimplemented").
Proof.
  intros Hlevel Htk Hkernel Hsubkernels. unfold _translateKernel.
  rewrite (bind_Return _ _ _ _ _ (read_TranslatedKernel_eq _ _ _ Htk)).
  rewrite (bind_Return _ _ _ _ _ (read_Kernel_eq _ _ _ Hkernel)).
  rewrite Hsubkernels. cbn [fmap list_fmap fst forM].
  apply bind_Abort. unfold translateSubkernelEntry.
  erewrite bind_Return by reflexivity.
  erewrite bind_Return by reflexivity.
  erewrite bind_Return
    by (eapply read_subkernelPtx_eq; [exact Hkernel|exact Hsubkernels]).
  erewrite bind_Return by (eapply write_subkernelPtx_eq; exact Hkernel).
  erewrite bind_Return
    by (eapply read_subkernelPtx_eq;
        [apply lookup_insert_eq
        |cbn; rewrite Hsubkernels; cbn;
         rewrite bool_decide_eq_true_2 by done; reflexivity]).
  apply bind_Abort. unfold generateMetadata.
  erewrite bind_Return by reflexivity.
  apply bind_Abort. cbn.
  by destruct Hlevel as [-> | ->].
Qed.

Lemma translateKernel_unimplemented_witness :
  _translateKernel (fun _ => 4) (example_backend Sound) 60
    (translated_cache_at DebugOptimization)
  = Abort (AssertionFailed "unimplemented").
Proof.
  apply (translateKernel_unimplemented (fun _ => 4) (example_backend Sound)
           60
           (TranslatedKernel.mk (Some 0) 50 (Some 70) 0 0 (Some 1) (Some 1)
              {[ 7 := TranslatedSubkernel.mk (Some 1) (Some 70)
                        (Some example_subkernel) ∅ ]})
           example_kernel 7 example_subkernel [(8, callee_subkernel)]);
    [by left|reflexivity..].
Defined.

(** ** Constant and local operands *)

(** The loop over the four operands of the constant and the local pass,
    in closed form. *)
Lemma mapSpaceInstruction_eq space offsets ptx :
  isMovLdSt ptx = true →
  mapSpaceInstruction space offsets ptx
  = mkInstruction (opcode ptx)
      (relocated offsets (d ptx)) (relocated offsets (a ptx))
      (relocated offsets (b ptx)) (relocated offsets (c ptx))
      (if names_entry offsets ptx then space else addressSpace ptx)
      (tailCall ptx).
Proof.
  intros Hguard. unfold mapSpaceInstruction. rewrite Hguard.
  destruct ptx as [op od oa ob oc sp tc].
  unfold names_entry, relocated, entry_of. cbn [foldl existsb get_operand].
  unfold mapSpaceOperand.
  cbn [get_operand set_operand set_addressSpace opcode d a b c addressSpace
       tailCall].
  destruct (decide (addressMode od = Address)) as [Hd|Hd];
    [destruct (offsets !! identifier od) as [vd|]|];
    cbn [get_operand set_operand set_addressSpace opcode d a b c addressSpace
         tailCall];
    (destruct (decide (addressMode oa = Address)) as [Ha|Ha];
     [destruct (offsets !! identifier oa) as [va|]|]);
    cbn [get_operand set_operand set_addressSpace opcode d a b c addressSpace
         tailCall];
    (destruct (decide (addressMode ob = Address)) as [Hb|Hb];
     [destruct (offsets !! identifier ob) as [vb|]|]);
    cbn [get_operand set_operand set_addressSpace opcode d a b c addressSpace
         tailCall];
    (destruct (decide (addressMode oc = Address)) as [Hc|Hc];
     [destruct (offsets !! identifier oc) as [vc|]|]);
    reflexivity.
Qed.

Lemma space_operands_rewritten_map space offsets cfg :
  space_operands_rewritten space offsets cfg
    (map_cfg (mapSpaceInstruction space offsets) cfg).
Proof.
  intros bi ii ptx Hat.
  exists (mapSpaceInstruction space offsets ptx).
  split; [by rewrite instruction_at_map, Hat|].
  destruct (isMovLdSt ptx) eqn:Hguard.
  - rewrite (mapSpaceInstruction_eq _ _ _ Hguard).
    split; [done|]. split; [done|]. split; [done|]. intros _.
    split; [|done].
    intros i Hi. destruct i as [|[|[|[|]]]]; try lia; reflexivity.
  - unfold mapSpaceInstruction. rewrite Hguard. by repeat split.
Qed.

Lemma layoutConstantGlobals_eq (globals : list (string * PTXStatement.t)) :
  ∀ st,
    foldM layoutConstantGlobal globals st
    = layoutArguments
        (constant_parameters (Module_.mk "" "" globals [])) st.1 st.2.
Proof.
  unfold constant_parameters. cbn [Module_.globals].
  induction globals as [|global rest IH]; intros [size constants]; [done|].
  rewrite foldM_cons. cbn [omap list_omap].
  assert (Hstep :
    layoutConstantGlobal global (size, constants)
    = if bool_decide (PTXStatement.directive global.2 = Directive_Const)
      then
        '(placed, _) ← pad size (PTXStatement.alignment global.2);
        Ok (wrap32 (placed + PTXStatement.bytes global.2),
            map_insert (PTXStatement.name global.2) placed constants)
      else Ok (size, constants)) by reflexivity.
  rewrite Hstep. clear Hstep.
  destruct (bool_decide (PTXStatement.directive global.2 = Directive_Const));
    [|apply IH].
  cbn [layoutArguments Parameter_.getAlignment Parameter_.name
       Parameter_.getSize fst snd].
  destruct (pad size (PTXStatement.alignment global.2)) as [[size' p]|f];
    [|done].
  cbn. apply IH.
Qed.

(** The names a layout of arguments has entries for. *)
Lemma layoutArguments_keys (arguments : list Parameter_.t) :
  ∀ offset table size offsets,
    layoutArguments arguments offset table = Ok (size, offsets) →
    ∀ name,
      is_Some (offsets !! name)
      ↔ is_Some (table !! name) ∨ name ∈ Parameter_.name <$> arguments.
Proof.
  induction arguments as [|argument rest IH];
    intros offset table size offsets Hrun name.
  - injection Hrun as <- <-. set_solver.
  - cbn [layoutArguments] in Hrun.
    destruct (pad offset (Parameter_.getAlignment argument))
      as [[offset' p]|f]; [|done].
    cbn in Hrun. rewrite (IH _ _ _ _ Hrun name), fmap_cons, elem_of_cons.
    destruct (decide (name = Parameter_.name argument)) as [->|Hne].
    + split; [by intros _; right; left|]. intros _. left.
      unfold map_insert.
      destruct (table !! Parameter_.name argument) eqn:E; [by rewrite E|].
      by rewrite lookup_insert_eq.
    + rewrite map_insert_other by done. naive_solver.
Qed.

(** X9.  The constant pass.  When the constants of the module have nonzero
    alignments the pass returns; the constants are placed one after the
    other in the order of the globals, each after the smallest padding
    that aligns it, and [constantSize] is the offset after the last; the
    table has an entry for the names of the constants and for no other
    name; every [Mov], [Ld] and [St] has each operand in address mode that
    names a constant relocated by the offset of the constant, and the
    constant address space when it has such an operand; nothing else of
    the kernel or of the metadata is changed. *)
Theorem constant_pass (kernel : PTXKernel.t) (metadata : Metadata.t) :
  Forall (fun constant => Parameter_.getAlignment constant ≠ 0)
    (constant_parameters (PTXKernel.module kernel)) →
  ∃ constants paddings size,
    setupConstantMemoryReferences kernel metadata
    = Ok (set_cfg kernel
            (map_cfg (mapSpaceInstruction Const constants)
               (PTXKernel.cfg kernel)),
          set_constantSize metadata size) ∧
    sequential_layout (constant_parameters (PTXKernel.module kernel))
      paddings constants size ∧
    (∀ name,
       is_Some (constants !! name)
       ↔ name ∈ Parameter_.name
                  <$> constant_parameters (PTXKernel.module kernel)) ∧
    space_operands_rewritten Const constants (PTXKernel.cfg kernel)
      (map_cfg (mapSpaceInstruction Const constants) (PTXKernel.cfg kernel)).
Proof.
  intros Hnz.
  assert (Hsame :
    constant_parameters (PTXKernel.module kernel)
    = constant_parameters
        (Module_.mk "" "" (Module_.globals (PTXKernel.module kernel)) []))
    by reflexivity.
  destruct (layoutArguments_spec
              (constant_parameters (PTXKernel.module kernel)) 0 ∅
              ltac:(reflexivity) Hnz)
    as (size & constants & paddings & Hrun & Hlen & Hsize & _ & Hall).
  exists constants, paddings, size.
  split; [|split; [|split]].
  - unfold setupConstantMemoryReferences.
    rewrite layoutConstantGlobals_eq. cbn [fst snd]. rewrite <- Hsame.
    by rewrite Hrun.
  - split; [done|]. split; [by rewrite N.add_0_l in Hsize|].
    intros i argument p Hi Hp.
    destruct (Hall i argument p Hi Hp) as (H1 & H2 & H3).
    cbn zeta in *. rewrite N.add_0_l in H2, H3.
    split; [done|]. split; [done|]. intros Hfresh.
    by apply H3.
  - intros name. rewrite (layoutArguments_keys _ _ _ _ _ Hrun name).
    rewrite lookup_empty. split; [|by right].
    by intros [[? [=]]|].
  - apply space_operands_rewritten_map.
Qed.

Lemma constant_pass_witness :
  Forall (fun constant => Parameter_.getAlignment constant ≠ 0)
    (constant_parameters (PTXKernel.module constant_kernel))
  ∧ ∃ constants paddings size,
      setupConstantMemoryReferences constant_kernel emptyMetadata
      = Ok (set_cfg constant_kernel
              (map_cfg (mapSpaceInstruction Const constants)
                 (PTXKernel.cfg constant_kernel)),
            set_constantSize emptyMetadata size) ∧
      sequential_layout (constant_parameters (PTXKernel.module constant_kernel))
        paddings constants size ∧
      (∀ name,
         is_Some (constants !! name)
         ↔ name ∈ Parameter_.name
                    <$> constant_parameters
                          (PTXKernel.module constant_kernel)) ∧
      space_operands_rewritten Const constants
        (PTXKernel.cfg constant_kernel)
        (map_cfg (mapSpaceInstruction Const constants)
           (PTXKernel.cfg constant_kernel)).
Proof.
  assert (H : Forall (fun constant => Parameter_.getAlignment constant ≠ 0)
                (constant_parameters (PTXKernel.module constant_kernel)))
    by (repeat constructor; discriminate).
  split; [exact H|].
  exact (constant_pass constant_kernel emptyMetadata H).
Defined.

(** The layout of [constant_kernel]: [scale] at 0, [table] at 8 after a
    padding of 4, 72 bytes in all, and the load from [table + 16] becomes
    a load from offset 24 of constant memory. *)
Example constant_kernel_layout :
  setupConstantMemoryReferences constant_kernel emptyMetadata
  = Ok (set_cfg constant_kernel
          [[mkInstruction Ld emptyOperand (addressOperand "table" 24)
              emptyOperand emptyOperand Const false;
            mkInstruction St (addressOperand "result" 0) emptyOperand
              emptyOperand emptyOperand Generic false]],
        set_constantSize emptyMetadata 72).
Proof. reflexivity. Qed.

(** The names a placement of local variables has entries for. *)
Lemma placeLocals_keys (variables : list Local_.t) :
  ∀ start table size offsets,
    foldM placeLocal variables (start, table) = Ok (size, offsets) →
    ∀ name,
      is_Some (offsets !! name)
      ↔ is_Some (table !! name) ∨ name ∈ Local_.name <$> variables.
Proof.
  induction variables as [|local rest IH];
    intros start table size offsets Hrun name.
  - injection Hrun as <- <-. set_solver.
  - rewrite foldM_cons in Hrun.
    destruct (placeLocal local (start, table)) as [[next table']|f]
      eqn:Hstep; [|done].
    unfold placeLocal in Hstep.
    destruct (pad start (Local_.alignment local)) as [[start' p]|f];
      [|done].
    cbn in Hstep, Hrun. injection Hstep as <- <-.
    rewrite (IH _ _ _ _ Hrun name), fmap_cons, elem_of_cons.
    destruct (decide (name = Local_.name local)) as [->|Hne].
    + split; [by intros _; right; left|]. intros _. left.
      unfold map_insert.
      destruct (table !! Local_.name local) eqn:E; [by rewrite E|].
      by rewrite lookup_insert_eq.
    + rewrite map_insert_other by done. naive_solver.
Qed.

(** X10.  The operands of the local pass.  When the pass returns, the table of
    offsets it built has an entry for the two reserved words and for the
    local variables it placed, and for no other name; every [Mov], [Ld]
    and [St] has each operand in address mode that names an entry
    relocated by it, and the local address space when it has such an
    operand; nothing else of the kernel or of the metadata is changed. *)
Theorem local_operands (kernel kernel' : PTXKernel.t)
    (metadata metadata' : Metadata.t) :
  setupLocalMemoryReferences kernel metadata = Ok (kernel', metadata') →
  ∃ offsets,
    layoutLocals (PTXKernel.locals kernel)
    = Ok (Metadata.localSize metadata', offsets) ∧
    kernel' = set_cfg kernel (PTXKernel.cfg kernel') ∧
    metadata' = set_localSize metadata (Metadata.localSize metadata') ∧
    (∀ name,
       is_Some (offsets !! name)
       ↔ name ∈ Local_.name <$> local_order (PTXKernel.locals kernel)) ∧
    is_Some (offsets !! RESUME_STATUS) ∧
    is_Some (offsets !! RESUME_POINT) ∧
    space_operands_rewritten Local offsets (PTXKernel.cfg kernel)
      (PTXKernel.cfg kernel').
Proof.
  unfold setupLocalMemoryReferences. intros Hrun.
  destruct (layoutLocals (PTXKernel.locals kernel)) as [[size offsets]|f]
    eqn:Hlayout; [|done].
  cbn in Hrun. injection Hrun as <- <-.
  exists offsets. split; [done|]. split; [done|]. split; [done|].
  assert (Hkeys : ∀ name,
    is_Some (offsets !! name)
    ↔ name ∈ Local_.name <$> local_order (PTXKernel.locals kernel)).
  { intros name. rewrite layoutLocals_order in Hlayout.
    rewrite (placeLocals_keys _ _ _ _ _ Hlayout name), lookup_empty.
    split; [|by right]. by intros [[? [=]]|]. }
  split; [done|].
  split; [|split; [|apply space_operands_rewritten_map]].
  - apply Hkeys. unfold local_order. rewrite !fmap_app. set_solver.
  - apply Hkeys. unfold local_order. rewrite !fmap_app. set_solver.
Qed.

Lemma local_operands_witness :
  ∃ kernel' metadata',
    setupLocalMemoryReferences local_access_kernel emptyMetadata
    = Ok (kernel', metadata')
    ∧ ∃ offsets,
        layoutLocals (PTXKernel.locals local_access_kernel)
        = Ok (Metadata.localSize metadata', offsets) ∧
        space_operands_rewritten Local offsets
          (PTXKernel.cfg local_access_kernel) (PTXKernel.cfg kernel').
Proof.
  destruct (setupLocalMemoryReferences local_access_kernel emptyMetadata)
    as [[kernel' metadata']|f] eqn:Hrun;
    [|exfalso; vm_compute in Hrun; discriminate].
  exists kernel', metadata'. split; [reflexivity|].
  destruct (local_operands local_access_kernel kernel' emptyMetadata
              metadata' Hrun)
    as (offsets & Hlayout & _ & _ & _ & _ & _ & Hrewritten).
  exists offsets. split; [exact Hlayout|exact Hrewritten].
Defined.

(** ** Shared operands *)

(** The two loops of the shared pass over the operands of an instruction,
    in closed form. *)
Lemma finalSharedInstruction_eq offsets external sharedSize ptx :
  isMovLdStCvta ptx = true →
  finalSharedInstruction offsets external sharedSize ptx
  = mkInstruction (opcode ptx)
      (shared_relocated offsets external sharedSize (d ptx))
      (shared_relocated offsets external sharedSize (a ptx))
      (shared_relocated offsets external sharedSize (b ptx))
      (shared_relocated offsets external sharedSize (c ptx))
      (if existsb (names_packed offsets external)
            [d ptx; a ptx; b ptx; c ptx]
       then Shared else addressSpace ptx)
      (tailCall ptx).
Proof.
  intros Hguard. unfold finalSharedInstruction, mapSharedInstruction.
  rewrite Hguard. clear Hguard.
  destruct ptx as [op od oa ob oc sp tc].
  unfold shared_relocated, names_packed. cbn [foldl existsb].
  unfold mapSharedOperand.
  cbn [get_operand set_operand set_addressSpace opcode d a b c addressSpace
       tailCall app].
  destruct (decide (addressMode od = Address)) as [Hd|Hd];
    [rewrite (bool_decide_eq_true_2 _ Hd);
     destruct (decide (identifier od ∈ external)) as [Ed|Ed];
     [rewrite (bool_decide_eq_true_2 _ Ed)
     |rewrite (bool_decide_eq_false_2 _ Ed);
      destruct (offsets !! identifier od) as [vd|]]
    |rewrite (bool_decide_eq_false_2 _ Hd)];
    cbn [get_operand set_operand set_addressSpace opcode d a b c addressSpace
         tailCall app andb negb orb];
    (destruct (decide (addressMode oa = Address)) as [Ha|Ha];
     [rewrite (bool_decide_eq_true_2 _ Ha);
      destruct (decide (identifier oa ∈ external)) as [Ea|Ea];
      [rewrite (bool_decide_eq_true_2 _ Ea)
      |rewrite (bool_decide_eq_false_2 _ Ea);
       destruct (offsets !! identifier oa) as [va|]]
     |rewrite (bool_decide_eq_false_2 _ Ha)]);
    cbn [get_operand set_operand set_addressSpace opcode d a b c addressSpace
         tailCall app andb negb orb];
    (destruct (decide (addressMode ob = Address)) as [Hb|Hb];
     [rewrite (bool_decide_eq_true_2 _ Hb);
      destruct (decide (identifier ob ∈ external)) as [Eb|Eb];
      [rewrite (bool_decide_eq_true_2 _ Eb)
      |rewrite (bool_decide_eq_false_2 _ Eb);
       destruct (offsets !! identifier ob) as [vb|]]
     |rewrite (bool_decide_eq_false_2 _ Hb)]);
    cbn [get_operand set_operand set_addressSpace opcode d a b c addressSpace
         tailCall app andb negb orb];
    (destruct (decide (addressMode oc = Address)) as [Hc|Hc];
     [rewrite (bool_decide_eq_true_2 _ Hc);
      destruct (decide (identifier oc ∈ external)) as [Ec|Ec];
      [rewrite (bool_decide_eq_true_2 _ Ec)
      |rewrite (bool_decide_eq_false_2 _ Ec);
       destruct (offsets !! identifier oc) as [vc|]]
     |rewrite (bool_decide_eq_false_2 _ Hc)]);
    cbn; try reflexivity.
Qed.

(** X11.  The operands of the shared pass.  When the pass returns, every [Mov],
    [Ld], [St] and [Cvta] has each operand in address mode relocated: by
    [sharedSize] when it names an external variable, by the offset of the
    variable when it names a packed one.  The instruction gets the shared
    address space when an operand names a packed variable; an operand that
    names an external variable does not change the address space.  Every
    other instruction, and everything else of the kernel and of the
    metadata, is kept. *)
Theorem shared_operands (PTXOperand_bytes : DataType -> N)
    (kernel kernel' : PTXKernel.t) (metadata metadata' : Metadata.t) :
  setupSharedMemoryReferences PTXOperand_bytes kernel metadata
  = Ok (kernel', metadata') →
  ∃ st,
    layoutShared PTXOperand_bytes kernel = Ok st ∧
    kernel' = set_cfg kernel (PTXKernel.cfg kernel') ∧
    metadata' = set_sharedSize metadata (Metadata.sharedSize metadata') ∧
    ∀ (bi ii : nat) ptx,
      instruction_at (PTXKernel.cfg kernel) bi ii = Some ptx →
      ∃ ptx',
        instruction_at (PTXKernel.cfg kernel') bi ii = Some ptx' ∧
        opcode ptx' = opcode ptx ∧ tailCall ptx' = tailCall ptx ∧
        (isMovLdStCvta ptx = false → ptx' = ptx) ∧
        (isMovLdStCvta ptx = true →
         (∀ i : nat, (i < 4)%nat →
            get_operand i ptx'
            = shared_relocated (shared_offsets st) (shared_external st)
                (Metadata.sharedSize metadata') (get_operand i ptx)) ∧
         addressSpace ptx'
         = if existsb
                (names_packed (shared_offsets st) (shared_external st))
                [d ptx; a ptx; b ptx; c ptx]
           then Shared else addressSpace ptx).
Proof.
  unfold setupSharedMemoryReferences. intros Hrun.
  destruct (layoutShared PTXOperand_bytes kernel) as [st|f] eqn:Hlayout;
    [|done].
  cbn in Hrun.
  pose proof (shared_cfg_final (shared_offsets st) (shared_external st))
    as Hfinal.
  destruct (pad (shared_sharedSize st) (shared_externalAlignment st))
    as [[sharedSize p]|f] eqn:Hpad.
  2: { destruct (mapSharedCfg _ _ 0 _); done. }
  specialize (Hfinal sharedSize (PTXKernel.cfg kernel)).
  destruct (mapSharedCfg (shared_offsets st) (shared_external st) 0
              (PTXKernel.cfg kernel)) as [cfg' refs].
  cbn in Hrun. rewrite Hfinal in Hrun. injection Hrun as <- <-.
  exists st. split; [done|]. split; [done|]. split; [done|].
  intros bi ii ptx Hat.
  exists (finalSharedInstruction (shared_offsets st) (shared_external st)
            sharedSize ptx).
  split; [cbn; by rewrite instruction_at_map, Hat|].
  destruct (isMovLdStCvta ptx) eqn:Hguard.
  - rewrite (finalSharedInstruction_eq _ _ _ _ Hguard).
    split; [done|]. split; [done|]. split; [done|]. intros _.
    split; [|done].
    intros i Hi. destruct i as [|[|[|[|]]]]; try lia; reflexivity.
  - unfold finalSharedInstruction, mapSharedInstruction. rewrite Hguard.
    by repeat split.
Qed.

Lemma shared_operands_witness :
  ∃ kernel' metadata',
    setupSharedMemoryReferences example_bytes shared_access_kernel
      emptyMetadata
    = Ok (kernel', metadata')
    ∧ ∃ st,
        layoutShared example_bytes shared_access_kernel = Ok st ∧
        instruction_at (PTXKernel.cfg kernel') 0 1
        = Some (mkInstruction St (addressOperand "tile" 0) emptyOperand
                  emptyOperand emptyOperand Shared false).
Proof.
  destruct (setupSharedMemoryReferences example_bytes shared_access_kernel
              emptyMetadata) as [[kernel' metadata']|f] eqn:Hrun;
    [|exfalso; vm_compute in Hrun; discriminate].
  exists kernel', metadata'. split; [reflexivity|].
  destruct (shared_operands example_bytes shared_access_kernel kernel'
              emptyMetadata metadata' Hrun)
    as (st & Hlayout & _ & _ & _).
  exists st. split; [exact Hlayout|].
  vm_compute in Hrun. injection Hrun as <- <-. reflexivity.
Defined.

(** ** Textures *)

(** A loop that rewrites a container and carries a state: an invariant
    indexed by the work done, an order the state grows in, and what holds
    of every element and its image in the last state. *)
Lemma mapAccumM_steps {A B S : Type} (body : A -> S -> result (B * S))
    (cost : A -> nat) (I : nat -> S -> Prop) (le : S -> S -> Prop)
    (P : A -> B -> S -> Prop) (bound : nat) :
  (∀ s, le s s) →
  (∀ s1 s2 s3, le s1 s2 → le s2 s3 → le s1 s3) →
  (∀ x y s s', P x y s → le s s' → P x y s') →
  (∀ (n : nat) x s y s',
     (n + cost x ≤ bound)%nat → I n s → body x s = Ok (y, s') →
     I (n + cost x)%nat s' ∧ le s s' ∧ P x y s') →
  ∀ l (n : nat) s l' s',
    (n + sum_list (cost <$> l) ≤ bound)%nat → I n s →
    mapAccumM body l s = Ok (l', s') →
    I (n + sum_list (cost <$> l))%nat s' ∧ le s s'
    ∧ Forall2 (fun x y => P x y s') l l'.
Proof.
  intros Hrefl Htrans Hmono Hstep.
  induction l as [|x l IH]; intros n s l' s' Hbound HI Hrun.
  - injection Hrun as <- <-. cbn. rewrite Nat.add_0_r. by repeat split.
  - cbn [mapAccumM] in Hrun. rewrite fmap_cons in Hbound |- *.
    change (sum_list (cost x :: (cost <$> l)))
      with (cost x + sum_list (cost <$> l))%nat in Hbound |- *.
    destruct (body x s) as [[y s1]|f] eqn:Hbody; [|done].
    cbn in Hrun.
    destruct (mapAccumM body l s1) as [[ys s2]|f] eqn:Hrest; [|done].
    cbn in Hrun. injection Hrun as <- <-.
    destruct (Hstep n x s y s1 ltac:(lia) HI Hbody) as (HI1 & Hle1 & HP).
    destruct (IH (n + cost x)%nat s1 ys s2 ltac:(lia) HI1 Hrest)
      as (HI2 & Hle2 & Hall).
    rewrite Nat.add_assoc. split; [done|]. split; [by eapply Htrans|].
    constructor; [by eapply Hmono|done].
Qed.

(** The faults of such a loop are faults of its body, in a state the
    invariant holds of. *)
Lemma mapAccumM_faults {A B S : Type} (body : A -> S -> result (B * S))
    (cost : A -> nat) (I : nat -> S -> Prop) (Q : fault -> Prop)
    (bound : nat) :
  (∀ (n : nat) x s y s',
     (n + cost x ≤ bound)%nat → I n s → body x s = Ok (y, s') →
     I (n + cost x)%nat s') →
  (∀ (n : nat) x s f,
     (n + cost x ≤ bound)%nat → I n s → body x s = Fault f → Q f) →
  ∀ l (n : nat) s f,
    (n + sum_list (cost <$> l) ≤ bound)%nat → I n s →
    mapAccumM body l s = Fault f → Q f.
Proof.
  intros Hstep Hfault.
  induction l as [|x l IH]; intros n s f Hbound HI Hrun; [done|].
  cbn [mapAccumM] in Hrun. rewrite fmap_cons in Hbound.
  change (sum_list (cost x :: (cost <$> l)))
    with (cost x + sum_list (cost <$> l))%nat in Hbound.
  destruct (body x s) as [[y s1]|f1] eqn:Hbody.
  - cbn in Hrun.
    destruct (mapAccumM body l s1) as [[ys s2]|f2] eqn:Hrest; [done|].
    cbn in Hrun. injection Hrun as ->.
    eapply (IH (n + cost x)%nat s1 f); [lia| |done].
    eapply Hstep; [|done..]. lia.
  - cbn in Hrun. injection Hrun as ->.
    eapply Hfault; [|done..]. lia.
Qed.

Lemma sum_list_ones {A : Type} (l : list A) :
  sum_list ((fun _ => 1%nat) <$> l) = length l.
Proof. induction l as [|x l IH]; [done|]. cbn. by rewrite IH. Qed.

Lemma sum_list_lengths {A : Type} (ls : list (list A)) :
  sum_list (length <$> ls) = length (concat ls).
Proof.
  induction ls as [|l ls IH]; [done|].
  cbn. by rewrite length_app, IH.
Qed.

Section Textures.

Variable device : option Device.t.
Variable path : string.
Variable base : list N.

Lemma slots_grow_refl st : slots_grow st st.
Proof. by unfold slots_grow. Qed.

Lemma slots_grow_trans st1 st2 st3 :
  slots_grow st1 st2 → slots_grow st2 st3 → slots_grow st1 st3.
Proof. unfold slots_grow. apply transitivity. Qed.

Lemma texture_rewritten_mono ptx ptx' st st' :
  texture_rewritten ptx ptx' st → slots_grow st st' →
  texture_rewritten ptx ptx' st'.
Proof.
  intros [Hother Htex] Hgrow. split; [done|].
  intros Hop. destruct (Htex Hop) as (slot & Hslot & ->).
  exists slot. split; [|done].
  by eapply lookup_weaken.
Qed.

Lemma assert_nonempty_app (l : list N) (x : N) what :
  assert (negb (bool_decide (l ++ [x] = []))) what = Ok tt.
Proof.
  rewrite bool_decide_eq_false_2; [done|]. by destruct l.
Qed.

Lemma mapTextureInstruction_step (bound : nat) (n : nat) ptx st ptx' st' :
  N.of_nat bound ≤ 2 ^ 32 →
  (n + 1 ≤ bound)%nat →
  texture_invariant device path base n st →
  mapTextureInstruction device path ptx st = Ok (ptx', st') →
  texture_invariant device path base (n + 1) st' ∧ slots_grow st st'
  ∧ texture_rewritten ptx ptx' st'.
Proof.
  intros Hbound Hn (Hsize & pushed & Hlist & Hlen & Hslots & Hinj) Hrun.
  destruct st as [textures listed]. cbn [fst snd] in *.
  unfold mapTextureInstruction in Hrun.
  destruct (decide (opcode ptx = Tex)) as [Hop|Hop].
  2: { rewrite bool_decide_eq_false_2 in Hrun by done.
       injection Hrun as <- <-.
       split; [|split; [apply slots_grow_refl|by split]].
       split; [cbn; lia|]. by exists pushed. }
  rewrite bool_decide_eq_true_2 in Hrun by done.
  destruct (textures !! identifier (a ptx)) as [reference|] eqn:Hfind.
  - cbn in Hrun.
    destruct (Hslots _ _ Hfind) as (Hlt & _).
    assert (Hne : listed ≠ []).
    { rewrite Hlist. destruct pushed; [cbn in Hlen; lia|].
      by destruct base. }
    rewrite bool_decide_eq_false_2 in Hrun by done.
    cbn in Hrun. injection Hrun as <- <-.
    split; [|split; [apply slots_grow_refl|]].
    + split; [cbn; lia|]. by exists pushed.
    + split; [done|]. intros _. by exists reference.
  - assert (Hslot : wrap32 (N.of_nat (size textures))
                    = N.of_nat (size textures))
      by (apply wrap32_small; lia).
    rewrite Hslot in Hrun.
    destruct ptx as [op od oa ob oc sp tc].
    cbn [a set_operand opcode d b c addressSpace tailCall set_reg identifier]
      in Hrun, Hfind, Hop |- *.
    destruct device as [dev|] eqn:Hdevice; [|done].
    destruct (Device.getTextureReference dev path (identifier oa))
      as [texture|] eqn:Htexture; [|done].
    cbn in Hrun. rewrite assert_nonempty_app in Hrun.
    cbn in Hrun. injection Hrun as <- <-.
    rewrite (map_insert_fresh _ _ _ Hfind).
    unfold texture_invariant, slots_grow, texture_rewritten.
    cbn [fst snd a opcode].
    split; [|split].
    + split; [rewrite map_size_insert_None by done; lia|].
      exists (pushed ++ [texture]).
      split; [by rewrite Hlist, app_assoc|].
      split; [rewrite length_app, map_size_insert_None by done; cbn; lia|].
      split.
      * intros name slot Hlookup.
        rewrite map_size_insert_None by done.
        apply lookup_insert_Some in Hlookup as [[<- <-]|[Hne Hlookup]].
        -- rewrite Nat2N.id. split; [lia|].
           exists dev, texture. split; [done|]. split; [done|].
           rewrite <- Hlen. apply list_lookup_middle. done.
        -- destruct (Hslots _ _ Hlookup) as (Hlt & d' & t' & Hd & Ht & Hp).
           split; [lia|]. exists d', t'. split; [done|]. split; [done|].
           by apply lookup_app_l_Some.
      * intros name1 name2 slot H1 H2.
        apply lookup_insert_Some in H1 as [[<- <-]|[Hne1 H1]];
          apply lookup_insert_Some in H2 as [[<- E2]|[Hne2 H2]].
        -- done.
        -- destruct (Hslots _ _ H2) as (Hlt & _).
           rewrite Nat2N.id in Hlt. lia.
        -- destruct (Hslots _ _ H1) as (Hlt & _). subst slot.
           rewrite Nat2N.id in Hlt. lia.
        -- by eapply Hinj.
    + by apply insert_subseteq.
    + split; [done|]. intros _. exists (N.of_nat (size textures)).
      split; [apply lookup_insert_eq|done].
Qed.

Lemma mapTextureInstruction_fault (n : nat) ptx st f :
  texture_invariant device path base n st →
  mapTextureInstruction device path ptx st = Fault f →
  f = NullDereference "device" ∨ f = AssertionFailed "texture != 0".
Proof.
  intros (Hsize & pushed & Hlist & Hlen & Hslots & Hinj) Hrun.
  destruct st as [textures listed]. cbn [fst snd] in *.
  unfold mapTextureInstruction in Hrun.
  destruct (bool_decide (opcode ptx = Tex)); [|done].
  destruct (textures !! identifier (a ptx)) as [reference|] eqn:Hfind.
  - cbn in Hrun.
    destruct (Hslots _ _ Hfind) as (Hlt & _).
    assert (Hne : listed ≠ []).
    { rewrite Hlist. destruct pushed; [cbn in Hlen; lia|].
      by destruct base. }
    by rewrite bool_decide_eq_false_2 in Hrun by done.
  - destruct device as [dev|]; [|cbn in Hrun; left; congruence].
    destruct (Device.getTextureReference dev path
                (identifier
                   (a (set_operand 1
                         (set_reg (a ptx)
                            (wrap32 (N.of_nat (size textures)))) ptx))))
      as [texture|]; [|cbn in Hrun; right; congruence].
    cbn in Hrun. by rewrite assert_nonempty_app in Hrun.
Qed.

End Textures.

(** X12.  The texture pass.  For a graph of at most 2^32 instructions: when the
    pass returns, the symbols of the texture instructions have slots, one
    slot for each symbol and no slot for two; the textures the pass pushed
    on [metadata->textures] are the textures the device has for these
    symbols, each at the slot of its symbol; every texture instruction
    has the slot of its symbol in the register of its operand [a], and
    nothing else is changed.  When the pass does not return, the device is
    null or has no texture for a symbol: the assertion that the list of
    textures is not empty never fails. *)
Theorem texture_slots (kernel : PTXKernel.t) (metadata : Metadata.t)
    (device : option Device.t) :
  N.of_nat (length (concat (PTXKernel.cfg kernel))) ≤ 2 ^ 32 →
  match setupTextureMemoryReferences kernel metadata device with
  | Ok (kernel', metadata') =>
      ∃ (slots : gmap string N) (pushed : list N),
        kernel' = set_cfg kernel (PTXKernel.cfg kernel') ∧
        metadata' = set_textures metadata (Metadata.textures metadata ++ pushed)
        ∧ length pushed = size slots ∧
        (∀ name slot,
           slots !! name = Some slot →
           ∃ dev texture,
             device = Some dev ∧
             Device.getTextureReference dev
               (Module_.path (PTXKernel.module kernel)) name = Some texture ∧
             pushed !! N.to_nat slot = Some texture) ∧
        (∀ name1 name2 slot,
           slots !! name1 = Some slot → slots !! name2 = Some slot →
           name1 = name2) ∧
        ∀ (bi ii : nat) ptx,
          instruction_at (PTXKernel.cfg kernel) bi ii = Some ptx →
          ∃ ptx',
            instruction_at (PTXKernel.cfg kernel') bi ii = Some ptx' ∧
            (opcode ptx ≠ Tex → ptx' = ptx) ∧
            (opcode ptx = Tex →
             ∃ slot,
               slots !! identifier (a ptx) = Some slot ∧
               ptx' = set_operand 1 (set_reg (a ptx) slot) ptx)
  | Fault f =>
      f = NullDereference "device" ∨ f = AssertionFailed "texture != 0"
  end.
Proof.
  intros Hbound. unfold setupTextureMemoryReferences.
  set (path := Module_.path (PTXKernel.module kernel)).
  set (base := Metadata.textures metadata).
  set (bound := length (concat (PTXKernel.cfg kernel))) in *.
  assert (Hstart : texture_invariant device path base 0 (∅, base)).
  { unfold texture_invariant. cbn [fst snd].
    split; [by rewrite map_size_empty|]. exists [].
    split; [by rewrite app_nil_r|]. split; [by rewrite map_size_empty|].
    split; intros *; by rewrite lookup_empty. }
  assert (Hblock : ∀ (n : nat) block st block' st',
    (n + length block ≤ bound)%nat →
    texture_invariant device path base n st →
    mapAccumM (mapTextureInstruction device path) block st
    = Ok (block', st') →
    texture_invariant device path base (n + length block) st'
    ∧ slots_grow st st'
    ∧ Forall2 (fun ptx ptx' => texture_rewritten ptx ptx' st') block block').
  { intros n block st block' st' Hn HI Hrun.
    rewrite <- (sum_list_ones block) in Hn |- *.
    eapply (mapAccumM_steps (mapTextureInstruction device path)
              (fun _ => 1%nat) (texture_invariant device path base)
              slots_grow texture_rewritten bound);
      [apply slots_grow_refl|apply slots_grow_trans
      |apply texture_rewritten_mono| |done..].
    intros. by eapply mapTextureInstruction_step. }
  destruct (mapAccumM (mapAccumM (mapTextureInstruction device path))
              (PTXKernel.cfg kernel) (∅, base)) as [[cfg' st']|f] eqn:Hrun.
  - cbn.
    assert (Hmono : ∀ (block block' : list PTXInstruction) s s',
      Forall2 (fun ptx ptx' => texture_rewritten ptx ptx' s) block block' →
      slots_grow s s' →
      Forall2 (fun ptx ptx' => texture_rewritten ptx ptx' s') block block').
    { intros block block' s s' Hall Hgrow.
      eapply Forall2_impl; [exact Hall|].
      intros ptx ptx' H. exact (texture_rewritten_mono _ _ _ _ H Hgrow). }
    assert (Hsum :
      (0 + sum_list (length <$> PTXKernel.cfg kernel) ≤ bound)%nat)
      by (rewrite sum_list_lengths; unfold bound; lia).
    destruct (mapAccumM_steps (mapAccumM (mapTextureInstruction device path))
                length (texture_invariant device path base) slots_grow
                (fun block block' st =>
                   Forall2 (fun ptx ptx' => texture_rewritten ptx ptx' st)
                     block block')
                bound slots_grow_refl slots_grow_trans Hmono
                Hblock (PTXKernel.cfg kernel) 0%nat (∅, base) cfg' st'
                Hsum Hstart Hrun)
      as ((_ & pushed & Hlist & Hlen & Hslots & Hinj) & _ & Hall).
    exists st'.1, pushed.
    split; [done|]. split; [by rewrite Hlist|]. split; [done|].
    split; [|split; [done|]].
    + intros name slot Hslot.
      destruct (Hslots name slot Hslot) as (_ & dev & texture & H).
      by exists dev, texture.
    + intros bi ii ptx Hat. unfold instruction_at in *. cbn [PTXKernel.cfg].
      destruct (PTXKernel.cfg kernel !! bi) as [block|] eqn:Hbi; [|done].
      cbn in Hat.
      destruct (Forall2_lookup_l _ _ _ _ _ Hall Hbi)
        as (block' & Hbi' & Hblock').
      destruct (Forall2_lookup_l _ _ _ _ _ Hblock' Hat)
        as (ptx' & Hii' & [Hother Htex]).
      exists ptx'. rewrite Hbi'. cbn. done.
  - cbn.
    assert (Hsum :
      (0 + sum_list (length <$> PTXKernel.cfg kernel) ≤ bound)%nat)
      by (rewrite sum_list_lengths; unfold bound; lia).
    refine (mapAccumM_faults (mapAccumM (mapTextureInstruction device path))
              length (texture_invariant device path base)
              (fun f => f = NullDereference "device"
                        ∨ f = AssertionFailed "texture != 0")
              bound _ _ (PTXKernel.cfg kernel) 0%nat (∅, base) f Hsum Hstart
              Hrun).
    + intros n block st block' st1 Hn HI Hblockrun.
      by destruct (Hblock n block st block' st1 Hn HI Hblockrun).
    + intros n block st f1 Hn HI Hblockrun.
      rewrite <- (sum_list_ones block) in Hn.
      refine (mapAccumM_faults (mapTextureInstruction device path)
                (fun _ => 1%nat) (texture_invariant device path base)
                (fun f => f = NullDereference "device"
                          ∨ f = AssertionFailed "texture != 0")
                bound _ _ block n st f1 Hn HI Hblockrun).
      * intros m ptx s ptx' s' Hm HIm Hstep.
        by destruct (mapTextureInstruction_step device path base bound m
                       ptx s ptx' s' Hbound Hm HIm Hstep).
      * intros m ptx s f2 _ HIm Hstep.
        by eapply mapTextureInstruction_fault.
Qed.

Lemma texture_slots_witness :
  N.of_nat (length (concat (PTXKernel.cfg texture_kernel))) ≤ 2 ^ 32
  ∧ ∃ kernel' metadata' (slots : gmap string N) pushed,
      setupTextureMemoryReferences texture_kernel emptyMetadata
        (Some texture_device)
      = Ok (kernel', metadata')
      ∧ metadata'
        = set_textures emptyMetadata
            (Metadata.textures emptyMetadata ++ pushed)
      ∧ length pushed = size slots.
Proof.
  assert (H : N.of_nat (length (concat (PTXKernel.cfg texture_kernel)))
              ≤ 2 ^ 32) by (vm_compute; discriminate).
  split; [exact H|].
  pose proof (texture_slots texture_kernel emptyMetadata
                (Some texture_device) H) as Hspec.
  destruct (setupTextureMemoryReferences texture_kernel emptyMetadata
              (Some texture_device)) as [[kernel' metadata']|f] eqn:Hrun;
    [|exfalso; vm_compute in Hrun; discriminate].
  destruct Hspec as (slots & pushed & _ & Hmetadata & Hlength & _).
  exists kernel', metadata', slots, pushed.
  split; [reflexivity|]. split; [exact Hmetadata|exact Hlength].
Defined.

(** In [texture_kernel] the texture [image] gets slot 0 and [noise] slot
    1; the second use of [image] has slot 0 again. *)
Example texture_kernel_slots :
  setupTextureMemoryReferences texture_kernel emptyMetadata
    (Some texture_device)
  = Ok (set_cfg texture_kernel
          [[mkInstruction Tex emptyOperand
              (mkOperand Address "image" 0 false u32 0 []) emptyOperand
              emptyOperand Generic false;
            mkInstruction Tex emptyOperand
              (mkOperand Address "noise" 0 false u32 1 []) emptyOperand
              emptyOperand Generic false];
           [mkInstruction Tex emptyOperand
              (mkOperand Address "image" 0 false u32 0 []) emptyOperand
              emptyOperand Generic false]],
        set_textures emptyMetadata [500; 600]).
Proof. reflexivity. Qed.

(** ** What no pass changes *)

#[global] Instance same_skeleton_preorder : PreOrder same_skeleton.
Proof.
  split; [by intros kernel|]. intros k1 k2 k3 H1 H2.
  unfold same_skeleton in *. intuition congruence.
Qed.

Lemma same_skeleton_map f kernel :
  (∀ ptx, instruction_shape (f ptx) = instruction_shape ptx) →
  same_skeleton kernel (set_cfg kernel (map_cfg f (PTXKernel.cfg kernel))).
Proof.
  intros Hf. repeat split. cbn. unfold cfg_shape, map_cfg.
  rewrite <- list_fmap_compose. apply list_fmap_ext. intros _ block _.
  cbn. rewrite <- list_fmap_compose. apply list_fmap_ext.
  intros _ ptx _. apply Hf.
Qed.

Lemma instruction_shape_map_operands f ptx :
  (∀ operand, operand_shape (f operand) = operand_shape operand) →
  instruction_shape (map_operands f ptx) = instruction_shape ptx.
Proof.
  intros Hf. destruct ptx as [op od oa ob oc sp tc].
  unfold instruction_shape, map_operands. cbn. by rewrite !Hf.
Qed.

Lemma instruction_shape_global module ptx :
  instruction_shape (mapGlobalInstruction module ptx) = instruction_shape ptx.
Proof.
  unfold mapGlobalInstruction.
  destruct (_ && _); [|done].
  destruct (map_find _ _) as [statement|]; [|done].
  by destruct (bool_decide _).
Qed.

Lemma instruction_shape_argument offsets ptx :
  instruction_shape (mapArgumentInstruction offsets ptx)
  = instruction_shape ptx.
Proof.
  unfold mapArgumentInstruction. destruct (isMovLdSt ptx); [|done].
  apply instruction_shape_map_operands. intros operand.
  unfold mapArgumentOperand. destruct (decide _); [|done].
  by destruct (offsets !! _).
Qed.

Lemma instruction_shape_parameter offsets ptx :
  instruction_shape (mapParameterInstruction offsets ptx)
  = instruction_shape ptx.
Proof.
  unfold mapParameterInstruction. destruct (isMovLdSt ptx); [|done].
  apply instruction_shape_map_operands. intros operand.
  unfold mapParameterOperand. destruct (decide _); [|done].
  by destruct (offsets !! _).
Qed.

Lemma operand_shape_relocated offsets operand :
  operand_shape (relocated offsets operand) = operand_shape operand.
Proof. unfold relocated. by destruct (entry_of offsets operand). Qed.

Lemma instruction_shape_space space offsets ptx :
  instruction_shape (mapSpaceInstruction space offsets ptx)
  = instruction_shape ptx.
Proof.
  destruct (isMovLdSt ptx) eqn:Hguard.
  - rewrite (mapSpaceInstruction_eq _ _ _ Hguard).
    unfold instruction_shape. cbn.
    by rewrite !operand_shape_relocated.
  - unfold mapSpaceInstruction. by rewrite Hguard.
Qed.

Lemma operand_shape_shared offsets external sharedSize operand :
  operand_shape (shared_relocated offsets external sharedSize operand)
  = operand_shape operand.
Proof.
  unfold shared_relocated. destruct (decide _); [|done].
  destruct (decide _); [done|]. by destruct (offsets !! _).
Qed.

Lemma instruction_shape_shared offsets external sharedSize ptx :
  instruction_shape (finalSharedInstruction offsets external sharedSize ptx)
  = instruction_shape ptx.
Proof.
  destruct (isMovLdStCvta ptx) eqn:Hguard.
  - rewrite (finalSharedInstruction_eq _ _ _ _ Hguard).
    unfold instruction_shape. cbn.
    by rewrite !operand_shape_shared.
  - unfold finalSharedInstruction, mapSharedInstruction. by rewrite Hguard.
Qed.

Lemma mapAccumM_map {A B S C : Type} (body : A -> S -> result (B * S))
    (f : B -> C) (g : A -> C) :
  (∀ x s y s', body x s = Ok (y, s') → f y = g x) →
  ∀ l s l' s', mapAccumM body l s = Ok (l', s') → map f l' = map g l.
Proof.
  intros Hbody. induction l as [|x l IH]; intros s l' s' Hrun.
  - by injection Hrun as <- <-.
  - cbn [mapAccumM] in Hrun.
    destruct (body x s) as [[y s1]|?] eqn:Hstep; [|done]. cbn in Hrun.
    destruct (mapAccumM body l s1) as [[ys s2]|?] eqn:Hrest; [|done].
    cbn in Hrun. injection Hrun as <- <-. cbn.
    by rewrite (Hbody _ _ _ _ Hstep), (IH _ _ _ Hrest).
Qed.

Lemma instruction_shape_texture device path ptx st ptx' st' :
  mapTextureInstruction device path ptx st = Ok (ptx', st') →
  instruction_shape ptx' = instruction_shape ptx.
Proof.
  unfold mapTextureInstruction. destruct st as [textures listed].
  destruct (bool_decide (opcode ptx = Tex)); [|by intros [= <- <-]].
  destruct ptx as [op od oa ob oc sp tc].
  cbn [a set_operand opcode d b c addressSpace tailCall set_reg identifier].
  destruct (textures !! identifier oa) as [reference|].
  - cbn. destruct (assert _ _); [|done]. cbn. by intros [= <- <-].
  - destruct device as [dev|]; [|done].
    destruct (Device.getTextureReference dev path (identifier oa));
      [|done].
    cbn. destruct (assert _ _); [|done]. cbn. by intros [= <- <-].
Qed.

Section Skeleton.

Variable PTXOperand_bytes : DataType -> N.

Lemma setupArgumentMemoryReferences_skeleton kernel metadata kernel'
    metadata' :
  setupArgumentMemoryReferences kernel metadata = Ok (kernel', metadata') →
  same_skeleton kernel kernel'
  ∧ metadata' = set_argumentSize metadata (Metadata.argumentSize metadata').
Proof.
  unfold setupArgumentMemoryReferences.
  destruct (layoutArguments _ _ _) as [[size offsets]|?]; [|done].
  cbn. intros [= <- <-]. split; [|done].
  apply same_skeleton_map, instruction_shape_argument.
Qed.

Lemma setupParameterMemoryReferences_skeleton kernel metadata kernel'
    metadata' :
  setupParameterMemoryReferences PTXOperand_bytes kernel metadata
  = Ok (kernel', metadata') →
  same_skeleton kernel kernel'
  ∧ metadata' = set_parameterSize metadata (Metadata.parameterSize metadata').
Proof.
  unfold setupParameterMemoryReferences.
  destruct (foldM _ (PTXKernel.cfg kernel) _) as [[size offsets]|?]; [|done].
  cbn. destruct (foldM layoutFunction _ _) as [size'|?]; [|done].
  cbn. intros [= <- <-]. split; [|done].
  apply same_skeleton_map, instruction_shape_parameter.
Qed.

Lemma setupSharedMemoryReferences_skeleton kernel metadata kernel'
    metadata' :
  setupSharedMemoryReferences PTXOperand_bytes kernel metadata
  = Ok (kernel', metadata') →
  same_skeleton kernel kernel'
  ∧ metadata' = set_sharedSize metadata (Metadata.sharedSize metadata').
Proof.
  unfold setupSharedMemoryReferences. intros Hrun.
  destruct (layoutShared PTXOperand_bytes kernel) as [st|?]; [|done].
  cbn in Hrun.
  pose proof (shared_cfg_final (shared_offsets st) (shared_external st))
    as Hfinal.
  destruct (pad (shared_sharedSize st) (shared_externalAlignment st))
    as [[sharedSize p]|?].
  2: { destruct (mapSharedCfg _ _ 0 _); done. }
  specialize (Hfinal sharedSize (PTXKernel.cfg kernel)).
  destruct (mapSharedCfg (shared_offsets st) (shared_external st) 0
              (PTXKernel.cfg kernel)) as [cfg' refs].
  cbn in Hrun. rewrite Hfinal in Hrun. injection Hrun as <- <-.
  split; [|done].
  apply same_skeleton_map, instruction_shape_shared.
Qed.

Lemma setupConstantMemoryReferences_skeleton kernel metadata kernel'
    metadata' :
  setupConstantMemoryReferences kernel metadata = Ok (kernel', metadata') →
  same_skeleton kernel kernel'
  ∧ metadata' = set_constantSize metadata (Metadata.constantSize metadata').
Proof.
  unfold setupConstantMemoryReferences.
  destruct (foldM _ _ _) as [[size offsets]|?]; [|done].
  cbn. intros [= <- <-]. split; [|done].
  apply same_skeleton_map, instruction_shape_space.
Qed.

Lemma setupTextureMemoryReferences_skeleton kernel metadata device kernel'
    metadata' :
  setupTextureMemoryReferences kernel metadata device
  = Ok (kernel', metadata') →
  same_skeleton kernel kernel'
  ∧ metadata' = set_textures metadata (Metadata.textures metadata').
Proof.
  unfold setupTextureMemoryReferences.
  destruct (mapAccumM _ _ _) as [[cfg' st']|?] eqn:Hrun; [|done].
  cbn. intros [= <- <-]. split; [|done].
  repeat split. cbn. unfold cfg_shape.
  eapply mapAccumM_map; [|exact Hrun].
  intros block s block' s' Hblock.
  eapply mapAccumM_map; [|exact Hblock].
  intros ptx s1 ptx' s1'. apply instruction_shape_texture.
Qed.

Lemma setupLocalMemoryReferences_skeleton kernel metadata kernel'
    metadata' :
  setupLocalMemoryReferences kernel metadata = Ok (kernel', metadata') →
  same_skeleton kernel kernel'
  ∧ metadata' = set_localSize metadata (Metadata.localSize metadata').
Proof.
  unfold setupLocalMemoryReferences.
  destruct (layoutLocals _) as [[size offsets]|?]; [|done].
  cbn. intros [= <- <-]. split; [|done].
  apply same_skeleton_map, instruction_shape_space.
Qed.

(** X13.  The seven passes together change nothing of a kernel but the
    offsets, the argument flags and the registers of operands and the
    address spaces of instructions: the name, the module, the arguments
    and the locals are kept, the graph keeps its blocks and their
    instructions, and every instruction keeps its opcode, its tail call
    flag and the address mode, identifier, type and argument array of
    each operand.  Of the metadata they keep the kernel and the warp
    size. *)
Theorem memory_references_skeleton (kernel kernel' : PTXKernel.t)
    (metadata metadata' : Metadata.t) (device : option Device.t) :
  setupPTXMemoryReferences PTXOperand_bytes kernel metadata device
  = Ok (kernel', metadata') →
  PTXKernel.name kernel' = PTXKernel.name kernel
  ∧ PTXKernel.module kernel' = PTXKernel.module kernel
  ∧ PTXKernel.arguments kernel' = PTXKernel.arguments kernel
  ∧ PTXKernel.locals kernel' = PTXKernel.locals kernel
  ∧ cfg_shape (PTXKernel.cfg kernel') = cfg_shape (PTXKernel.cfg kernel)
  ∧ Metadata.kernel metadata' = Metadata.kernel metadata
  ∧ Metadata.warpSize metadata' = Metadata.warpSize metadata.
Proof.
  unfold setupPTXMemoryReferences. intros Hrun.
  pose proof (same_skeleton_map
                (mapGlobalInstruction (PTXKernel.module kernel)) kernel
                (instruction_shape_global _)) as H0.
  change (set_cfg kernel _) with (setupGlobalMemoryReferences kernel) in H0.
  destruct (setupArgumentMemoryReferences _ metadata)
    as [[k1 m1]|?] eqn:E1; [|done]. cbn in Hrun.
  destruct (setupParameterMemoryReferences _ k1 m1)
    as [[k2 m2]|?] eqn:E2; [|done]. cbn in Hrun.
  destruct (setupSharedMemoryReferences _ k2 m2)
    as [[k3 m3]|?] eqn:E3; [|done]. cbn in Hrun.
  destruct (setupConstantMemoryReferences k3 m3)
    as [[k4 m4]|?] eqn:E4; [|done]. cbn in Hrun.
  destruct (setupTextureMemoryReferences k4 m4 device)
    as [[k5 m5]|?] eqn:E5; [|done]. cbn in Hrun.
  apply setupArgumentMemoryReferences_skeleton in E1 as [H1 M1].
  apply setupParameterMemoryReferences_skeleton in E2 as [H2 M2].
  apply setupSharedMemoryReferences_skeleton in E3 as [H3 M3].
  apply setupConstantMemoryReferences_skeleton in E4 as [H4 M4].
  apply setupTextureMemoryReferences_skeleton in E5 as [H5 M5].
  apply setupLocalMemoryReferences_skeleton in Hrun as [H6 M6].
  assert (Hall : same_skeleton kernel kernel').
  { etrans; [exact H0|]. etrans; [exact H1|]. etrans; [exact H2|].
    etrans; [exact H3|]. etrans; [exact H4|]. etrans; [exact H5|exact H6]. }
  destruct Hall as (? & ? & ? & ? & ?).
  repeat (split; [done|]).
  rewrite M6, M5, M4, M3, M2, M1. by split.
Qed.

End Skeleton.

Lemma memory_references_skeleton_witness :
  ∃ kernel' metadata',
    setupPTXMemoryReferences example_bytes mixed_kernel emptyMetadata
      (Some texture_device)
    = Ok (kernel', metadata')
    ∧ cfg_shape (PTXKernel.cfg kernel')
      = cfg_shape (PTXKernel.cfg mixed_kernel)
    ∧ Metadata.kernel metadata' = Metadata.kernel emptyMetadata.
Proof.
  destruct (setupPTXMemoryReferences example_bytes mixed_kernel emptyMetadata
              (Some texture_device)) as [[kernel' metadata']|f] eqn:Hrun;
    [|exfalso; vm_compute in Hrun; discriminate].
  exists kernel', metadata'. split; [reflexivity|].
  destruct (memory_references_skeleton example_bytes mixed_kernel kernel'
              emptyMetadata metadata' (Some texture_device) Hrun)
    as (_ & _ & _ & _ & Hshape & Hkernel & _).
  split; [exact Hshape|exact Hkernel].
Defined.

(** What the passes make of [mixed_kernel]: the argument [n] at 0 of
    argument memory, the constant [scale] at 0 of constant memory, the
    global [result] in global memory, the shared array [tile] at 0 of
    shared memory, the texture [image] in slot 0, and the local [counter]
    at 8 of local memory, after the two reserved words. *)
Example mixed_kernel_references :
  setupPTXMemoryReferences example_bytes mixed_kernel emptyMetadata
    (Some texture_device)
  = Ok (set_cfg mixed_kernel
          [[mkInstruction Ld emptyOperand
              (mkOperand Address "n" 0 true u32 0 []) emptyOperand
              emptyOperand Param false;
            mkInstruction Ld emptyOperand (addressOperand "scale" 0)
              emptyOperand emptyOperand Const false;
            mkInstruction Mov emptyOperand (addressOperand "result" 0)
              emptyOperand emptyOperand Global false];
           [mkInstruction St (addressOperand "tile" 4) emptyOperand
              emptyOperand emptyOperand Shared false;
            mkInstruction Tex emptyOperand (addressOperand "image" 0)
              emptyOperand emptyOperand Generic false;
            mkInstruction St (addressOperand "counter" 8) emptyOperand
              emptyOperand emptyOperand Local false]],
        Metadata.mk "kernel" 1 4 0 16 4 12 [500]).
Proof. reflexivity. Qed.

(** ** Postconditions *)

Section Postconditions.

Context {LLVM : Type}.

Lemma returns_with_inv {A : Type} (m : @M LLVM A) Q s a s' :
  returns_with m Q s → m s = Return a s' → Q a s'.
Proof. unfold returns_with. intros H E. by rewrite E in H. Qed.

Lemma returns_bind {A B : Type} (m : @M LLVM A) (k : A -> @M LLVM B) Q s :
  returns_with m (fun a s1 => returns_with (k a) Q s1) s →
  returns_with (m ≫= k) Q s.
Proof.
  unfold returns_with, mbind, M_bind. by destruct (m s).
Qed.

Lemma returns_ret {A : Type} (a : A) (Q : A -> Cache.t LLVM -> Prop) s :
  Q a s → returns_with (mret a) Q s.
Proof. done. Qed.

Lemma returns_get (Q : Cache.t LLVM -> Cache.t LLVM -> Prop) s :
  Q s s → returns_with get Q s.
Proof. done. Qed.

Lemma returns_modify f (Q : unit -> Cache.t LLVM -> Prop) s :
  Q tt (f s) → returns_with (modify f) Q s.
Proof. done. Qed.

Lemma returns_abort {A : Type} f (Q : A -> Cache.t LLVM -> Prop) s :
  returns_with (abort f) Q s.
Proof. done. Qed.

Lemma returns_throw {A : Type} message (Q : A -> Cache.t LLVM -> Prop) s :
  returns_with (throw message) Q s.
Proof. done. Qed.

Lemma returns_assertM cond what (Q : unit -> Cache.t LLVM -> Prop) s :
  (cond = true → Q tt s) → returns_with (assertM cond what) Q s.
Proof.
  unfold returns_with, assertM. intros H. destruct cond; [|done].
  by apply H.
Qed.

Lemma returns_liftR {A : Type} (r : result A)
    (Q : A -> Cache.t LLVM -> Prop) s :
  (∀ a, r = Ok a → Q a s) → returns_with (liftR r) Q s.
Proof.
  unfold returns_with, liftR. intros H. destruct r; [|done]. by apply H.
Qed.

Lemma returns_deref {A : Type} (p : option A) what
    (Q : A -> Cache.t LLVM -> Prop) s :
  (∀ a, p = Some a → Q a s) → returns_with (deref p what) Q s.
Proof.
  unfold returns_with, deref. intros H. destruct p; [|done]. by apply H.
Qed.

Lemma returns_liftL {A : Type} (op : LLVM -> outcome LLVM A)
    (Q : A -> Cache.t LLVM -> Prop) s :
  (∀ a l, op (Cache.llvm s) = Return a l → Q a (set_llvm s l)) →
  returns_with (liftL op) Q s.
Proof.
  unfold returns_with, liftL. intros H.
  destruct (op (Cache.llvm s)) as [a l| |]; [|done..]. by apply H.
Qed.

Lemma returns_alloc (Q : ptr -> Cache.t LLVM -> Prop) s :
  Q (Heap.next (Cache.heap s))
    (set_heap s (set_next (Cache.heap s) (Heap.next (Cache.heap s) + 1))) →
  returns_with alloc Q s.
Proof. done. Qed.

Lemma returns_try_catch {A : Type} (body : @M LLVM A) handler Q s :
  returns_with body Q s → returns_with (try_catch body handler) Q s.
Proof.
  unfold returns_with, try_catch.
  destruct (body s) as [a s1|message s1|f]; [done| |done].
  by destruct (handler s1).
Qed.

Lemma returns_preserved {A : Type} (R : Cache.t LLVM -> Cache.t LLVM -> Prop)
    (m : @M LLVM A) (Q : A -> Cache.t LLVM -> Prop) s :
  preserves R m → (∀ a s', R s s' → Q a s') → returns_with m Q s.
Proof.
  intros Hm HQ. unfold returns_with. specialize (Hm s).
  destruct (m s); [|done..]. by apply HQ.
Qed.

Lemma returns_forM {A : Type} (I : list A -> Cache.t LLVM -> Prop)
    (body : A -> @M LLVM unit) :
  (∀ done x s, I done s →
     returns_with (body x) (fun _ s' => I (done ++ [x]) s') s) →
  ∀ l done s, I done s →
    returns_with (forM l body) (fun _ s' => I (done ++ l) s') s.
Proof.
  intros Hbody. induction l as [|x l IH]; intros done s HI.
  - cbn. by rewrite app_nil_r.
  - cbn [forM]. apply returns_bind.
    specialize (Hbody done x s HI). unfold returns_with in Hbody |- *.
    destruct (body x s) as [[] s1| |]; [|done..].
    specialize (IH (done ++ [x]) s1 Hbody).
    by rewrite <- app_assoc in IH.
Qed.

End Postconditions.

#[global] Instance only_llvm_preorder {LLVM : Type} :
  PreOrder (@only_llvm LLVM).
Proof.
  split; [by intros s|]. intros s1 s2 s3 H1 H2.
  unfold only_llvm in *. intuition congruence.
Qed.

Lemma only_llvm_eq {LLVM : Type} (s s' : Cache.t LLVM) :
  only_llvm s s' → s' = set_llvm s (Cache.llvm s').
Proof.
  destruct s, s'. unfold only_llvm, set_llvm. cbn.
  by intros (-> & -> & -> & -> & -> & ->).
Qed.

Lemma returns_only_llvm {LLVM A : Type} (m : @M LLVM A)
    (Q : A -> Cache.t LLVM -> Prop) s :
  preserves only_llvm m → (∀ a l, Q a (set_llvm s l)) →
  returns_with m Q s.
Proof.
  intros Hm HQ. unfold returns_with. specialize (Hm s).
  destruct (m s) as [a s'| |]; [|done..].
  rewrite (only_llvm_eq s s' Hm). apply HQ.
Qed.

(** The projections of a state that was built by the setters. *)
Ltac simpl_state :=
  cbn [Cache.modules Cache.kernels Cache.subkernelsToKernel
       Cache.translationCache Cache.members Cache.heap Cache.llvm
       set_modules set_kernels set_subkernelsToKernel set_translationCache
       set_members set_heap set_llvm
       Heap.next Heap.indeterminate Heap.TranslatedKernels Heap.Translations
       Heap.Metadatas Heap.Kernels
       set_TranslatedKernels set_Translations set_Metadatas set_Kernels
       set_next] in *.

(** What was read is what was written, and what was read twice is the
    same. *)
Ltac clean_lookups :=
  repeat match goal with
         | H : <[?p := _]> _ !! ?p = Some _ |- _ =>
             rewrite lookup_insert_eq in H; injection H as <-
         | H1 : ?x = Some ?a, H2 : ?x = Some _ |- _ =>
             rewrite H1 in H2; injection H2 as <-
         end.

(** One step of an operation built from the primitives of the monad. *)
Ltac returns_step :=
  cbv beta; simpl_state;
  lazymatch goal with
  | |- returns_with (mbind _ _) _ _ => apply returns_bind
  | |- returns_with (mret _) _ _ => apply returns_ret
  | |- returns_with get _ _ => apply returns_get
  | |- returns_with (modify _) _ _ => apply returns_modify
  | |- returns_with (abort _) _ _ => apply returns_abort
  | |- returns_with (throw _) _ _ => apply returns_throw
  | |- returns_with (assertM _ _) _ _ => apply returns_assertM; intros ?
  | |- returns_with (liftR _) _ _ => apply returns_liftR; intros ? ?
  | |- returns_with (deref _ _) _ _ =>
      apply returns_deref; intros ? ?; simpl_state; clean_lookups
  | |- returns_with (liftL _) _ _ => apply returns_liftL; intros ? ? ?
  | |- returns_with alloc _ _ => apply returns_alloc
  | |- returns_with (try_catch _ _) _ _ => apply returns_try_catch
  | |- returns_with (match ?x with _ => _ end) _ _ => destruct x eqn:?
  | |- returns_with (let _ := _ in _) _ _ => cbv zeta
  end.

Section Publication.

Context {LLVM : Type}.
Variable backend : Backend LLVM.

Lemma linkLLVMModule_only_llvm module kernel device :
  preserves only_llvm (linkLLVMModule backend module kernel device).
Proof.
  unfold linkLLVMModule, linkGlobal.
  repeat preserves_step frame_facts.
Qed.

Lemma specialization_builds_returns translatedKernel subkernelId
    optimizationLevel warpSize specialization (s : Cache.t LLVM) :
  returns_with
    (_specializeTranslation backend translatedKernel subkernelId
       optimizationLevel warpSize specialization)
    (fun translation s' =>
       ∃ tk t function clone l1 l2 l2',
         Heap.TranslatedKernels (Cache.heap s) !! translatedKernel = Some tk ∧
         translation = Heap.next (Cache.heap s) ∧
         Heap.Translations (Cache.heap s') !! translation = Some t ∧
         Translation.metadata t
         = TranslatedSubkernel.metadata (subkernelEntry tk subkernelId) ∧
         TranslatedKernel.llvmFunction tk = Some function ∧
         CloneFunction backend function (Cache.llvm s) = Return clone l1 ∧
         Translation.llvmFunction t = Some clone ∧
         getPointerToFunction backend clone l2
         = Return (Translation.function t) l2' ∧
         Translation.warpSize t = Heap.indeterminate (Cache.heap s))
    s.
Proof.
  unfold _specializeTranslation, specialize, cloneAndOptimizeTranslation,
    write_subkernelEntry, read_TranslatedKernel, write_TranslatedKernel,
    read_Translation, write_Translation, modify_heap.
  repeat returns_step.
  apply returns_only_llvm; [apply linkLLVMModule_only_llvm|intros [] ?].
  repeat returns_step.
  simpl_state. rewrite lookup_insert_eq. cbn in *. simplify_eq.
  do 7 eexists.
  repeat (split; [first [eassumption|reflexivity]|]).
  reflexivity.
Qed.

(** X14.  What a specialization that returns has built.  The translation is a
    new object.  It holds the metadata of the entry of the subkernel, the
    clone of the function of the translated kernel that the backend
    returned, and the address the JIT returned for the clone; its warp
    size is never written, so the warp size of the call is not in it. *)
Theorem specialization_builds translatedKernel subkernelId
    optimizationLevel warpSize specialization (s s' : Cache.t LLVM)
    translation :
  _specializeTranslation backend translatedKernel subkernelId
    optimizationLevel warpSize specialization s
  = Return translation s' →
  ∃ tk t function clone l1 l2 l2',
    Heap.TranslatedKernels (Cache.heap s) !! translatedKernel = Some tk ∧
    translation = Heap.next (Cache.heap s) ∧
    Heap.Translations (Cache.heap s') !! translation = Some t ∧
    Translation.metadata t
    = TranslatedSubkernel.metadata (subkernelEntry tk subkernelId) ∧
    TranslatedKernel.llvmFunction tk = Some function ∧
    CloneFunction backend function (Cache.llvm s) = Return clone l1 ∧
    Translation.llvmFunction t = Some clone ∧
    getPointerToFunction backend clone l2
    = Return (Translation.function t) l2' ∧
    Translation.warpSize t = Heap.indeterminate (Cache.heap s).
Proof.
  intros Hrun.
  exact (returns_with_inv _ _ _ _ _
           (specialization_builds_returns translatedKernel subkernelId
              optimizationLevel warpSize specialization s) Hrun).
Qed.

End Publication.

Lemma specialization_builds_witness :
  ∃ translation s' t,
    _specializeTranslation (example_backend Sound) 60 7 BasicOptimization 4 0
      translated_cache
    = Return translation s'
    ∧ Heap.Translations (Cache.heap s') !! translation = Some t
    ∧ Translation.metadata t = Some 70.
Proof.
  destruct (_specializeTranslation (example_backend Sound) 60 7
              BasicOptimization 4 0 translated_cache)
    as [translation s'| |] eqn:Hrun;
    [|exfalso; vm_compute in Hrun; discriminate..].
  destruct (specialization_builds (example_backend Sound) 60 7
              BasicOptimization 4 0 translated_cache s' translation Hrun)
    as (tk & t & function & clone & l1 & l2 & l2' & Htk & _ & Ht & Hmetadata
        & _).
  exists translation, s', t. split; [reflexivity|]. split; [exact Ht|].
  rewrite Hmetadata.
  vm_compute in Htk. injection Htk as <-. reflexivity.
Defined.

(** ** What a registration builds *)

Section RegistrationBuilds.

Context {LLVM : Type}.
Variable PTXOperand_bytes : DataType -> N.
Variable backend : Backend LLVM.

Lemma returns_mono {A : Type} (m : @M LLVM A)
    (Q Q' : A -> Cache.t LLVM -> Prop) s :
  returns_with m Q s → (∀ a s', Q a s' → Q' a s') → returns_with m Q' s.
Proof.
  unfold returns_with. intros H HQ. destruct (m s); [|done..]. by apply HQ.
Qed.

Lemma translateSubkernelEntry_registered kernel translatedKernel member
    done id (s : Cache.t LLVM) :
  registered kernel translatedKernel member done s →
  returns_with
    (translateSubkernelEntry PTXOperand_bytes backend translatedKernel
       kernel id)
    (fun _ s' => registered kernel translatedKernel member (done ++ [id]) s')
    s.
Proof.
  intros (Hkernels & Hmember & Hdone & tk & Htk & Hback & Hlocal & Hshared
          & Hkeys).
  unfold translateSubkernelEntry, translateSubkernel, generateMetadata,
    read_subkernelPtx, write_subkernelPtx, read_TranslatedKernel,
    write_TranslatedKernel, read_Metadata, write_Metadata, delete_Metadata,
    read_Kernel, write_Kernel, modify_heap.
  repeat returns_step.
  all: unfold registered; simpl_state.
  all: split; [exact Hkernels|]; split; [exact Hmember|]; split.
  all: try (intros i Hi; apply elem_of_app in Hi as [Hi|Hi];
            [destruct (decide (i = id)) as [->|Hne];
             [apply lookup_insert_eq|rewrite lookup_insert_ne by done; auto]
            |apply list_elem_of_singleton in Hi as ->;
             apply lookup_insert_eq]).
  all: rewrite lookup_insert_eq; eexists; split; [reflexivity|]; cbn.
  all: repeat (split; [done|]).
  all: intros i Hi; apply lookup_insert_is_Some in Hi as [Hi|[_ Hi]];
    [congruence|by apply Hkeys].
Qed.

Lemma registerKernel_registers_returns kernel k module (s : Cache.t LLVM) :
  Heap.Kernels (Cache.heap s) !! kernel = Some k →
  Cache.modules s !! Module_.name (DynamicMulticoreKernel.module k)
  = Some module →
  ModuleMetadata.kernels module !! DynamicMulticoreKernel.name k = None →
  returns_with (registerKernel PTXOperand_bytes backend kernel)
    (fun _ s' =>
       registered kernel (Heap.next (Cache.heap s))
         (Members.subkernelId (Cache.members s))
         (DynamicMulticoreKernel.subkernels k).*1 s')
    s.
Proof.
  intros Hk Hmodule Hfresh.
  unfold registerKernel, new_TranslatedKernel, read_TranslatedKernel,
    write_TranslatedKernel, read_Kernel, modify_heap.
  repeat returns_step.
  { simplify_eq. }
  unfold _translateKernel, read_TranslatedKernel, read_Kernel.
  repeat returns_step. cbn [TranslatedKernel.kernel] in *. clean_lookups.
  eapply returns_mono.
  - apply (returns_forM
             (registered kernel (Heap.next (Cache.heap s))
                (Members.subkernelId (Cache.members s)))
             (translateSubkernelEntry PTXOperand_bytes backend
                (Heap.next (Cache.heap s)) kernel)
             (fun done id s1 =>
                translateSubkernelEntry_registered kernel
                  (Heap.next (Cache.heap s))
                  (Members.subkernelId (Cache.members s)) done id s1)
             _ []).
    unfold registered. simpl_state.
    split; [apply lookup_insert_eq|]. split; [done|].
    split; [by intros id Hid; apply elem_of_nil in Hid|].
    rewrite lookup_insert_eq. eexists. split; [reflexivity|]. cbn.
    repeat (split; [done|]).
    intros id Hid. rewrite lookup_empty in Hid. by destruct Hid.
  - intros [] s'. done.
Qed.

(** X15.  What a registration that returns has built, for a kernel that its
    module does not hold yet.  The translated kernel is a new object; the
    registry of kernels maps the kernel to it and every subkernel of the
    kernel is mapped to it; it points back to the kernel; its memory
    sizes are 0, whatever the sizes the passes found; and it has an entry
    for no subkernel but the one the member [subkernelId] names, whatever
    the subkernels of the kernel are. *)
Theorem registerKernel_registers kernel k module (s s' : Cache.t LLVM) :
  Heap.Kernels (Cache.heap s) !! kernel = Some k →
  Cache.modules s !! Module_.name (DynamicMulticoreKernel.module k)
  = Some module →
  ModuleMetadata.kernels module !! DynamicMulticoreKernel.name k = None →
  registerKernel PTXOperand_bytes backend kernel s = Return tt s' →
  registered kernel (Heap.next (Cache.heap s))
    (Members.subkernelId (Cache.members s))
    (DynamicMulticoreKernel.subkernels k).*1 s'.
Proof.
  intros Hk Hmodule Hfresh Hrun.
  exact (returns_with_inv _ _ _ _ _
           (registerKernel_registers_returns kernel k module s Hk Hmodule
              Hfresh) Hrun).
Qed.

End RegistrationBuilds.

Lemma registerKernel_registers_witness :
  ∃ s',
    registerKernel example_bytes (example_backend Sound) 50 loaded_cache
    = Return tt s'
    ∧ registered 50 100 7 [7; 8] s'.
Proof.
  destruct (registerKernel example_bytes (example_backend Sound) 50
              loaded_cache) as [[] s'| |] eqn:Hrun;
    [|exfalso; vm_compute in Hrun; discriminate..].
  exists s'. split; [reflexivity|].
  exact (registerKernel_registers example_bytes (example_backend Sound) 50
           example_kernel
           (ModuleMetadata.mk emptyModule (Some example_device) ∅)
           loaded_cache s' eq_refl eq_refl eq_refl Hrun).
Defined.

(** ** Linking *)

Section Linking.

Context {LLVM : Type}.
Variable backend : Backend LLVM.

Lemma linkGlobals_filter module kernel device
    (globals : list (string * PTXStatement.t)) (s : Cache.t LLVM) :
  forM globals (linkGlobal backend module kernel device) s
  = forM (filter (fun global =>
                    PTXStatement.directive global.2 = Directive_Global)
            globals)
      (linkGlobal backend module kernel device) s.
Proof.
  revert s. induction globals as [|global rest IH]; intros s; [done|].
  rewrite filter_cons.
  destruct (decide (PTXStatement.directive global.2 = Directive_Global))
    as [Hd|Hd].
  - cbn [forM]. apply bind_ext. intros _ s1. apply IH.
  - cbn [forM].
    assert (Hskip : linkGlobal backend module kernel device global s
                    = Return tt s)
      by (unfold linkGlobal; by rewrite bool_decide_eq_false_2).
    rewrite (bind_Return _ _ _ _ _ Hskip). apply IH.
Qed.

(** X16.  [linkLLVMModule] needs a device only for a module that declares a
    variable with the directive [.global]: without such a variable it
    returns and changes nothing, whatever the device; with one and a null
    device it fails its first assertion.  In every case it changes the
    state of LLVM at most. *)
Theorem linkLLVMModule_device module kernel device (s : Cache.t LLVM) :
  (global_variables kernel = [] →
   linkLLVMModule backend module kernel device s = Return tt s)
  ∧ (global_variables kernel ≠ [] → device = None →
     linkLLVMModule backend module kernel device s
     = Abort (AssertionFailed "device != 0"))
  ∧ match linkLLVMModule backend module kernel device s with
    | Return _ s' | Throw _ s' => only_llvm s s'
    | Abort _ => True
    end.
Proof.
  split; [|split].
  - intros Hnone. unfold linkLLVMModule. rewrite linkGlobals_filter.
    unfold global_variables in Hnone. by rewrite Hnone.
  - intros Hsome ->. unfold linkLLVMModule. rewrite linkGlobals_filter.
    unfold global_variables in Hsome.
    destruct (filter _ (Module_.globals (PTXKernel.module kernel)))
      as [|global rest] eqn:Hfilter; [done|].
    assert (Hd : PTXStatement.directive global.2 = Directive_Global).
    { assert (Hin : global ∈ global :: rest) by left.
      rewrite <- Hfilter in Hin.
      by apply list_elem_of_filter in Hin as [Hin _]. }
    cbn [forM]. apply bind_Abort. unfold linkGlobal.
    by rewrite bool_decide_eq_true_2.
  - apply (linkLLVMModule_only_llvm backend module kernel device s).
Qed.

End Linking.

Lemma linkLLVMModule_device_witness :
  global_variables constant_kernel ≠ []
  ∧ linkLLVMModule (example_backend Sound) 0 constant_kernel None empty_cache
    = Abort (AssertionFailed "device != 0").
Proof.
  assert (H : global_variables constant_kernel ≠ [])
    by (vm_compute; discriminate).
  split; [exact H|].
  exact (proj1 (proj2 (linkLLVMModule_device (example_backend Sound) 0
                         constant_kernel None empty_cache)) H eq_refl).
Defined.

(** ** The passes together *)

Lemma entry_of_same offsets operand operand' :
  addressMode operand' = addressMode operand →
  identifier operand' = identifier operand →
  entry_of offsets operand' = entry_of offsets operand.
Proof. unfold entry_of. by intros -> ->. Qed.

Lemma shared_entry_same offsets external sharedSize operand operand' :
  addressMode operand' = addressMode operand →
  identifier operand' = identifier operand →
  shared_entry offsets external sharedSize operand'
  = shared_entry offsets external sharedSize operand.
Proof. unfold shared_entry. by intros -> ->. Qed.

Lemma mapArgumentOperand_fields offsets operand :
  addressMode (mapArgumentOperand offsets operand) = addressMode operand
  ∧ identifier (mapArgumentOperand offsets operand) = identifier operand
  ∧ offset (mapArgumentOperand offsets operand)
    = match entry_of offsets operand with
      | Some entry => wrap32 (offset operand + entry)
      | None => offset operand
      end
  ∧ isArgument (mapArgumentOperand offsets operand)
    = match entry_of offsets operand with
      | Some _ => true
      | None => isArgument operand
      end.
Proof.
  unfold mapArgumentOperand, entry_of.
  destruct (decide (addressMode operand = Address)); [|done].
  by destruct (offsets !! identifier operand).
Qed.

Lemma mapParameterOperand_fields offsets operand :
  addressMode (mapParameterOperand offsets operand) = addressMode operand
  ∧ identifier (mapParameterOperand offsets operand) = identifier operand
  ∧ offset (mapParameterOperand offsets operand)
    = match entry_of offsets operand with
      | Some entry => wrap32 (offset operand + entry)
      | None => offset operand
      end
  ∧ isArgument (mapParameterOperand offsets operand)
    = match entry_of offsets operand with
      | Some _ => false
      | None => isArgument operand
      end.
Proof.
  unfold mapParameterOperand, entry_of.
  destruct (decide (addressMode operand = Address)); [|done].
  by destruct (offsets !! identifier operand).
Qed.

Lemma relocated_fields offsets operand :
  addressMode (relocated offsets operand) = addressMode operand
  ∧ identifier (relocated offsets operand) = identifier operand
  ∧ offset (relocated offsets operand)
    = match entry_of offsets operand with
      | Some entry => wrap32 (offset operand + entry)
      | None => offset operand
      end
  ∧ isArgument (relocated offsets operand) = isArgument operand.
Proof. unfold relocated. by destruct (entry_of offsets operand). Qed.

Lemma shared_relocated_fields offsets external sharedSize operand :
  addressMode (shared_relocated offsets external sharedSize operand)
  = addressMode operand
  ∧ identifier (shared_relocated offsets external sharedSize operand)
    = identifier operand
  ∧ offset (shared_relocated offsets external sharedSize operand)
    = match shared_entry offsets external sharedSize operand with
      | Some entry => wrap32 (offset operand + entry)
      | None => offset operand
      end
  ∧ isArgument (shared_relocated offsets external sharedSize operand)
    = isArgument operand.
Proof.
  unfold shared_relocated, shared_entry.
  destruct (decide (addressMode operand = Address)); [|done].
  destruct (decide (identifier operand ∈ external)); [done|].
  by destruct (offsets !! identifier operand).
Qed.

Lemma final_operand_fields layouts sharedSize operand :
  offset operand < 2 ^ 32 →
  let operand' :=
    relocated (local_table layouts)
      (relocated (constant_table layouts)
         (shared_relocated (shared_offsets (shared_table layouts))
            (shared_external (shared_table layouts)) sharedSize
            (mapParameterOperand (call_table layouts)
               (mapArgumentOperand (argument_table layouts) operand)))) in
  offset operand'
  = wrap32 (offset operand + relocation layouts sharedSize operand)
  ∧ isArgument operand' = final_isArgument layouts operand.
Proof.
  intros Hsmall.
  destruct (mapArgumentOperand_fields (argument_table layouts) operand)
    as (M1 & I1 & O1 & A1).
  set (o1 := mapArgumentOperand (argument_table layouts) operand) in *.
  destruct (mapParameterOperand_fields (call_table layouts) o1)
    as (M2 & I2 & O2 & A2).
  set (o2 := mapParameterOperand (call_table layouts) o1) in *.
  destruct (shared_relocated_fields
              (shared_offsets (shared_table layouts))
              (shared_external (shared_table layouts)) sharedSize o2)
    as (M3 & I3 & O3 & A3).
  set (o3 := shared_relocated _ _ sharedSize o2) in *.
  destruct (relocated_fields (constant_table layouts) o3)
    as (M4 & I4 & O4 & A4).
  set (o4 := relocated (constant_table layouts) o3) in *.
  destruct (relocated_fields (local_table layouts) o4)
    as (M5 & I5 & O5 & A5).
  set (o5 := relocated (local_table layouts) o4) in *.
  rewrite (entry_of_same _ operand o1) in O2, A2 by done.
  rewrite (shared_entry_same _ _ _ operand o2) in O3 by congruence.
  rewrite (entry_of_same _ operand o3) in O4 by congruence.
  rewrite (entry_of_same _ operand o4) in O5 by congruence.
  cbv zeta. split.
  - rewrite O5, O4, O3, O2, O1. unfold relocation.
    destruct (entry_of (argument_table layouts) operand) as [va|];
      destruct (entry_of (call_table layouts) operand) as [vp|];
      destruct (shared_entry _ _ sharedSize operand) as [vs|];
      destruct (entry_of (constant_table layouts) operand) as [vc|];
      destruct (entry_of (local_table layouts) operand) as [vl|];
      cbn [default from_option id];
      rewrite ?N.add_0_r;
      try (rewrite wrap32_small by done; done);
      repeat first [rewrite wrap32_idemp_l|rewrite <- N.add_assoc];
      f_equal; lia.
  - rewrite A5, A4, A3, A2, A1. unfold final_isArgument.
    by destruct (entry_of (call_table layouts) operand).
Qed.

Lemma get_operand_global module ptx (i : nat) :
  get_operand i (mapGlobalInstruction module ptx) = get_operand i ptx.
Proof.
  unfold mapGlobalInstruction.
  destruct (_ && _); [|done].
  destruct (map_find _ _) as [statement|]; [|done].
  destruct (bool_decide _); [|done].
  apply get_operand_set_addressSpace.
Qed.

Lemma addressSpace_map_operands f ptx :
  addressSpace (map_operands f ptx) = addressSpace ptx.
Proof. by destruct ptx. Qed.

Lemma get_operand_argument offsets ptx (i : nat) :
  isMovLdSt ptx = true → (i < 4)%nat →
  get_operand i (mapArgumentInstruction offsets ptx)
  = mapArgumentOperand offsets (get_operand i ptx).
Proof.
  intros Hguard Hi. unfold mapArgumentInstruction. rewrite Hguard.
  by apply get_map_operands.
Qed.

Lemma get_operand_parameter offsets ptx (i : nat) :
  isMovLdSt ptx = true → (i < 4)%nat →
  get_operand i (mapParameterInstruction offsets ptx)
  = mapParameterOperand offsets (get_operand i ptx).
Proof.
  intros Hguard Hi. unfold mapParameterInstruction. rewrite Hguard.
  by apply get_map_operands.
Qed.

Lemma addressSpace_argument offsets ptx :
  addressSpace (mapArgumentInstruction offsets ptx) = addressSpace ptx.
Proof.
  unfold mapArgumentInstruction. destruct (isMovLdSt ptx); [|done].
  apply addressSpace_map_operands.
Qed.

Lemma addressSpace_parameter offsets ptx :
  addressSpace (mapParameterInstruction offsets ptx) = addressSpace ptx.
Proof.
  unfold mapParameterInstruction. destruct (isMovLdSt ptx); [|done].
  apply addressSpace_map_operands.
Qed.

Lemma isMovLdSt_Cvta ptx : isMovLdSt ptx = true → isMovLdStCvta ptx = true.
Proof. unfold isMovLdStCvta. by intros ->. Qed.

Lemma get_operand_shared offsets external sharedSize ptx (i : nat) :
  isMovLdSt ptx = true → (i < 4)%nat →
  get_operand i (finalSharedInstruction offsets external sharedSize ptx)
  = shared_relocated offsets external sharedSize (get_operand i ptx).
Proof.
  intros Hguard Hi.
  rewrite (finalSharedInstruction_eq _ _ _ _ (isMovLdSt_Cvta _ Hguard)).
  destruct i as [|[|[|[|]]]]; try lia; reflexivity.
Qed.

Lemma addressSpace_shared offsets external sharedSize ptx :
  isMovLdSt ptx = true →
  addressSpace (finalSharedInstruction offsets external sharedSize ptx)
  = if existsb (names_packed offsets external) [d ptx; a ptx; b ptx; c ptx]
    then Shared else addressSpace ptx.
Proof.
  intros Hguard.
  by rewrite (finalSharedInstruction_eq _ _ _ _ (isMovLdSt_Cvta _ Hguard)).
Qed.

Lemma get_operand_space space offsets ptx (i : nat) :
  isMovLdSt ptx = true → (i < 4)%nat →
  get_operand i (mapSpaceInstruction space offsets ptx)
  = relocated offsets (get_operand i ptx).
Proof.
  intros Hguard Hi. rewrite (mapSpaceInstruction_eq _ _ _ Hguard).
  destruct i as [|[|[|[|]]]]; try lia; reflexivity.
Qed.

Lemma addressSpace_space space offsets ptx :
  isMovLdSt ptx = true →
  addressSpace (mapSpaceInstruction space offsets ptx)
  = if names_entry offsets ptx then space else addressSpace ptx.
Proof. intros Hguard. by rewrite (mapSpaceInstruction_eq _ _ _ Hguard). Qed.

(** What depends on the shape of an instruction only. *)
Lemma instruction_shape_inv ptx ptx' :
  instruction_shape ptx' = instruction_shape ptx →
  opcode ptx' = opcode ptx ∧
  ∀ i : nat,
    addressMode (get_operand i ptx') = addressMode (get_operand i ptx) ∧
    identifier (get_operand i ptx') = identifier (get_operand i ptx) ∧
    array (get_operand i ptx') = array (get_operand i ptx).
Proof.
  destruct ptx as [op od oa ob oc sp tc], ptx' as [op' od' oa' ob' oc' sp' tc'].
  unfold instruction_shape, operand_shape. cbn.
  intros [= -> -> Hd1 Hd2 Hd3 Hd4 Ha1 Ha2 Ha3 Ha4 Hb1 Hb2 Hb3 Hb4
            Hc1 Hc2 Hc3 Hc4].
  split; [done|]. intros i. by destruct i as [|[|[|]]].
Qed.

Lemma isMovLdSt_shape ptx ptx' :
  instruction_shape ptx' = instruction_shape ptx →
  isMovLdSt ptx' = isMovLdSt ptx.
Proof.
  intros H. apply instruction_shape_inv in H as [Hop _].
  unfold isMovLdSt. by rewrite Hop.
Qed.

Lemma names_entry_shape offsets ptx ptx' :
  instruction_shape ptx' = instruction_shape ptx →
  names_entry offsets ptx' = names_entry offsets ptx.
Proof.
  intros H. apply instruction_shape_inv in H as [_ H].
  unfold names_entry. cbn [existsb].
  by rewrite !(entry_of_same offsets (get_operand _ ptx) (get_operand _ ptx'))
    by apply H.
Qed.

Lemma names_packed_same offsets external operand operand' :
  addressMode operand' = addressMode operand →
  identifier operand' = identifier operand →
  names_packed offsets external operand'
  = names_packed offsets external operand.
Proof. unfold names_packed. by intros -> ->. Qed.

Lemma names_packed_shape offsets external ptx ptx' :
  instruction_shape ptx' = instruction_shape ptx →
  existsb (names_packed offsets external)
    [d ptx'; a ptx'; b ptx'; c ptx']
  = existsb (names_packed offsets external) [d ptx; a ptx; b ptx; c ptx].
Proof.
  intros H. apply instruction_shape_inv in H as [_ H].
  cbn [existsb].
  rewrite (names_packed_same _ _ (d ptx) (d ptx')) by apply (H 0%nat).
  rewrite (names_packed_same _ _ (a ptx) (a ptx')) by apply (H 1%nat).
  rewrite (names_packed_same _ _ (b ptx) (b ptx')) by apply (H 2%nat).
  by rewrite (names_packed_same _ _ (c ptx) (c ptx')) by apply (H 3%nat).
Qed.

Lemma foldM_same_images {A B S : Type} (body : A -> S -> result S)
    (f : A -> B) :
  (∀ x y s, f x = f y → body x s = body y s) →
  ∀ l1 l2 s, map f l1 = map f l2 → foldM body l1 s = foldM body l2 s.
Proof.
  intros Hbody. induction l1 as [|x l1 IH]; intros [|y l2] s Hmap;
    try done.
  injection Hmap as Hxy Hrest. cbn [foldM].
  rewrite (Hbody x y s Hxy).
  destruct (body y s) as [s1|?]; [|done]. cbn. by apply IH.
Qed.

Lemma concat_cfg_shape cfg cfg' :
  cfg_shape cfg' = cfg_shape cfg →
  map instruction_shape (concat cfg') = map instruction_shape (concat cfg).
Proof. unfold cfg_shape. intros H. by rewrite !concat_map, H. Qed.

Lemma mapAccumM_Forall2 {A B S : Type} (body : A -> S -> result (B * S))
    (P : A -> B -> Prop) :
  (∀ x s y s', body x s = Ok (y, s') → P x y) →
  ∀ l s l' s', mapAccumM body l s = Ok (l', s') → Forall2 P l l'.
Proof.
  intros Hbody. induction l as [|x l IH]; intros s l' s' Hrun.
  - injection Hrun as <- <-. constructor.
  - cbn [mapAccumM] in Hrun.
    destruct (body x s) as [[y s1]|?] eqn:Hstep; [|done]. cbn in Hrun.
    destruct (mapAccumM body l s1) as [[ys s2]|?] eqn:Hrest; [|done].
    cbn in Hrun. injection Hrun as <- <-.
    constructor; [by eapply Hbody|by eapply IH].
Qed.

Lemma mapTextureInstruction_other device path ptx st ptx' st' :
  mapTextureInstruction device path ptx st = Ok (ptx', st') →
  opcode ptx ≠ Tex → ptx' = ptx.
Proof.
  unfold mapTextureInstruction. destruct st as [textures listed].
  intros Hrun Hop. rewrite bool_decide_eq_false_2 in Hrun by done.
  by injection Hrun as <- <-.
Qed.

Section Compose.

Variable PTXOperand_bytes : DataType -> N.

Lemma layoutCall_shape ptx ptx' st :
  instruction_shape ptx' = instruction_shape ptx →
  layoutCall PTXOperand_bytes ptx' st = layoutCall PTXOperand_bytes ptx st.
Proof.
  intros H. apply instruction_shape_inv in H as [Hop H].
  unfold layoutCall. destruct st as [size offsets]. rewrite Hop.
  destruct (H 0%nat) as (_ & _ & Hd). destruct (H 1%nat) as (_ & Ha & _).
  destruct (H 2%nat) as (_ & _ & Hb). cbn [get_operand] in Hd, Ha, Hb.
  by rewrite Hd, Ha, Hb.
Qed.

Lemma layoutCalls_shape cfg cfg' st :
  cfg_shape cfg' = cfg_shape cfg →
  foldM (fun block st => foldM (layoutCall PTXOperand_bytes) block st) cfg' st
  = foldM (fun block st => foldM (layoutCall PTXOperand_bytes) block st)
      cfg st.
Proof.
  intros H. rewrite !foldM_concat.
  apply (foldM_same_images _ instruction_shape);
    [|by apply concat_cfg_shape].
  intros x y s Hxy. by apply layoutCall_shape.
Qed.

Lemma setupArgumentMemoryReferences_inv kernel metadata kernel' metadata' :
  setupArgumentMemoryReferences kernel metadata = Ok (kernel', metadata') →
  ∃ size offsets,
    layoutArguments (PTXKernel.arguments kernel) 0 ∅ = Ok (size, offsets) ∧
    kernel' = set_cfg kernel
                (map_cfg (mapArgumentInstruction offsets)
                   (PTXKernel.cfg kernel)) ∧
    metadata' = set_argumentSize metadata size.
Proof.
  unfold setupArgumentMemoryReferences.
  destruct (layoutArguments _ _ _) as [[size offsets]|?]; [|done].
  cbn. intros [= <- <-]. by exists size, offsets.
Qed.

Lemma setupParameterMemoryReferences_inv kernel metadata kernel' metadata' :
  setupParameterMemoryReferences PTXOperand_bytes kernel metadata
  = Ok (kernel', metadata') →
  ∃ size offsets size',
    foldM (fun block st => foldM (layoutCall PTXOperand_bytes) block st)
      (PTXKernel.cfg kernel) (0, ∅) = Ok (size, offsets) ∧
    foldM layoutFunction (Module_.kernels (PTXKernel.module kernel)) size
    = Ok size' ∧
    kernel' = set_cfg kernel
                (map_cfg (mapParameterInstruction offsets)
                   (PTXKernel.cfg kernel)) ∧
    metadata' = set_parameterSize metadata size'.
Proof.
  unfold setupParameterMemoryReferences.
  destruct (foldM _ (PTXKernel.cfg kernel) _) as [[size offsets]|?]; [|done].
  cbn. destruct (foldM layoutFunction _ _) as [size'|?] eqn:E; [|done].
  cbn. intros [= <- <-]. by exists size, offsets, size'.
Qed.

Lemma setupSharedMemoryReferences_inv kernel metadata kernel' metadata' :
  setupSharedMemoryReferences PTXOperand_bytes kernel metadata
  = Ok (kernel', metadata') →
  ∃ st sharedSize padding,
    layoutShared PTXOperand_bytes kernel = Ok st ∧
    pad (shared_sharedSize st) (shared_externalAlignment st)
    = Ok (sharedSize, padding) ∧
    kernel' = set_cfg kernel
                (map_cfg (finalSharedInstruction (shared_offsets st)
                            (shared_external st) sharedSize)
                   (PTXKernel.cfg kernel)) ∧
    metadata' = set_sharedSize metadata sharedSize.
Proof.
  unfold setupSharedMemoryReferences. intros Hrun.
  destruct (layoutShared PTXOperand_bytes kernel) as [st|?]; [|done].
  cbn in Hrun.
  pose proof (shared_cfg_final (shared_offsets st) (shared_external st))
    as Hfinal.
  destruct (pad (shared_sharedSize st) (shared_externalAlignment st))
    as [[sharedSize p]|?] eqn:Hpad.
  2: { destruct (mapSharedCfg _ _ 0 _); done. }
  specialize (Hfinal sharedSize (PTXKernel.cfg kernel)).
  destruct (mapSharedCfg (shared_offsets st) (shared_external st) 0
              (PTXKernel.cfg kernel)) as [cfg' refs].
  cbn in Hrun. rewrite Hfinal in Hrun. injection Hrun as <- <-.
  by exists st, sharedSize, p.
Qed.

Lemma setupConstantMemoryReferences_inv kernel metadata kernel' metadata' :
  setupConstantMemoryReferences kernel metadata = Ok (kernel', metadata') →
  ∃ size offsets,
    foldM layoutConstantGlobal (Module_.globals (PTXKernel.module kernel))
      (0, ∅) = Ok (size, offsets) ∧
    kernel' = set_cfg kernel
                (map_cfg (mapSpaceInstruction Const offsets)
                   (PTXKernel.cfg kernel)) ∧
    metadata' = set_constantSize metadata size.
Proof.
  unfold setupConstantMemoryReferences.
  destruct (foldM _ _ _) as [[size offsets]|?]; [|done].
  cbn. intros [= <- <-]. by exists size, offsets.
Qed.

Lemma setupTextureMemoryReferences_inv kernel metadata device kernel'
    metadata' :
  setupTextureMemoryReferences kernel metadata device
  = Ok (kernel', metadata') →
  ∃ cfg' textures,
    Forall2 (Forall2 (fun ptx ptx' => opcode ptx ≠ Tex → ptx' = ptx))
      (PTXKernel.cfg kernel) cfg' ∧
    kernel' = set_cfg kernel cfg' ∧
    metadata' = set_textures metadata textures.
Proof.
  unfold setupTextureMemoryReferences.
  destruct (mapAccumM _ _ _) as [[cfg' st']|?] eqn:Hrun; [|done].
  cbn. intros [= <- <-]. exists cfg', st'.2. split; [|done].
  eapply mapAccumM_Forall2; [|exact Hrun].
  intros block s block' s' Hblock.
  eapply mapAccumM_Forall2; [|exact Hblock].
  intros ptx s1 ptx' s1'. apply mapTextureInstruction_other.
Qed.

Lemma setupLocalMemoryReferences_inv kernel metadata kernel' metadata' :
  setupLocalMemoryReferences kernel metadata = Ok (kernel', metadata') →
  ∃ size offsets,
    layoutLocals (PTXKernel.locals kernel) = Ok (size, offsets) ∧
    kernel' = set_cfg kernel
                (map_cfg (mapSpaceInstruction Local offsets)
                   (PTXKernel.cfg kernel)) ∧
    metadata' = set_localSize metadata size.
Proof.
  unfold setupLocalMemoryReferences.
  destruct (layoutLocals _) as [[size offsets]|?]; [|done].
  cbn. intros [= <- <-]. by exists size, offsets.
Qed.

(** X17.  The passes together.  When [setupPTXMemoryReferences] returns, each
    pass has built the table it would build for the kernel it was given
    at first: no pass disturbs the layout of a later one, and the sizes
    in the metadata are those the passes found.  For every [Mov], [Ld] and
    [St] the relocations add up: each operand with a 32-bit offset ends
    with the sum of the entries it names in the five tables added to its
    offset, modulo 2^32; its argument flag is cleared when it names a
    parameter and set when it names an argument and no parameter; and the
    instruction is in the address space of the last pass one of whose
    entries an operand names. *)
Theorem memory_references_compose (kernel kernel' : PTXKernel.t)
    (metadata metadata' : Metadata.t) (device : option Device.t) :
  setupPTXMemoryReferences PTXOperand_bytes kernel metadata device
  = Ok (kernel', metadata') →
  ∃ layouts size padding,
    layoutArguments (PTXKernel.arguments kernel) 0 ∅
    = Ok (Metadata.argumentSize metadata', argument_table layouts) ∧
    foldM (fun block st => foldM (layoutCall PTXOperand_bytes) block st)
      (PTXKernel.cfg kernel) (0, ∅)
    = Ok (size, call_table layouts) ∧
    foldM layoutFunction (Module_.kernels (PTXKernel.module kernel)) size
    = Ok (Metadata.parameterSize metadata') ∧
    layoutShared PTXOperand_bytes kernel = Ok (shared_table layouts) ∧
    pad (shared_sharedSize (shared_table layouts))
      (shared_externalAlignment (shared_table layouts))
    = Ok (Metadata.sharedSize metadata', padding) ∧
    foldM layoutConstantGlobal (Module_.globals (PTXKernel.module kernel))
      (0, ∅)
    = Ok (Metadata.constantSize metadata', constant_table layouts) ∧
    layoutLocals (PTXKernel.locals kernel)
    = Ok (Metadata.localSize metadata', local_table layouts) ∧
    ∀ (bi ii : nat) ptx,
      instruction_at (PTXKernel.cfg kernel) bi ii = Some ptx →
      isMovLdSt ptx = true →
      ∃ ptx',
        instruction_at (PTXKernel.cfg kernel') bi ii = Some ptx' ∧
        addressSpace ptx'
        = final_space layouts (PTXKernel.module kernel) ptx ∧
        ∀ i : nat,
          (i < 4)%nat →
          offset (get_operand i ptx) < 2 ^ 32 →
          offset (get_operand i ptx')
          = wrap32 (offset (get_operand i ptx)
                    + relocation layouts (Metadata.sharedSize metadata')
                        (get_operand i ptx)) ∧
          isArgument (get_operand i ptx')
          = final_isArgument layouts (get_operand i ptx).
Proof.
  unfold setupPTXMemoryReferences. intros Hrun.
  set (k0 := setupGlobalMemoryReferences kernel) in *.
  destruct (setupArgumentMemoryReferences k0 metadata)
    as [[k1 m1]|?] eqn:E1; [|done]. cbn in Hrun.
  destruct (setupParameterMemoryReferences _ k1 m1)
    as [[k2 m2]|?] eqn:E2; [|done]. cbn in Hrun.
  destruct (setupSharedMemoryReferences _ k2 m2)
    as [[k3 m3]|?] eqn:E3; [|done]. cbn in Hrun.
  destruct (setupConstantMemoryReferences k3 m3)
    as [[k4 m4]|?] eqn:E4; [|done]. cbn in Hrun.
  destruct (setupTextureMemoryReferences k4 m4 device)
    as [[k5 m5]|?] eqn:E5; [|done]. cbn in Hrun.
  apply setupArgumentMemoryReferences_inv in E1
    as (sizeA & argT & LA & -> & ->).
  apply setupParameterMemoryReferences_inv in E2
    as (sizeP & parT & sizeP' & LP & LF & -> & ->).
  apply setupSharedMemoryReferences_inv in E3
    as (st & sharedSize & padding & LS & Hpad & -> & ->).
  apply setupConstantMemoryReferences_inv in E4
    as (sizeC & cT & LC & -> & ->).
  apply setupTextureMemoryReferences_inv in E5
    as (cfg5 & textures & Htex & -> & ->).
  apply setupLocalMemoryReferences_inv in Hrun
    as (sizeL & lT & LL & -> & ->).
  cbn [PTXKernel.cfg PTXKernel.module PTXKernel.locals PTXKernel.arguments
       set_cfg k0 setupGlobalMemoryReferences] in *.
  exists (mkLayouts argT parT st cT lT), sizeP, padding.
  cbn [argument_table call_table shared_table constant_table
       local_table Metadata.argumentSize Metadata.parameterSize
       Metadata.sharedSize Metadata.constantSize Metadata.localSize
       set_argumentSize set_parameterSize set_sharedSize set_constantSize
       set_textures set_localSize].
  split; [exact LA|].
  split.
  { rewrite <- LP. symmetry. apply layoutCalls_shape.
    unfold cfg_shape, map_cfg. rewrite <- !list_fmap_compose.
    apply list_fmap_ext. intros _ block _. cbn.
    rewrite <- !list_fmap_compose. apply list_fmap_ext. intros _ ptx _.
    cbn. by rewrite instruction_shape_argument, instruction_shape_global. }
  split; [exact LF|]. split; [exact LS|]. split; [exact Hpad|].
  split; [exact LC|]. split; [exact LL|].
  intros bi ii ptx Hat Hguard.
  set (p1 := mapGlobalInstruction (PTXKernel.module kernel) ptx).
  set (p2 := mapArgumentInstruction argT p1).
  set (p3 := mapParameterInstruction parT p2).
  set (p4 := finalSharedInstruction (shared_offsets st) (shared_external st)
               sharedSize p3).
  set (p5 := mapSpaceInstruction Const cT p4).
  assert (S1 : instruction_shape p1 = instruction_shape ptx)
    by apply instruction_shape_global.
  assert (S2 : instruction_shape p2 = instruction_shape ptx)
    by (unfold p2; by rewrite instruction_shape_argument).
  assert (S3 : instruction_shape p3 = instruction_shape ptx)
    by (unfold p3; by rewrite instruction_shape_parameter).
  assert (S4 : instruction_shape p4 = instruction_shape ptx)
    by (unfold p4; by rewrite instruction_shape_shared).
  assert (S5 : instruction_shape p5 = instruction_shape ptx)
    by (unfold p5; by rewrite instruction_shape_space).
  assert (G1 : isMovLdSt p1 = true) by (by rewrite (isMovLdSt_shape _ _ S1)).
  assert (G2 : isMovLdSt p2 = true) by (by rewrite (isMovLdSt_shape _ _ S2)).
  assert (G3 : isMovLdSt p3 = true) by (by rewrite (isMovLdSt_shape _ _ S3)).
  assert (G4 : isMovLdSt p4 = true) by (by rewrite (isMovLdSt_shape _ _ S4)).
  assert (G5 : isMovLdSt p5 = true) by (by rewrite (isMovLdSt_shape _ _ S5)).
  assert (Hat5 : instruction_at cfg5 bi ii = Some p5).
  { assert (Hat4 :
      instruction_at
        (map_cfg (mapSpaceInstruction Const cT)
           (map_cfg (finalSharedInstruction (shared_offsets st)
                       (shared_external st) sharedSize)
              (map_cfg (mapParameterInstruction parT)
                 (map_cfg (mapArgumentInstruction argT)
                    (map (map (mapGlobalInstruction
                                 (PTXKernel.module kernel)))
                       (PTXKernel.cfg kernel)))))) bi ii = Some p5).
    { rewrite !instruction_at_map.
      change (map (map ?f) ?c) with (map_cfg f c).
      by rewrite instruction_at_map, Hat. }
    unfold instruction_at in Hat4 |- *.
    destruct (_ !! bi) as [block|] eqn:Hbi in Hat4; [|done]. cbn in Hat4.
    destruct (Forall2_lookup_l _ _ _ _ _ Htex Hbi)
      as (block' & Hbi' & Hblock).
    destruct (Forall2_lookup_l _ _ _ _ _ Hblock Hat4)
      as (ptx5 & Hii' & Hsame).
    rewrite Hbi'. cbn. rewrite Hii'. f_equal. apply Hsame.
    apply instruction_shape_inv in S5 as [Hop _]. rewrite Hop.
    unfold isMovLdSt in Hguard. intros Htexop. rewrite Htexop in Hguard.
    done. }
  exists (mapSpaceInstruction Local lT p5).
  split; [by rewrite instruction_at_map, Hat5|].
  split.
  - unfold final_space.
    cbn [local_table constant_table shared_table].
    rewrite (addressSpace_space _ _ _ G5), (names_entry_shape _ _ _ S5).
    unfold p5.
    rewrite (addressSpace_space _ _ _ G4), (names_entry_shape _ _ _ S4).
    unfold p4.
    rewrite (addressSpace_shared _ _ _ _ G3), (names_packed_shape _ _ _ _ S3).
    unfold p3, p2.
    by rewrite addressSpace_parameter, addressSpace_argument.
  - intros i Hi Hsmall.
    rewrite (get_operand_space _ _ _ _ G5 Hi). unfold p5.
    rewrite (get_operand_space _ _ _ _ G4 Hi). unfold p4.
    rewrite (get_operand_shared _ _ _ _ _ G3 Hi). unfold p3.
    rewrite (get_operand_parameter _ _ _ G2 Hi). unfold p2.
    rewrite (get_operand_argument _ _ _ G1 Hi). unfold p1.
    rewrite get_operand_global.
    apply (final_operand_fields (mkLayouts argT parT st cT lT) sharedSize
             (get_operand i ptx) Hsmall).
Qed.

End Compose.

Lemma memory_references_compose_witness :
  ∃ kernel' metadata' ptx',
    setupPTXMemoryReferences example_bytes mixed_kernel emptyMetadata
      (Some texture_device)
    = Ok (kernel', metadata')
    ∧ instruction_at (PTXKernel.cfg kernel') 1 2 = Some ptx'
    ∧ addressSpace ptx' = Local
    ∧ offset (get_operand 0 ptx') = 8.
Proof.
  destruct (setupPTXMemoryReferences example_bytes mixed_kernel emptyMetadata
              (Some texture_device)) as [[kernel' metadata']|f] eqn:Hrun;
    [|exfalso; vm_compute in Hrun; discriminate].
  destruct (memory_references_compose example_bytes mixed_kernel kernel'
              emptyMetadata metadata' (Some texture_device) Hrun)
    as (layouts & size & padding & _ & _ & _ & _ & _ & _ & Hlocals & Hall).
  destruct (Hall 1%nat 2%nat
              (mkInstruction St (addressOperand "counter" 0) emptyOperand
                 emptyOperand emptyOperand Generic false)
              eq_refl eq_refl)
    as (ptx' & Hat & _).
  exists kernel', metadata', ptx'. split; [reflexivity|].
  split; [exact Hat|].
  vm_compute in Hrun. injection Hrun as <- <-.
  vm_compute in Hat. injection Hat as <-. split; reflexivity.
Defined.

(** * What the operations of the cache can build *)

(** ** Postconditions for both ways an operation can end *)

Section Outcomes.

Context {LLVM : Type}.

















End Outcomes.


(** ** No translation is ever built *)

Section NeverTranslated.

Context {LLVM : Type}.
Variable PTXOperand_bytes : DataType -> N.
Variable backend : Backend LLVM.












End NeverTranslated.


(** * The optimization level *)

Section Pipeline.

Context {LLVM : Type}.
Variable backend : Backend LLVM.

Lemma optimization_level_ignored_returns translatedKernel translation
    optimization warpSize (s : Cache.t LLVM) :
  returns_with
    (cloneAndOptimizeTranslation backend translatedKernel translation
       optimization warpSize)
    (fun _ s' =>
       ∃ tk module function scalar clone l1 l2 l3,
         Heap.TranslatedKernels (Cache.heap s) !! translatedKernel = Some tk ∧
         TranslatedKernel.llvmModule tk = Some module ∧
         TranslatedKernel.llvmFunction tk = Some function ∧
         TranslatedKernel.scalarTranslation tk = Some scalar ∧
         CloneFunction backend function (Cache.llvm s) = Return clone l1 ∧
         addFunction backend module clone
           (clone_name (getNameStr backend scalar (Cache.llvm s))
              optimization warpSize) l1
         = Return tt l2 ∧
         runPasses backend module light_pipeline clone l2 = Return tt l3 ∧
         verifyModule backend module l3 = Return None (Cache.llvm s'))
    s.
Proof.
  unfold cloneAndOptimizeTranslation, clone_name.
  destruct (optimizationSwitch optimization) as [level space] eqn:Hswitch.
  change (passesFor 1 space) with light_pipeline.
  unfold read_TranslatedKernel, read_Translation, write_Translation,
    modify_heap.
  repeat returns_step.
  repeat match goal with u : () |- _ => destruct u end.
  eexists _, _, _, _, _, _, _, _.
  repeat (split; [eassumption|]). cbn [fst]. eassumption.
Qed.

(** X7.  Whatever the optimization level, when
    [cloneAndOptimizeTranslation] returns it has cloned the function of the
    translated kernel, added the clone to the module of the kernel under a
    name that carries the level, run the pass manager on the clone with
    the light pipeline, that of level 1, and the verifier has accepted the
    module in the state of LLVM these calls left.  The level shows in the
    name of the clone only. *)
Theorem optimization_level_ignored translatedKernel translation optimization
    warpSize (s s' : Cache.t LLVM) u :
  cloneAndOptimizeTranslation backend translatedKernel translation
    optimization warpSize s
  = Return u s' →
  ∃ tk module function scalar clone l1 l2 l3,
    Heap.TranslatedKernels (Cache.heap s) !! translatedKernel = Some tk ∧
    TranslatedKernel.llvmModule tk = Some module ∧
    TranslatedKernel.llvmFunction tk = Some function ∧
    TranslatedKernel.scalarTranslation tk = Some scalar ∧
    CloneFunction backend function (Cache.llvm s) = Return clone l1 ∧
    addFunction backend module clone
      (clone_name (getNameStr backend scalar (Cache.llvm s)) optimization
         warpSize) l1
    = Return tt l2 ∧
    runPasses backend module light_pipeline clone l2 = Return tt l3 ∧
    verifyModule backend module l3 = Return None (Cache.llvm s').
Proof.
  intros Hrun.
  exact (returns_with_inv _ _ _ _ _
           (optimization_level_ignored_returns translatedKernel translation
              optimization warpSize s) Hrun).
Qed.

End Pipeline.

(** At the level [FullOptimization], with a pass manager that throws for
    every list of passes but the light pipeline, the call returns. *)
Lemma optimization_level_ignored_witness :
  ∃ s' clone l2 l3,
    cloneAndOptimizeTranslation
      (with_runPasses (example_backend Sound) light_only) 60 100
      FullOptimization 4 cloning_cache
    = Return tt s'
    ∧ light_only 0 light_pipeline clone l2 = Return tt l3
    ∧ verifyModule (example_backend Sound) 0 l3 = Return None (Cache.llvm s').
Proof.
  destruct (cloneAndOptimizeTranslation
              (with_runPasses (example_backend Sound) light_only) 60 100
              FullOptimization 4 cloning_cache) as [[] s'| |] eqn:Hrun;
    [|exfalso; vm_compute in Hrun; discriminate..].
  destruct (optimization_level_ignored
              (with_runPasses (example_backend Sound) light_only) 60 100
              FullOptimization 4 cloning_cache s' tt Hrun)
    as (tk & module & function & scalar & clone & l1 & l2 & l3 & Htk
        & Hmodule & _ & _ & _ & _ & Hpasses & Hverify).
  vm_compute in Htk. injection Htk as <-.
  cbn in Hmodule. injection Hmodule as <-.
  exists s', clone, l2, l3. split; [reflexivity|]. split; [exact Hpasses|].
  exact Hverify.
Defined.

(** * A specialization that throws *)

Section Unwinding.

Context {LLVM : Type}.
Variable backend : Backend LLVM.

Lemma write_subkernelEntry_eq p subkernelId subkernel tk
    (s : Cache.t LLVM) :
  Heap.TranslatedKernels (Cache.heap s) !! p = Some tk →
  write_subkernelEntry p subkernelId subkernel s
  = Return tt
      (set_heap s
         (set_TranslatedKernels (Cache.heap s)
            (<[p := TranslatedKernel.mk (TranslatedKernel.llvmModule tk)
                      (TranslatedKernel.kernel tk)
                      (TranslatedKernel.metadata tk)
                      (TranslatedKernel.localMemorySize tk)
                      (TranslatedKernel.sharedMemorySize tk)
                      (TranslatedKernel.llvmFunction tk)
                      (TranslatedKernel.scalarTranslation tk)
                      (<[subkernelId := subkernel]>
                         (TranslatedKernel.subkernels tk))]>
               (Heap.TranslatedKernels (Cache.heap s))))).
Proof.
  intros Htk.
  unfold write_subkernelEntry, read_TranslatedKernel, write_TranslatedKernel,
    modify_heap, modify, get, mbind, M_bind.
  by rewrite Htk.
Qed.

(** X18.  When [_specializeTranslation] throws, the exception is the one
    its [try] block threw, for the translation the call allocated; the
    handler has removed the module of the translated kernel from the JIT
    and deleted the translation; and the two specialization tables hold
    what they held before the call. *)
Theorem specialization_unwinds translatedKernel subkernelId
    optimizationLevel warpSize specialization (s s' : Cache.t LLVM)
    message :
  _specializeTranslation backend translatedKernel subkernelId
    optimizationLevel warpSize specialization s
  = Throw message s' →
  same_tables s s'
  ∧ Heap.Translations (Cache.heap s') !! Heap.next (Cache.heap s) = None
  ∧ ∃ s0 s1 tk,
      specialize backend translatedKernel subkernelId warpSize
        (Heap.next (Cache.heap s)) s0
      = Throw message s1
      ∧ Heap.TranslatedKernels (Cache.heap s1) !! translatedKernel = Some tk
      ∧ Cache.llvm s'
        = removeModule backend (TranslatedKernel.llvmModule tk)
            (Cache.llvm s1).
Proof.
  intros Hrun. split.
  { pose proof (specializeTranslation_outcome backend translatedKernel
                  subkernelId optimizationLevel warpSize specialization s)
      as Hout.
    by rewrite Hrun in Hout. }
  unfold _specializeTranslation in Hrun.
  apply bind_inv_Throw in Hrun as [Hrun|(tk & s0 & Hread & Hrun)].
  { unfold read_TranslatedKernel, get, deref, mbind, M_bind in Hrun.
    by destruct (Heap.TranslatedKernels (Cache.heap s) !! translatedKernel). }
  apply read_TranslatedKernel_inv in Hread as [-> Htk].
  cbv zeta in Hrun.
  rewrite (bind_Return _ _ _ _ _ (write_subkernelEntry_eq _ _ _ _ _ Htk))
    in Hrun.
  unfold alloc, write_Translation, modify_heap, modify, get in Hrun.
  unfold mbind at 1 2 3, M_bind at 1 2 3 in Hrun. simpl_state.
  apply bind_inv_Throw in Hrun as [Hrun|(u & s1 & _ & Hrun)];
    [|discriminate Hrun].
  unfold try_catch in Hrun.
  match type of Hrun with
  | match ?body ?s0 with _ => _ end = _ =>
      destruct (body s0) as [|message1 s1|] eqn:Hbody;
      [discriminate Hrun| |discriminate Hrun]
  end.
  unfold read_TranslatedKernel, delete_Translation, modify_heap, modify, get,
    mbind, M_bind, deref in Hrun.
  destruct (Heap.TranslatedKernels (Cache.heap s1) !! translatedKernel)
    as [tk1|] eqn:Htk1; [|discriminate Hrun].
  cbn [mret M_ret] in Hrun. injection Hrun as -> <-. simpl_state.
  split; [apply lookup_delete_eq|].
  eexists _, s1, tk1. split; [exact Hbody|]. by split.
Qed.

End Unwinding.

(** With a JIT that throws, the specialization of subkernel 7 throws; the
    tables of [translated_cache] stay as they were and the translation
    allocated at address 100 is gone. *)
Lemma specialization_unwinds_witness :
  ∃ message s',
    _specializeTranslation (example_backend JitThrows) 60 7
      BasicOptimization 1 0 translated_cache
    = Throw message s'
    ∧ same_tables translated_cache s'
    ∧ Heap.Translations (Cache.heap s') !! 100 = None.
Proof.
  destruct (_specializeTranslation (example_backend JitThrows) 60 7
              BasicOptimization 1 0 translated_cache)
    as [translation s'|message s'|f] eqn:Hrun;
    [exfalso; vm_compute in Hrun; discriminate| |
     exfalso; vm_compute in Hrun; discriminate].
  exists message, s'. split; [reflexivity|].
  destruct (specialization_unwinds (example_backend JitThrows) 60 7
              BasicOptimization 1 0 translated_cache s' message Hrun)
    as (Htables & Hdeleted & _).
  split; [exact Htables|exact Hdeleted].
Defined.
